(** * gurdjieff-bot: the chunking core and the embedding batcher

    A shallow embedding of [src/data_processing/text_chunker.py]
    (class [TextChunker]) and of
    [src/data_processing/embedding_service.py]
    ([EmbeddingService.generate_embeddings_batch]), with the properties
    the specification states about them. *)

From Stdlib Require Import String Ascii ZArith NArith Lia Bool List.
Import ListNotations.

Set Implicit Arguments.

(* ================================================================= *)
(** ** Python strings *)

(** A Python [str] is a sequence of Unicode code points. *)
Module Py.

Definition char := N.
Definition str := list char.

(** ASCII literals, for examples. *)
Definition lit (s : string) : str := map N_of_ascii (list_ascii_of_string s).

Definition SPACE : char := 32%N.
Definition LF : char := 10%N.

(** [Py_UNICODE_ISSPACE]: the characters of [str.isspace], which are also
    the ones the [re] module's [\s] matches in a [str] pattern and the
    ones [str.strip()] removes. *)
Definition isspace (c : char) : bool :=
  ((9 <=? c) && (c <=? 13) || (28 <=? c) && (c <=? 32)
   || (c =? 133) || (c =? 160) || (c =? 5760)
   || (8192 <=? c) && (c <=? 8202)
   || (c =? 8232) || (c =? 8233) || (c =? 8239) || (c =? 8287)
   || (c =? 12288))%N.

Fixpoint lstrip (t : str) : str :=
  match t with
  | [] => []
  | c :: t' => if isspace c then lstrip t' else t
  end.

Definition rstrip (t : str) : str := rev (lstrip (rev t)).

(** [t.strip()] *)
Definition strip (t : str) : str := rstrip (lstrip t).

(** Truth value of a [str]: non-empty. *)
Definition truthy (t : str) : bool :=
  match t with [] => false | _ :: _ => true end.

(** [sep.join(parts)] *)
Fixpoint join (sep : str) (parts : list str) : str :=
  match parts with
  | [] => []
  | [p] => p
  | p :: ps => p ++ sep ++ join sep ps
  end.

(** Does [t] start with a character that is not whitespace? *)
Definition starts_solid (t : str) : bool :=
  match t with
  | [] => false
  | c :: _ => negb (isspace c)
  end.

(** A non-empty string whose first and last characters are not
    whitespace: [strip] leaves it as it is. *)
Definition trimmed (t : str) : bool := starts_solid t && starts_solid (rev t).

(** [re.sub(r'\s+', ' ', t)]: every maximal run of whitespace becomes one
    space.  [in_run] says that the previous character was whitespace. *)
Fixpoint sub_ws_runs (in_run : bool) (t : str) : str :=
  match t with
  | [] => []
  | c :: t' =>
      if isspace c
      then (if in_run then sub_ws_runs true t' else SPACE :: sub_ws_runs true t')
      else c :: sub_ws_runs false t'
  end.

(** Does [t] hold two whitespace characters in a row? *)
Fixpoint has_ws_run (t : str) : bool :=
  match t with
  | [] => false
  | c :: t' =>
      match t' with
      | [] => false
      | d :: _ => (isspace c && isspace d) || has_ws_run t'
      end
  end.

Fixpoint take_while (p : char -> bool) (t : str) : str :=
  match t with
  | [] => []
  | c :: t' => if p c then c :: take_while p t' else []
  end.

Fixpoint drop_while (p : char -> bool) (t : str) : str :=
  match t with
  | [] => []
  | c :: t' => if p c then drop_while p t' else t
  end.

Definition mem (c : char) (cls : list char) : bool := existsb (N.eqb c) cls.

(** [re.sub('[' + cls + ']', by, t)] for a class of literal characters. *)
Definition sub_class (cls : list char) (by_ : char) (t : str) : str :=
  map (fun c => if mem c cls then by_ else c) t.

(** The punctuation after which the sentence splitter looks: [.!?] *)
Definition sentence_end (c : char) : bool := mem c [46; 33; 63]%N.

(** [re.split(r'(?<=[.!?])\s+', t)].  A separator is a maximal run of
    whitespace whose first character comes right after one of [.!?].
    [after_end]: the previous character is one of [.!?]; [in_sep]: the
    previous character belongs to a separator; [cur]: the piece being
    read, reversed. *)
Fixpoint re_split_sentences (after_end in_sep : bool) (cur : str) (t : str)
  : list str :=
  match t with
  | [] => [rev cur]
  | c :: t' =>
      if isspace c && in_sep then re_split_sentences false true cur t'
      else if isspace c && after_end
           then rev cur :: re_split_sentences false true [] t'
           else re_split_sentences (sentence_end c) false (c :: cur) t'
  end.

End Py.

(* ================================================================= *)
(** ** [TextChunker] *)

Module TextChunker.
Import Py.

(** A chunk record: the dict built at each [chunks.append]. *)
Record Chunk (S : Type) : Type := mkChunk
  { text : str;
    token_count : nat;
    source : S;
    chunk_id : nat }.

Section Chunker.

(** The Unicode character database behind [\w] and [\d]:
    [Py_UNICODE_ISALNUM] and [Py_UNICODE_ISDECIMAL]. *)
Variable isalnum : char -> bool.
Variable isdecimal : char -> bool.

(** [count_tokens]: [len(self.encoding.encode(text))], the tokenizer
    being tiktoken's encoding of the embedding model. *)
Variable count_tokens : str -> nat.

(** [self.chunk_size], [self.chunk_overlap]: Python ints. *)
Variables chunk_size chunk_overlap : Z.

(** The type of [source_info], attached verbatim. *)
Variable SourceInfo : Type.

(** [\w]: alphanumeric or underscore. *)
Definition is_word (c : char) : bool := isalnum c || (c =? 95)%N.

(** The class of the third substitution, whose complement is blanked:
    word characters, whitespace, and the nine marks
    . , ; : ! ? - ' and the straight double quote (34). *)
Definition kept (c : char) : bool :=
  is_word c || isspace c || mem c [46; 44; 59; 58; 33; 63; 45; 39; 34]%N.

(** [re.sub(r'^\d+\s*$', '', t, flags=re.MULTILINE)] on a text without
    line feed, which is what [clean_text] applies it to
    ([sub_ws_runs] leaves none, lemma [sub_ws_runs_no_LF] below): [^]
    matches at offset 0 only and [$]
    at the end only, so the one possible match is the whole text, made
    of digits then whitespace. *)
Definition sub_page_number (t : str) : str :=
  if truthy (take_while isdecimal t) && forallb isspace (drop_while isdecimal t)
  then [] else t.

Definition clean_text (text : str) : str :=
  (* Remove excessive whitespace *)
  let text := sub_ws_runs false text in
  (* Remove page headers/footers patterns *)
  let text := sub_page_number text in
  (* Remove common OCR artifacts *)
  let text := map (fun c => if kept c then c else SPACE) text in
  (* Normalize quotes: both classes hold the straight quote only *)
  let text := sub_class [34; 34; 34]%N 34%N text in
  let text := sub_class [39; 39; 39]%N 39%N text in
  strip text.

Definition split_into_sentences (text : str) : list str :=
  let sentences := re_split_sentences false false [] text in
  map strip (filter (fun s => truthy (strip s)) sentences).

(** [a], one space, [b] when [a] is not empty; [b] alone otherwise. *)
Definition glue (a b : str) : str :=
  if truthy a then a ++ [SPACE] ++ b else b.

(** [sentence], one space, [overlap_text] when [overlap_text] is not
    empty; [sentence] alone otherwise. *)
Definition potential_overlap (sentence overlap_text : str) : str :=
  if truthy overlap_text then sentence ++ [SPACE] ++ overlap_text else sentence.

(** The loop of [_create_overlap], over the reversed sentences; the
    [else: break] ends it. *)
Fixpoint overlap_loop (rs : list str) (overlap_text : str) : str :=
  match rs with
  | [] => overlap_text
  | sentence :: rs' =>
      let tokens := count_tokens (potential_overlap sentence overlap_text) in
      if (Z.of_nat tokens <=? chunk_overlap)%Z
      then overlap_loop rs' (potential_overlap sentence overlap_text)
      else overlap_text
  end.

Definition _create_overlap (sentences : list str) : str :=
  match sentences with
  | [] => []
  | _ => strip (overlap_loop (rev sentences) [])
  end.

(** The overlap text a chunk starts from: none for chunk 0, and for
    chunk [i+1] what [_create_overlap] makes of the sentences chunk [i]
    consumed. *)
Definition overlap_before (log : list (list str)) (i : nat) : str :=
  match i with
  | O => []
  | S j => match nth_error log j with
           | Some g => _create_overlap g
           | None => []
           end
  end.

(** The local variables of [create_chunks]. *)
Record state : Type := mkState
  { chunks : list (Chunk SourceInfo);
    current_chunk : str;
    current_sentences : list str }.

Definition init : state := mkState [] [] [].

(** [chunks.append({...})] *)
Definition append_chunk (source_info : SourceInfo) (st : state)
  : list (Chunk SourceInfo) :=
  chunks st ++ [mkChunk (strip (current_chunk st))
                        (count_tokens (current_chunk st))
                        source_info
                        (length (chunks st))].

Definition potential_chunk (st : state) (sentence : str) : str :=
  glue (current_chunk st) sentence.

(** The test of the [if] in the loop body. *)
Definition exceeds (st : state) (sentence : str) : bool :=
  (Z.of_nat (count_tokens (potential_chunk st sentence)) >? chunk_size)%Z
  && truthy (current_chunk st).

(** One iteration of [for sentence in sentences]. *)
Definition step (source_info : SourceInfo) (st : state) (sentence : str)
  : state :=
  if exceeds st sentence
  then
    let chunks' := append_chunk source_info st in
    let overlap_text := _create_overlap (current_sentences st) in
    mkState chunks' (glue overlap_text sentence) [sentence]
  else
    mkState (chunks st) (potential_chunk st sentence)
            (current_sentences st ++ [sentence]).

Definition create_chunks (text : str) (source_info : SourceInfo)
  : list (Chunk SourceInfo) :=
  let cleaned_text := clean_text text in
  let sentences := split_into_sentences cleaned_text in
  let st := fold_left (step source_info) sentences init in
  if truthy (strip (current_chunk st))
  then append_chunk source_info st
  else chunks st.

(** *** The sentences each chunk consumed

    [current_sentences] holds, at each [chunks.append], the sentences
    the chunk took from the input (the overlap text carried over from
    the previous chunk is not among them).  The chunk dict does not keep
    them; this run of the same loop logs them, one entry per chunk. *)
Definition log_step (source_info : SourceInfo)
           (sl : state * list (list str)) (sentence : str)
  : state * list (list str) :=
  let (st, log) := sl in
  (step source_info st sentence,
   if exceeds st sentence then log ++ [current_sentences st] else log).

Definition consumed_sentences (text : str) (source_info : SourceInfo)
  : list (list str) :=
  let sentences := split_into_sentences (clean_text text) in
  let (st, log) := fold_left (log_step source_info) sentences (init, []) in
  if truthy (strip (current_chunk st))
  then log ++ [current_sentences st]
  else log.

(** *** How the chunks relate to the sentences

    [chunk_made_of log i c g]: chunk [c], the [i]-th one, consumed the
    sentences [g]; its text is the overlap carried over from chunk
    [i-1], if any, then the sentences of [g] joined by single spaces. *)
Definition chunk_made_of (source_info : SourceInfo) (log : list (list str))
           (i : nat) (c : Chunk SourceInfo) (g : list str) : Prop :=
  text c = glue (overlap_before log i) (join [SPACE] g)
  /\ token_count c = count_tokens (text c)
  /\ source c = source_info
  /\ chunk_id c = i
  /\ (2 <= length g -> (Z.of_nat (token_count c) <= chunk_size)%Z).

Definition chunks_ok (source_info : SourceInfo)
           (cs : list (Chunk SourceInfo)) (log : list (list str)) : Prop :=
  length log = length cs
  /\ forall i c, nth_error cs i = Some c ->
       exists g, nth_error log i = Some g /\ chunk_made_of source_info log i c g.

Definition groups_ok (log : list (list str)) : Prop :=
  Forall (fun g => g <> [] /\ Forall (fun s => trimmed s = true) g) log.

(** The loop invariant of [create_chunks], [done] being the sentences
    read so far. *)
Definition loop_inv (source_info : SourceInfo) (done : list str)
           (st : state) (log : list (list str)) : Prop :=
  chunks_ok source_info (chunks st) log
  /\ groups_ok log
  /\ Forall (fun s => trimmed s = true) (current_sentences st)
  /\ concat log ++ current_sentences st = done
  /\ current_chunk st =
     match current_sentences st with
     | [] => []
     | _ => glue (overlap_before log (length log))
                 (join [SPACE] (current_sentences st))
     end
  /\ (2 <= length (current_sentences st) ->
      (Z.of_nat (count_tokens (current_chunk st)) <= chunk_size)%Z)
  /\ (current_sentences st = [] -> log = [] /\ done = []).

End Chunker.

(** *** A small instance, for examples

    [ascii_isalnum] and [ascii_isdecimal] agree with Python on ASCII and on
    the General Punctuation block (U+2000 to U+206F, which holds no letter
    and no digit).  [toy_tokens] counts words and punctuation marks: one
    token per maximal run of alphanumerics and one per other non-blank
    character. *)
Definition ascii_isdecimal (c : char) : bool := ((48 <=? c) && (c <=? 57))%N.

Definition ascii_isalnum (c : char) : bool :=
  (ascii_isdecimal c || (65 <=? c) && (c <=? 90) || (97 <=? c) && (c <=? 122))%N.

Fixpoint toy_tokens_from (in_word : bool) (t : str) : nat :=
  match t with
  | [] => 0
  | c :: t' =>
      if ascii_isalnum c
      then (if in_word then 0 else 1) + toy_tokens_from true t'
      else (if isspace c then 0 else 1) + toy_tokens_from false t'
  end.

Definition toy_tokens (t : str) : nat := toy_tokens_from false t.

End TextChunker.

(* ================================================================= *)
(** ** [EmbeddingService] *)

Module EmbeddingService.
Import Py.

(** The length of a range, as CPython computes it from the bounds put in
    increasing order and the absolute value of the step. *)
Definition range_length (lo hi step : Z) : Z :=
  if (lo >=? hi)%Z then 0%Z else ((hi - lo - 1) / step + 1)%Z.

(** [range(0, stop, step)] for [step <> 0]. *)
Definition range0 (stop step : Z) : list Z :=
  let n := if (0 <? step)%Z
           then range_length 0 stop step
           else range_length stop 0 (- step) in
  map (fun k => (Z.of_nat k * step)%Z) (seq 0 (Z.to_nat n)).

(** [l[lo:hi]] for [0 <= lo] and [0 <= hi], the only slices the loop
    takes. *)
Definition slice (A : Type) (lo hi : Z) (l : list A) : list A :=
  firstn (Z.to_nat (hi - lo)) (skipn (Z.to_nat lo) l).

(** The index at which batch number [j] starts. *)
Definition start (batch_size : Z) (j : nat) : Z := (Z.of_nat j * batch_size)%Z.

Section Service.

(** An embedding is a [List[float]]; the scalars stay abstract. *)
Variable scalar : Type.
Definition embedding : Type := list scalar.

(** The body of the [try]: the call [self.client.embeddings.create]
    for the batch that starts at index [i], then
    [[data.embedding for data in response.data]].  [None] stands for
    any exception raised there. *)
Variable create : Z -> list str -> option (list embedding).

(** One iteration of [for i in range(0, len(texts), batch_size)]. *)
Definition batch_step (texts : list str) (batch_size : Z)
           (embeddings : list embedding) (i : Z) : list embedding :=
  let batch := slice i (i + batch_size) texts in
  match create i batch with
  | Some batch_embeddings => embeddings ++ batch_embeddings
  | None =>
      (* Add empty embeddings for failed batch *)
      embeddings ++ map (fun _ => []) batch
  end.

(** What the iteration for index [i] appends to [embeddings]. *)
Definition block (texts : list str) (batch_size : Z) (i : Z)
  : list embedding :=
  let batch := slice i (i + batch_size) texts in
  match create i batch with
  | Some batch_embeddings => batch_embeddings
  | None => map (fun _ => []) batch
  end.

(** [None]: the [ValueError] that [range] raises for a zero step. *)
Definition generate_embeddings_batch (texts : list str) (batch_size : Z)
  : option (list embedding) :=
  if (batch_size =? 0)%Z then None
  else Some (fold_left (batch_step texts batch_size)
                       (range0 (Z.of_nat (length texts)) batch_size) []).

End Service.

(** A client for examples: it fails on every batch that holds an empty
    text and answers the others with one one-dimensional vector each. *)
Definition flaky_create (i : Z) (batch : list str) : option (list (list nat)) :=
  if existsb (fun t => negb (truthy t)) batch then None
  else Some (map (fun t => [length t]) batch).

End EmbeddingService.

(* ================================================================= *)
(** ** Sentences and characters: vocabulary for the further facts *)

Module Shape.
Import Py.

(** Does [p] end with one of [.!?] *)
Definition ends_sentence (p : str) : bool :=
  match rev p with
  | [] => false
  | c :: _ => sentence_end c
  end.

(** [P] holds of every element of the list but the last. *)
Fixpoint all_but_last (A : Type) (P : A -> Prop) (l : list A) : Prop :=
  match l with
  | [] => True
  | x :: l' => match l' with
               | [] => True
               | _ :: _ => P x /\ all_but_last P l'
               end
  end.

(** The characters of [t] that are not whitespace, in order. *)
Definition solid_chars (t : str) : str := filter (fun c => negb (isspace c)) t.

End Shape.

From Stdlib Require DecimalString DecimalNat.

(* ================================================================= *)
(** ** Formatting *)

Module Fmt.
Import Py.

(** [str(n)] for a non-negative [int], as an f-string renders it. *)
Definition str_of_nat (n : nat) : str :=
  lit (DecimalString.NilEmpty.string_of_uint (Nat.to_uint n)).

(** The pieces of [t] between its slashes; [cur] is the piece being
    read, reversed. *)
Fixpoint split_slash (cur : str) (t : str) : list str :=
  match t with
  | [] => [rev cur]
  | c :: t' =>
      if (c =? 47)%N then rev cur :: split_slash [] t'
      else split_slash (c :: cur) t'
  end.

(** The root pathlib reads off a POSIX path: one slash, or two when the
    path starts with exactly two. *)
Definition path_root (directory : str) : str :=
  match directory with
  | c1 :: rest =>
      if (c1 =? 47)%N
      then match rest with
           | c2 :: rest' =>
               if (c2 =? 47)%N
               then match rest' with
                    | c3 :: _ => if (c3 =? 47)%N then lit "/" else lit "//"
                    | [] => lit "//"
                    end
               else lit "/"
           | [] => lit "/"
           end
      else []
  | [] => []
  end.

(** The components pathlib keeps: neither the empty ones nor the single
    dots; a double dot stays. *)
Definition path_parts (directory : str) : list str :=
  filter (fun p => match p with
                   | [] => false
                   | [c] => negb (c =? 46)%N
                   | _ => true
                   end)
         (split_slash [] directory).

(** [str(Path(directory) / name)] on a POSIX system, for a [name] that
    is one component (no slash, not empty, not a single dot), as the file
    names built from a stem are. *)
Definition joinpath (directory name : str) : str :=
  path_root directory ++ join (lit "/") (path_parts directory ++ [name]).

(** What a call leaves behind: its value, or nothing when it raised. *)
Inductive result (A : Type) : Type :=
| Ok (a : A)
| Raised.
Arguments Raised {A}.

(** Truth value of a list: non-empty. *)
Definition truthy_list (A : Type) (l : list A) : bool :=
  match l with [] => false | _ :: _ => true end.

(** A Python [dict] with [str] keys, in insertion order. *)
Definition dict (V : Type) : Type := list (str * V).

Definition str_eqb (a b : str) : bool :=
  if list_eq_dec N.eq_dec a b then true else false.

(** [d[k] = v] *)
Fixpoint dict_set (V : Type) (d : dict V) (k : str) (v : V) : dict V :=
  match d with
  | [] => [(k, v)]
  | (k', v') :: d' =>
      if str_eqb k' k then (k, v) :: d' else (k', v') :: dict_set d' k v
  end.

Definition dict_get (V : Type) (d : dict V) (k : str) : option V :=
  option_map snd (find (fun kv => str_eqb (fst kv) k) d).

End Fmt.

(* ================================================================= *)
(** ** [PDFExtractor] *)

Module PDFExtractor.
Import Py Fmt.

(** What [page.extract_text()] does on a page: it raises, or it returns
    [None] or a string. *)
Inductive extraction : Type :=
| Raises
| Returns (text : option str).

(** [{"page": page_num, "text": text.strip()}] *)
Record page_data : Type := mkPageData
  { page : nat;
    text : str }.

(** The loop [for page_num, page in enumerate(pdf.pages, 1)]; [None] when
    a page raises. *)
Fixpoint pages_loop (page_num : nat) (pages : list extraction)
         (text_content : list page_data) : option (list page_data) :=
  match pages with
  | [] => Some text_content
  | Raises :: _ => None
  | Returns None :: rest => pages_loop (S page_num) rest text_content
  | Returns (Some t) :: rest =>
      if truthy t
      then pages_loop (S page_num) rest
                      (text_content ++ [mkPageData page_num (strip t)])
      else pages_loop (S page_num) rest text_content
  end.

(** [pdf] is [None] when [pdfplumber.open] raises, and the pages of the
    document otherwise.  Every exception ends in [return []]. *)
Definition extract_text_from_pdf (pdf : option (list extraction))
  : list page_data :=
  match pdf with
  | None => []
  | Some pages =>
      match pages_loop 1 pages [] with
      | Some text_content => text_content
      | None => []
      end
  end.

(** The dict dumped to [<stem>_extracted.json]. *)
Record extracted : Type := mkExtracted
  { source : str;
    total_pages : nat;
    pages : list page_data }.

(** An entry of [results]. *)
Record info : Type := mkInfo
  { info_pages : nat;
    json_file : str;
    text_file : str }.

(** A file of [raw_data_dir.glob("*.pdf")]: its [name], its [stem], and
    what pdfplumber makes of it. *)
Record pdf_file : Type := mkPdfFile
  { name : str;
    stem : str;
    pdf : option (list extraction) }.

Inductive file_content : Type :=
| Json (data : extracted)
| Plain (content : str).

(** The text written to [<stem>_text.txt]. *)
Definition plain_text (text_content : list page_data) : str :=
  concat (map (fun page_data =>
                 lit "--- Page " ++ str_of_nat (page page_data) ++ lit " ---"
                     ++ [LF] ++ text page_data ++ [LF; LF])
              text_content).

Section Files.

(** The file system, and writing a whole file ([open(path, 'w')] and the
    writes under it); [None] when that raises. *)
Variable FS : Type.
Variable write : str -> file_content -> FS -> option FS.
Variable processed_data_dir : str.

(** The loop [for pdf_file in pdf_files]. *)
Fixpoint pdf_loop (pdf_files : list pdf_file) (results : dict info) (fs : FS)
  : result (dict info) * FS :=
  match pdf_files with
  | [] => (Ok results, fs)
  | pdf_file :: rest =>
      let text_content := extract_text_from_pdf (pdf pdf_file) in
      if truthy_list text_content
      then
        let output_file :=
          joinpath processed_data_dir (stem pdf_file ++ lit "_extracted.json") in
        match write output_file
                    (Json (mkExtracted (name pdf_file) (length text_content)
                                       text_content)) fs with
        | None => (Raised, fs)
        | Some fs1 =>
            let text_file :=
              joinpath processed_data_dir (stem pdf_file ++ lit "_text.txt") in
            match write text_file (Plain (plain_text text_content)) fs1 with
            | None => (Raised, fs1)
            | Some fs2 =>
                pdf_loop rest
                         (dict_set results (name pdf_file)
                                   (mkInfo (length text_content)
                                           output_file text_file))
                         fs2
            end
        end
      else pdf_loop rest results fs
  end.

(** [Ok None]: the bare [return] taken when there is no PDF. *)
Definition process_all_pdfs (pdf_files : list pdf_file) (fs : FS)
  : result (option (dict info)) * FS :=
  match pdf_files with
  | [] => (Ok None, fs)
  | _ =>
      match pdf_loop pdf_files [] fs with
      | (Ok results, fs') => (Ok (Some results), fs')
      | (Raised, fs') => (Raised, fs')
      end
  end.

End Files.

(** A file system for examples: the files written, the latest first;
    writing never fails. *)
Definition toy_fs : Type := list (str * file_content).

Definition toy_write (path : str) (content : file_content) (fs : toy_fs)
  : option toy_fs := Some ((path, content) :: fs).

End PDFExtractor.

(* ================================================================= *)
(** ** [TextChunker]: the file-level functions *)

Module ChunkerFiles.
Import Py Fmt TextChunker.

(** [source_info] as [process_extracted_json] builds it. *)
Record source_info : Type := mkSourceInfo
  { filename : str;
    total_pages : nat;
    processed_file : str }.

(** The dict [save_chunks] dumps. *)
Record chunk_data : Type := mkChunkData
  { total_chunks : nat;
    chunking_config : Z * Z;
    chunks : list (Chunk source_info) }.

Section Chunker.

Variables isalnum isdecimal : char -> bool.
Variable count_tokens : str -> nat.
Variables chunk_size chunk_overlap : Z.

(** [full_text], every page followed by two line feeds. *)
Definition full_text (pages : list PDFExtractor.page_data) : str :=
  fold_left (fun full_text page_data =>
               full_text ++ PDFExtractor.text page_data ++ [LF; LF])
            pages [].

(** [data] is what [json.load] returns for the file at
    [json_file_path]: the dict [PDFExtractor.process_all_pdfs] dumped. *)
Definition process_extracted_json (json_file_path : str)
           (data : PDFExtractor.extracted) : list (Chunk source_info) :=
  let all_chunks := [] in
  let full_text := full_text (PDFExtractor.pages data) in
  let source_info :=
    mkSourceInfo (PDFExtractor.source data) (PDFExtractor.total_pages data)
                 json_file_path in
  let chunks :=
    create_chunks isalnum isdecimal count_tokens chunk_size chunk_overlap
                  full_text source_info in
  all_chunks ++ chunks.

(** [chunk_data] in [save_chunks]. *)
Definition save_chunks_data (chunks : list (Chunk source_info)) : chunk_data :=
  mkChunkData (length chunks) (chunk_size, chunk_overlap) chunks.

End Chunker.

End ChunkerFiles.

(* ================================================================= *)
(** ** [EmbeddingService]: single texts and chunk files *)

Module EmbeddingFiles.
Import Py Fmt TextChunker EmbeddingService.

Section Service.

Variable scalar : Type.

(** A chunk dict after [process_chunks_file]. *)
Record embedded_chunk : Type := mkEmbeddedChunk
  { chunk : Chunk ChunkerFiles.source_info;
    embedding : list scalar;
    embedding_model : str }.

Record embedding_info : Type := mkEmbeddingInfo
  { info_model : str;
    total_embeddings : nat;
    failed_embeddings : nat }.

(** [data] as [process_chunks_file] returns it. *)
Record embedded_data : Type := mkEmbeddedData
  { total_chunks : nat;
    chunking_config : Z * Z;
    chunks : list embedded_chunk;
    info : embedding_info }.

(** [self.model] *)
Variable model : str.

(** The embeddings client, as in [EmbeddingService.generate_embeddings_batch]:
    the embeddings of [response.data], or [None] when the call raises. *)
Variable create : Z -> list str -> option (list (list scalar)).

(** The same client called on one text: [response.data], or [None]. *)
Variable create_single : str -> option (list (list scalar)).

(** [response.data[0].embedding]; an empty [data] raises [IndexError],
    which the [except] turns into [[]] like any other exception. *)
Definition generate_embedding (text : str) : list scalar :=
  match create_single text with
  | Some (e :: _) => e
  | Some [] => []
  | None => []
  end.

(** [for i, chunk in enumerate(chunks): chunk["embedding"] = embeddings[i]];
    [None] is the [IndexError] of a list of embeddings that is too
    short. *)
Fixpoint attach (i : nat) (chunks : list (Chunk ChunkerFiles.source_info))
         (embeddings : list (list scalar)) : option (list embedded_chunk) :=
  match chunks with
  | [] => Some []
  | chunk :: rest =>
      match nth_error embeddings i with
      | None => None
      | Some e =>
          match attach (S i) rest embeddings with
          | None => None
          | Some rest' => Some (mkEmbeddedChunk chunk e model :: rest')
          end
      end
  end.

(** [len([e for e in embeddings if e])] and its complement. *)
Definition count_truthy (embeddings : list (list scalar)) : nat :=
  length (filter (@truthy_list scalar) embeddings).

Definition count_falsy (embeddings : list (list scalar)) : nat :=
  length (filter (fun e => negb (truthy_list e)) embeddings).

(** [data] is what [json.load] returns for the chunks file: the dict
    [save_chunks] dumped.  [None]: an exception leaves the function. *)
Definition process_chunks_file (data : ChunkerFiles.chunk_data)
  : option embedded_data :=
  let chunks := ChunkerFiles.chunks data in
  let texts := map (@TextChunker.text _) chunks in
  match generate_embeddings_batch create texts 100 with
  | None => None
  | Some embeddings =>
      match attach 0 chunks embeddings with
      | None => None
      | Some chunks' =>
          Some (mkEmbeddedData
                  (ChunkerFiles.total_chunks data)
                  (ChunkerFiles.chunking_config data)
                  chunks'
                  (mkEmbeddingInfo model (count_truthy embeddings)
                                   (count_falsy embeddings)))
      end
  end.

End Service.

End EmbeddingFiles.

(* ================================================================= *)
(** ** [VectorStore] *)

Module VectorStore.
Import Py Fmt TextChunker EmbeddingService.

Section Store.

Variable scalar : Type.

#[local] Abbreviation embedded_chunk := (EmbeddingFiles.embedded_chunk scalar).
#[local] Abbreviation embedded_data := (EmbeddingFiles.embedded_data scalar).

Record metadata : Type := mkMetadata
  { source_file : str;
    total_pages : nat;
    chunk_id : nat;
    token_count : nat;
    embedding_model : str }.

(** The arguments of one [self.collection.add]. *)
Record batch : Type := mkBatch
  { batch_ids : list str;
    batch_embeddings : list (list scalar);
    batch_documents : list str;
    batch_metadatas : list metadata }.

(** The collection, and [self.collection.add]; [None] when it raises. *)
Variable Collection : Type.
Variable collection_add : batch -> Collection -> option Collection.

(** [f"{embeddings_file.stem}_{chunk['chunk_id']}"] *)
Definition make_id (stem : str) (chunk : embedded_chunk) : str :=
  stem ++ lit "_" ++ str_of_nat (TextChunker.chunk_id (EmbeddingFiles.chunk chunk)).

Definition make_metadata (chunk : embedded_chunk) : metadata :=
  let c := EmbeddingFiles.chunk chunk in
  mkMetadata (ChunkerFiles.filename (TextChunker.source c))
             (ChunkerFiles.total_pages (TextChunker.source c))
             (TextChunker.chunk_id c)
             (TextChunker.token_count c)
             (EmbeddingFiles.embedding_model chunk).

(** [[chunk for chunk in chunks if chunk.get("embedding")]] *)
Definition valid_chunks (data : embedded_data) : list embedded_chunk :=
  filter (fun chunk => truthy_list (EmbeddingFiles.embedding chunk))
         (EmbeddingFiles.chunks data).

(** The loop [for i in range(0, len(ids), batch_size)], with
    [total_added]. *)
Fixpoint add_loop (idxs : list Z) (batch_size : Z)
         (ids : list str) (embeddings : list (list scalar))
         (documents : list str) (metadatas : list metadata)
         (total_added : nat) (collection : Collection)
  : result nat * Collection :=
  match idxs with
  | [] => (Ok total_added, collection)
  | i :: rest =>
      let b := mkBatch (slice i (i + batch_size) ids)
                       (slice i (i + batch_size) embeddings)
                       (slice i (i + batch_size) documents)
                       (slice i (i + batch_size) metadatas) in
      match collection_add b collection with
      | None => (Raised, collection)
      | Some collection' =>
          add_loop rest batch_size ids embeddings documents metadatas
                   (total_added + length (batch_ids b)) collection'
      end
  end.

(** [data] is what [json.load] returns for [embeddings_file], whose
    [stem] is given. *)
Definition add_embeddings_from_file (stem : str) (data : embedded_data)
           (collection : Collection) : result unit * Collection :=
  let valid_chunks := valid_chunks data in
  if negb (truthy_list valid_chunks) then (Ok tt, collection)
  else
    let ids := map (make_id stem) valid_chunks in
    let embeddings := map (@EmbeddingFiles.embedding scalar) valid_chunks in
    let documents :=
      map (fun chunk => TextChunker.text (EmbeddingFiles.chunk chunk))
          valid_chunks in
    let metadatas := map make_metadata valid_chunks in
    let batch_size := 100%Z in
    match add_loop (range0 (Z.of_nat (length ids)) batch_size) batch_size
                   ids embeddings documents metadatas 0 collection with
    | (Ok _, collection') => (Ok tt, collection')
    | (Raised, collection') => (Raised, collection')
    end.

(** [similarity_search]: its first statement raises
    [NotImplementedError], whatever the arguments. *)
Definition similarity_search (A : Type) (query : str) (n_results : Z)
           (collection : Collection) : result A * Collection :=
  (Raised, collection).

End Store.

(** A collection that only records the batches it is given. *)
Definition recorder (scalar : Type) : Type := list (batch scalar).

Definition record_add (scalar : Type) (b : batch scalar) (c : recorder scalar)
  : option (recorder scalar) := Some (c ++ [b]).

End VectorStore.

(* ================================================================= *)
(** ** [process_all.main] *)

Module ProcessAll.
Import Py Fmt.

(** The parsed command line. *)
Record args : Type := mkArgs
  { skip_extraction : bool;
    skip_chunking : bool;
    skip_embeddings : bool;
    reset_vector_store : bool }.

(** How a block of statements ends: it runs to its end with a value, it
    executes [return code], or an exception leaves it. *)
Inductive flow (A : Type) : Type :=
| Value (a : A)
| Return (code : Z)
| Raise.
Arguments Return {A} code.
Arguments Raise {A}.

Section Main.

(** The world outside the process (environment, file system, services)
    and the types of what the stages hand to each other. *)
Variables World File Chunks Data : Type.

(** The calls [main] makes to the pipeline stages, for the trace. *)
Inductive call : Type :=
| ProcessAllPdfs
| ProcessExtractedJson (json_file : File)
| SaveChunks (json_file : File)
| ProcessChunksFile (chunks_file : File)
| SaveEmbeddings (chunks_file : File)
| ResetCollection
| GetCollectionStats
| AddEmbeddingsFromFile (embedding_file : File)
| SimilaritySearch.

(** A block of statements: from a world to how it ends, the world it
    leaves, and the stage calls it made, in order. *)
Definition M (A : Type) : Type := World -> flow A * World * list call.

Definition ret (A : Type) (a : A) : M A := fun w => (Value a, w, []).

Definition return_ {A : Type} (code : Z) : M A := fun w => (Return code, w, []).

(** An exception raised by [main]'s own statements. *)
Definition raise_ {A : Type} : M A := fun w => (Raise, w, []).

Definition bind (A B : Type) (m : M A) (k : A -> M B) : M B :=
  fun w =>
    match m w with
    | (Value a, w1, t1) =>
        let '(r, w2, t2) := k a w1 in (r, w2, t1 ++ t2)
    | (Return code, w1, t1) => (Return code, w1, t1)
    | (Raise, w1, t1) => (Raise, w1, t1)
    end.

(** [try: m  except Exception: handler] *)
Definition try_ (A : Type) (m : M A) (handler : M A) : M A :=
  fun w =>
    match m w with
    | (Raise, w1, t1) =>
        let '(r, w2, t2) := handler w1 in (r, w2, t1 ++ t2)
    | other => other
    end.

(** [for x in l: body x] *)
Fixpoint for_each (A : Type) (l : list A) (body : A -> M unit) : M unit :=
  match l with
  | [] => ret tt
  | x :: l' => bind (body x) (fun _ => for_each l' body)
  end.

(** An outside call: its value, or [None] when it raises. *)
Definition ext (A : Type) : Type := World -> option A * World.

Definition lift (A : Type) (log : list call) (f : ext A) : M A :=
  fun w =>
    match f w with
    | (Some a, w') => (Value a, w', log)
    | (None, w') => (Raise, w', log)
    end.

(** How a run ended and the calls it made. *)
Definition outcome (A : Type) (run : flow A * World * list call) : flow A :=
  fst (fst run).

Definition trace (A : Type) (run : flow A * World * list call) : list call :=
  snd run.

(** The step of the pipeline a call belongs to. *)
Definition stage (c : call) : nat :=
  match c with
  | ProcessAllPdfs => 1
  | ProcessExtractedJson _ | SaveChunks _ => 2
  | ProcessChunksFile _ | SaveEmbeddings _ => 3
  | ResetCollection | GetCollectionStats
  | AddEmbeddingsFromFile _ | SimilaritySearch => 4
  end.

(** [m] makes only calls that satisfy [P]. *)
Definition only (P : call -> Prop) (A : Type) (m : M A) : Prop :=
  forall w, Forall P (trace (m w)).

(** [m] executes no [return] but [return 1]. *)
Definition returns_only_1 (A : Type) (m : M A) : Prop :=
  forall w code, outcome (m w) = Return code -> code = 1%Z.

(** [os.getenv("OPENAI_API_KEY")] is set and not empty. *)
Variable has_api_key : World -> bool.
(** [dir_path.mkdir(parents=True, exist_ok=True)] for the three
    directories. *)
Variable make_dirs : ext unit.
(** The constructors. *)
Variable new_extractor new_chunker new_embedding_service new_vector_store
  : ext unit.
(** [extractor.process_all_pdfs()], as the truth value of its result. *)
Variable process_all_pdfs : ext bool.
(** The three [glob]s. *)
Variable glob_extracted glob_chunks glob_embeddings : ext (list File).
Variable process_extracted_json : File -> ext Chunks.
Variable save_chunks : Chunks -> File -> ext unit.
Variable process_chunks_file : File -> ext Data.
Variable save_embeddings : Data -> File -> ext unit.
(** [data["embedding_info"]] and its two counts; [None] when a key is
    missing. *)
Variable embedding_info : Data -> option (nat * nat).
Variable reset_collection : ext unit.
(** [get_collection_stats()["total_documents"]] *)
Variable get_collection_stats : ext nat.
Variable add_embeddings_from_file : File -> ext unit.

(** [vector_store.similarity_search("consciousness", n_results=3)]: see
    [VectorStore.similarity_search]. *)
Definition similarity_search : ext (list unit) :=
  fun w =>
    match @VectorStore.similarity_search World (list unit)
                                         (lit "consciousness") 3%Z w with
    | (Ok results, w') => (Some results, w')
    | (Raised, w') => (None, w')
    end.

#[local] Notation "x <- m ;; k" := (bind m (fun x => k))
  (at level 61, m at next level, right associativity).
#[local] Notation "m ;;; k" := (bind m (fun _ => k))
  (at level 61, right associativity).

Definition null (A : Type) (l : list A) : bool :=
  match l with [] => true | _ :: _ => false end.

(** Step 1: PDF extraction. *)
Definition step1 (a : args) : M unit :=
  if negb (skip_extraction a)
  then
    lift [] new_extractor ;;;
    extraction_results <- lift [ProcessAllPdfs] process_all_pdfs ;;
    if negb extraction_results then return_ 1%Z else ret tt
  else ret tt.

(** Step 2: text chunking. *)
Definition step2 (a : args) : M unit :=
  if negb (skip_chunking a)
  then
    lift [] new_chunker ;;;
    json_files <- lift [] glob_extracted ;;
    if null json_files then return_ 1%Z
    else
      for_each json_files
        (fun json_file =>
           chunks <- lift [ProcessExtractedJson json_file]
                          (process_extracted_json json_file) ;;
           lift [SaveChunks json_file] (save_chunks chunks json_file))
  else ret tt.

(** Step 3: embeddings; each file is processed under a [try] whose
    [except] returns 1. *)
Definition step3 (a : args) : M unit :=
  if negb (skip_embeddings a)
  then
    lift [] new_embedding_service ;;;
    chunks_files <- lift [] glob_chunks ;;
    if null chunks_files then return_ 1%Z
    else
      for_each chunks_files
        (fun chunks_file =>
           try_ (data <- lift [ProcessChunksFile chunks_file]
                              (process_chunks_file chunks_file) ;;
                 lift [SaveEmbeddings chunks_file]
                      (save_embeddings data chunks_file) ;;;
                 match embedding_info data with
                 | Some _ => ret tt
                 | None => raise_
                 end)
                (return_ 1%Z))
  else ret tt.

(** Step 4: the vector store, all of it under one [try] whose [except]
    returns 1. *)
Definition step4 (a : args) : M unit :=
  try_ (lift [] new_vector_store ;;;
        (if reset_vector_store a
         then lift [ResetCollection] reset_collection
         else ret tt) ;;;
        embedding_files <- lift [] glob_embeddings ;;
        if null embedding_files then return_ 1%Z
        else
          current_stats <- lift [GetCollectionStats] get_collection_stats ;;
          if (0 <? current_stats) && negb (reset_vector_store a)
          then
            lift [GetCollectionStats] get_collection_stats ;;;
            return_ 0%Z
          else
            for_each embedding_files
              (fun embedding_file =>
                 lift [AddEmbeddingsFromFile embedding_file]
                      (add_embeddings_from_file embedding_file)) ;;;
            lift [GetCollectionStats] get_collection_stats ;;;
            test_results <- lift [SimilaritySearch] similarity_search ;;
            ret tt)
       (return_ 1%Z).

Definition main (a : args) : M unit :=
  fun w =>
    if negb (has_api_key w) && negb (skip_embeddings a)
    then (Return 1%Z, w, [])
    else
      (lift [] make_dirs ;;;
       step1 a ;;;
       step2 a ;;;
       step3 a ;;;
       step4 a ;;;
       return_ 0%Z) w.

End Main.

(** A small world for examples: whether the key is set and the number of
    documents in the collection.  Every directory holds the one file
    [0]; every call succeeds, [process_chunks_file] apart, which is a
    parameter. *)
Module Toy.

Record world : Type := mkWorld
  { api_key : bool;
    documents : nat }.

Definition ok (A : Type) (a : A) : ext world A := fun w => (Some a, w).

Definition fails (A : Type) : ext world A := fun w => (None, w).

Definition toy_reset_collection : ext world unit :=
  fun w => (Some tt, mkWorld (api_key w) 0).

Definition toy_get_collection_stats : ext world nat :=
  fun w => (Some (documents w), w).

Definition toy_add_embeddings_from_file (f : nat) : ext world unit :=
  fun w => (Some tt, mkWorld (api_key w) (S (documents w))).

Definition toy_main (process_chunks_file : nat -> ext world unit)
  : args -> M world nat unit :=
  @main world nat unit unit
        api_key (ok tt) (ok tt) (ok tt) (ok tt) (ok tt) (ok true)
        (ok [0]) (ok [0]) (ok [0])
        (fun _ => ok tt) (fun _ _ => ok tt)
        process_chunks_file (fun _ _ => ok tt)
        (fun _ => Some (1, 0))
        toy_reset_collection toy_get_collection_stats
        toy_add_embeddings_from_file.

End Toy.

End ProcessAll.
(* ================================================================= *)
(** ** Facts about the string primitives *)

Module PyFacts.
Import Py.

Lemma isspace_SPACE : isspace SPACE = true.
Proof. reflexivity. Qed.

Lemma lstrip_solid (t : str) : starts_solid t = true -> lstrip t = t.
Proof.
  destruct t as [|c t]; simpl; [discriminate|].
  destruct (isspace c); simpl; [discriminate|reflexivity].
Qed.

Lemma lstrip_cases (t : str) : lstrip t = [] \/ starts_solid (lstrip t) = true.
Proof.
  induction t as [|c t IH]; simpl; [now left|].
  destruct (isspace c) eqn:E; [exact IH|].
  right; simpl; now rewrite E.
Qed.

Lemma lstrip_app_solid (l r : str) (c : char) :
  isspace c = false -> lstrip (l ++ c :: r) = lstrip l ++ c :: r.
Proof.
  intro H; induction l as [|a l IH]; simpl.
  - now rewrite H.
  - destruct (isspace a); [exact IH|reflexivity].
Qed.

Lemma lstrip_blank (t : str) : forallb isspace t = true -> lstrip t = [].
Proof.
  induction t as [|c t IH]; simpl; [reflexivity|].
  destruct (isspace c); simpl; [exact IH|discriminate].
Qed.

Lemma starts_solid_app (a x : str) :
  starts_solid a = true -> starts_solid (a ++ x) = true.
Proof. destruct a; simpl; [discriminate|trivial]. Qed.

Lemma strip_trimmed (t : str) : trimmed t = true -> strip t = t.
Proof.
  unfold trimmed, strip, rstrip; intro H.
  apply andb_prop in H as [H1 H2].
  rewrite (lstrip_solid _ H1), (lstrip_solid _ H2).
  apply rev_involutive.
Qed.

Lemma strip_cases (t : str) : strip t = [] \/ trimmed (strip t) = true.
Proof.
  unfold strip, rstrip.
  destruct (lstrip_cases t) as [E|E]; [left; now rewrite E|].
  destruct (lstrip t) as [|c u]; [discriminate|]; simpl in E.
  assert (Hc : isspace c = false) by (destruct (isspace c); [discriminate|reflexivity]).
  right. simpl rev. rewrite (lstrip_app_solid (rev u) [] c Hc).
  rewrite rev_app_distr; simpl. unfold trimmed; simpl.
  rewrite Hc, rev_involutive; simpl.
  destruct (lstrip_cases (rev u)) as [E'|E'].
  - rewrite E'; simpl; now rewrite Hc.
  - now apply starts_solid_app.
Qed.

Lemma strip_blank (t : str) : forallb isspace t = true -> strip t = [].
Proof. intro H; unfold strip; now rewrite (lstrip_blank _ H). Qed.

Lemma trimmed_truthy (t : str) : trimmed t = true -> truthy t = true.
Proof. destruct t; [discriminate|reflexivity]. Qed.

Lemma trimmed_nonempty (t : str) : trimmed t = true -> t <> [].
Proof. destruct t; [discriminate|discriminate]. Qed.

Lemma trimmed_not_blank (t : str) : trimmed t = true -> forallb isspace t = false.
Proof.
  destruct t as [|c t]; [discriminate|]; unfold trimmed; simpl.
  destruct (isspace c); [discriminate|reflexivity].
Qed.

Lemma trimmed_app (a m b : str) :
  trimmed a = true -> trimmed b = true -> trimmed (a ++ m ++ b) = true.
Proof.
  unfold trimmed; intros Ha Hb.
  apply andb_prop in Ha as [Ha _]; apply andb_prop in Hb as [_ Hb].
  apply andb_true_intro; split.
  - now apply starts_solid_app.
  - rewrite !rev_app_distr, <- app_assoc. now apply starts_solid_app.
Qed.

Lemma strip_truthy_trimmed (t : str) :
  truthy (strip t) = true -> trimmed (strip t) = true.
Proof.
  destruct (strip_cases t) as [E|E]; [rewrite E; discriminate|trivial].
Qed.

(** [join] over trimmed sentences. *)
Lemma join_cons (sep p : str) (ps : list str) :
  ps <> [] -> join sep (p :: ps) = p ++ sep ++ join sep ps.
Proof. destruct ps; [congruence|reflexivity]. Qed.

Lemma join_snoc (sep s : str) (g : list str) :
  g <> [] -> join sep (g ++ [s]) = join sep g ++ sep ++ s.
Proof.
  induction g as [|p g IH]; [congruence|]; intros _.
  destruct g as [|q g]; [reflexivity|].
  change ((p :: q :: g) ++ [s]) with (p :: ((q :: g) ++ [s])).
  rewrite join_cons by (simpl; discriminate).
  rewrite IH by discriminate.
  rewrite (@join_cons sep p (q :: g)) by discriminate.
  now rewrite <- !app_assoc.
Qed.

Lemma join_trimmed (sep : str) (g : list str) :
  g <> [] -> Forall (fun s => trimmed s = true) g -> trimmed (join sep g) = true.
Proof.
  induction g as [|p g IH]; [congruence|]; intros _ H.
  inversion H as [|? ? Hp Hg]; subst.
  destruct g as [|q g]; [exact Hp|].
  rewrite join_cons by discriminate.
  apply trimmed_app; [exact Hp|]. apply IH; [discriminate|exact Hg].
Qed.

(** [sub_ws_runs] leaves no two whitespace characters in a row, and no
    line feed. *)
Lemma has_ws_run_cons (c : char) (t : str) :
  has_ws_run (c :: t) = (isspace c && negb (starts_solid t) && truthy t) || has_ws_run t.
Proof.
  destruct t as [|d t]; simpl.
  - now rewrite !andb_false_r.
  - now rewrite negb_involutive, andb_true_r.
Qed.

Lemma sub_ws_runs_solid (t : str) :
  sub_ws_runs true t = [] \/ starts_solid (sub_ws_runs true t) = true.
Proof.
  induction t as [|c t IH]; simpl; [now left|].
  destruct (isspace c) eqn:E; [exact IH|]. right; simpl; now rewrite E.
Qed.

Lemma sub_ws_runs_no_run (b : bool) (t : str) :
  has_ws_run (sub_ws_runs b t) = false.
Proof.
  revert b; induction t as [|c t IH]; intro b; simpl; [reflexivity|].
  destruct (isspace c) eqn:E.
  - destruct b; [apply IH|].
    rewrite has_ws_run_cons, IH, orb_false_r, isspace_SPACE.
    destruct (sub_ws_runs_solid t) as [H|H]; rewrite H; reflexivity.
  - rewrite has_ws_run_cons, E, IH. reflexivity.
Qed.

Lemma sub_ws_runs_no_LF (b : bool) (t : str) : ~ In LF (sub_ws_runs b t).
Proof.
  revert b; induction t as [|c t IH]; intro b; simpl; [tauto|].
  destruct (isspace c) eqn:E.
  - destruct b; [apply IH|]. intros [H|H]; [discriminate|exact (IH _ H)].
  - intros [H|H]; [|exact (IH _ H)]. subst c. discriminate.
Qed.

Lemma sub_ws_runs_blank (t : str) :
  forallb isspace t = true ->
  sub_ws_runs true t = [] /\ (sub_ws_runs false t = [] \/ sub_ws_runs false t = [SPACE]).
Proof.
  induction t as [|c t IH]; simpl; [auto|].
  destruct (isspace c); simpl; [|discriminate].
  intro H; destruct (IH H) as [IH1 _]. rewrite IH1. auto.
Qed.

Lemma has_ws_run_tail (c : char) (t : str) :
  has_ws_run (c :: t) = false -> has_ws_run t = false.
Proof.
  destruct t as [|d t]; [trivial|].
  change (has_ws_run (c :: d :: t)) with ((isspace c && isspace d) || has_ws_run (d :: t)).
  intro H. now apply orb_false_elim in H.
Qed.

Lemma has_ws_run_app_l (a b : str) :
  has_ws_run (a ++ b) = false -> has_ws_run a = false.
Proof.
  induction a as [|c a IH]; [trivial|].
  destruct a as [|d a]; [trivial|].
  change (has_ws_run ((c :: d :: a) ++ b))
    with ((isspace c && isspace d) || has_ws_run ((d :: a) ++ b)).
  change (has_ws_run (c :: d :: a))
    with ((isspace c && isspace d) || has_ws_run (d :: a)).
  intro H. apply orb_false_elim in H as [H1 H2].
  now rewrite H1, (IH H2).
Qed.

Lemma has_ws_run_app_r (a b : str) :
  has_ws_run (a ++ b) = false -> has_ws_run b = false.
Proof.
  induction a as [|c a IH]; [trivial|].
  intro H. apply IH. now apply has_ws_run_tail with c.
Qed.

Lemma lstrip_suffix (t : str) : exists pre, t = pre ++ lstrip t.
Proof.
  induction t as [|c t [pre IH]]; [now exists []|].
  simpl. destruct (isspace c); [|now exists []].
  exists (c :: pre). simpl. now f_equal.
Qed.

Lemma strip_middle (t : str) : exists pre post, t = pre ++ strip t ++ post.
Proof.
  destruct (lstrip_suffix t) as [pre Hpre].
  destruct (lstrip_suffix (rev (lstrip t))) as [post Hpost].
  exists pre, (rev post).
  unfold strip, rstrip. rewrite <- rev_app_distr, <- Hpost, rev_involutive.
  exact Hpre.
Qed.

Lemma has_ws_run_strip (t : str) :
  has_ws_run t = false -> has_ws_run (strip t) = false.
Proof.
  destruct (strip_middle t) as (pre & post & E). intro H.
  rewrite E in H.
  apply has_ws_run_app_r in H. now apply has_ws_run_app_l in H.
Qed.

(** [strip] and [sub_ws_runs] add no character but the space. *)
Lemma In_strip (c : char) (t : str) : In c (strip t) -> In c t.
Proof.
  destruct (strip_middle t) as (pre & post & E). intro H.
  rewrite E. apply in_or_app; right. apply in_or_app; now left.
Qed.

Lemma In_sub_ws_runs (c : char) (b : bool) (t : str) :
  In c (sub_ws_runs b t) -> c = SPACE \/ In c t.
Proof.
  revert b; induction t as [|a t IH]; intro b; simpl; [tauto|].
  destruct (isspace a).
  - destruct b; [intro H; destruct (IH _ H); auto|].
    intros [H|H]; [now left|destruct (IH _ H); auto].
  - intros [H|H]; [auto|destruct (IH _ H); auto].
Qed.

Lemma sub_class_same (q : char) (t : str) : sub_class [q; q; q] q t = t.
Proof.
  unfold sub_class. rewrite <- (map_id t) at 2.
  apply map_ext. intro c. unfold mem; simpl.
  destruct (N.eqb_spec c q); [now subst|reflexivity].
Qed.

End PyFacts.

(* ================================================================= *)
(** ** Facts about [TextChunker] *)

Module TextChunkerFacts.
Import Py PyFacts TextChunker.

#[local] Abbreviation solid := (fun s : str => trimmed s = true).

Section Sentences.

(** Every sentence comes out of [strip] and is not empty. *)
Lemma sentences_trimmed (t : str) : Forall solid (split_into_sentences t).
Proof.
  unfold split_into_sentences. apply Forall_forall. intros s Hs.
  apply in_map_iff in Hs as (p & <- & Hp).
  apply filter_In in Hp as [_ Hp]. now apply strip_truthy_trimmed.
Qed.

Lemma glue_empty (b : str) : glue [] b = b.
Proof. reflexivity. Qed.

Lemma glue_truthy (a b : str) : truthy a = true -> glue a b = a ++ [SPACE] ++ b.
Proof. unfold glue; now intros ->. Qed.

Lemma glue_app (o x y : str) : glue o x ++ y = glue o (x ++ y).
Proof. unfold glue; destruct (truthy o); [now rewrite <- !app_assoc|reflexivity]. Qed.

Lemma glue_trimmed (o b : str) :
  o = [] \/ trimmed o = true -> trimmed b = true -> trimmed (glue o b) = true.
Proof.
  intros [->|Ho] Hb; [exact Hb|].
  rewrite glue_truthy by now apply trimmed_truthy.
  now apply trimmed_app.
Qed.

Lemma re_split_first (t : str) (a : bool) (cur : str) :
  exists x ps, re_split_sentences a false cur t = (rev cur ++ x) :: ps.
Proof.
  revert a cur; induction t as [|c t IH]; intros a cur; simpl.
  - exists [], []. now rewrite app_nil_r.
  - rewrite andb_false_r. destruct (isspace c && a).
    + exists [], (re_split_sentences false true [] t). now rewrite app_nil_r.
    + destruct (IH (sentence_end c) (c :: cur)) as (x & ps & E).
      exists (c :: x), ps. rewrite E. simpl. now rewrite <- app_assoc.
Qed.

(** A text that starts with a solid character has a sentence. *)
Lemma sentences_of_solid (t : str) :
  starts_solid t = true -> split_into_sentences t <> [].
Proof.
  destruct t as [|c t]; [discriminate|]; simpl; intro Hc.
  assert (Hs : isspace c = false) by (destruct (isspace c); [discriminate|reflexivity]).
  unfold split_into_sentences; simpl. rewrite Hs; simpl.
  destruct (re_split_first t (sentence_end c) [c]) as (x & ps & E).
  rewrite E; simpl.
  assert (Hk : truthy (strip (c :: x)) = true).
  { unfold strip. rewrite lstrip_solid by (simpl; now rewrite Hs).
    unfold rstrip; simpl rev. rewrite (lstrip_app_solid (rev x) [] c Hs).
    rewrite rev_app_distr. reflexivity. }
  rewrite Hk. discriminate.
Qed.

End Sentences.

(** *** [_create_overlap] *)

Section Overlap.

Variable count_tokens : str -> nat.
Variable chunk_overlap : Z.

#[local] Abbreviation within_overlap :=
  (fun o : str => o = [] \/
     (trimmed o = true /\ (Z.of_nat (count_tokens o) <= chunk_overlap)%Z)).

Lemma overlap_loop_cons (s : str) (rs : list str) (acc : str) :
  overlap_loop count_tokens chunk_overlap (s :: rs) acc
  = if (Z.of_nat (count_tokens (potential_overlap s acc)) <=? chunk_overlap)%Z
    then overlap_loop count_tokens chunk_overlap rs (potential_overlap s acc)
    else acc.
Proof. reflexivity. Qed.

Lemma overlap_loop_bound (rs : list str) (acc : str) :
  Forall solid rs -> within_overlap acc ->
  within_overlap (overlap_loop count_tokens chunk_overlap rs acc).
Proof.
  revert acc; induction rs as [|s rs IH]; intros acc Hrs Hacc; [exact Hacc|].
  inversion Hrs as [|? ? Hs Hrs']; subst. rewrite overlap_loop_cons.
  destruct (Z.leb_spec (Z.of_nat (count_tokens (potential_overlap s acc)))
                       chunk_overlap) as [Hle|_]; [|exact Hacc].
  apply IH; [exact Hrs'|]. right. split; [|exact Hle].
  unfold potential_overlap.
  destruct Hacc as [->|[Hacc _]]; [exact Hs|].
  rewrite (trimmed_truthy _ Hacc). now apply trimmed_app.
Qed.

(** The loop keeps a trailing window of the sentences, in their order,
    and stops at the first sentence that does not fit. *)
Lemma overlap_loop_window (rs w : list str) :
  Forall solid rs -> Forall solid w ->
  exists k, overlap_loop count_tokens chunk_overlap rs (join [SPACE] w)
            = join [SPACE] (rev (firstn k rs) ++ w)
            /\ (k = length rs
                \/ exists s, nth_error rs k = Some s
                     /\ (chunk_overlap
                         < Z.of_nat (count_tokens
                             (join [SPACE] (s :: rev (firstn k rs) ++ w))))%Z).
Proof.
  revert w; induction rs as [|s rs IH]; intros w Hrs Hw;
    [exists 0; split; [reflexivity|now left]|].
  inversion Hrs as [|? ? Hs Hrs']; subst. rewrite overlap_loop_cons.
  assert (E : potential_overlap s (join [SPACE] w) = join [SPACE] (s :: w)).
  { unfold potential_overlap. destruct w as [|q w]; [reflexivity|].
    rewrite (trimmed_truthy _ (join_trimmed [SPACE] (g:=q :: w) ltac:(discriminate) Hw)).
    now rewrite (@join_cons [SPACE] s (q :: w)) by discriminate. }
  rewrite E.
  destruct (Z.leb_spec (Z.of_nat (count_tokens (join [SPACE] (s :: w))))
                       chunk_overlap) as [_|Hgt].
  - destruct (IH (s :: w) Hrs' (Forall_cons _ Hs Hw)) as (k & Hk & Hmax).
    exists (S k). simpl firstn. simpl rev. rewrite <- !app_assoc. split; [exact Hk|].
    destruct Hmax as [->|(s' & Hn & Hc)]; [now left|].
    right. exists s'. now split.
  - exists 0. split; [reflexivity|]. right. exists s. now split.
Qed.

Lemma create_overlap_bound (g : list str) :
  Forall solid g -> within_overlap (_create_overlap count_tokens chunk_overlap g).
Proof.
  intro Hg. destruct g as [|s g]; [now left|].
  unfold _create_overlap.
  destruct (overlap_loop_bound (rs:=rev (s :: g)) (acc:=[])) as [E|[Ht Hle]].
  - now apply Forall_rev.
  - now left.
  - left. now rewrite E.
  - right. now rewrite (strip_trimmed _ Ht).
Qed.

Lemma skipn_nth_error (A : Type) (l : list A) (k : nat) (x : A) :
  nth_error l k = Some x -> skipn k l = x :: skipn (S k) l.
Proof.
  revert k; induction l as [|a l IH]; intros [|k] H; try discriminate.
  - now injection H as ->.
  - simpl in H. exact (IH k H).
Qed.

Lemma create_overlap_window (g : list str) :
  Forall solid g ->
  exists pre w,
    g = pre ++ w
    /\ _create_overlap count_tokens chunk_overlap g = join [SPACE] w
    /\ (pre = []
        \/ exists pre' s, pre = pre' ++ [s]
             /\ (chunk_overlap < Z.of_nat (count_tokens (join [SPACE] (s :: w))))%Z).
Proof.
  intro Hg. destruct g as [|s g]; [exists [], []; auto|].
  unfold _create_overlap.
  destruct (overlap_loop_window (rs:=rev (s :: g)) (w:=[])) as (k & Hk & Hmax);
    [now apply Forall_rev|constructor|].
  change (join [SPACE] []) with (@nil char) in Hk.
  rewrite app_nil_r in Hk. rewrite Hk.
  set (rs := rev (s :: g)) in *.
  exists (rev (skipn k rs)), (rev (firstn k rs)).
  split; [|split].
  - rewrite <- rev_app_distr, firstn_skipn. unfold rs. now rewrite rev_involutive.
  - destruct (rev (firstn k rs)) as [|q w] eqn:Ew; [reflexivity|].
    apply strip_trimmed, join_trimmed; [discriminate|].
    rewrite <- Ew. apply Forall_rev.
    apply Forall_forall. intros x Hx.
    assert (Hrs : Forall solid rs) by now apply Forall_rev.
    apply (proj1 (Forall_forall _ _) Hrs).
    rewrite <- (firstn_skipn k rs). apply in_or_app. now left.
  - destruct Hmax as [->|(s' & Hn & Hc)].
    + left. now rewrite skipn_all.
    + right. exists (rev (skipn (S k) rs)), s'.
      rewrite app_nil_r in Hc. split; [|exact Hc].
      now rewrite (skipn_nth_error _ _ Hn).
Qed.

(** With no overlap budget and a tokenizer that gives every sentence at
    least one token, nothing is carried over. *)
Lemma create_overlap_none (g : list str) :
  Forall solid g -> (chunk_overlap <= 0)%Z ->
  (forall t, trimmed t = true -> 0 < count_tokens t) ->
  _create_overlap count_tokens chunk_overlap g = [].
Proof.
  intros Hg Hz Hpos. destruct g as [|s g]; [reflexivity|].
  unfold _create_overlap. apply Forall_rev in Hg.
  destruct (rev (s :: g)) as [|r rs]; [reflexivity|].
  inversion Hg as [|? ? Hr _]; subst. rewrite overlap_loop_cons.
  specialize (Hpos r Hr). change (potential_overlap r []) with r.
  destruct (Z.leb_spec (Z.of_nat (count_tokens r)) chunk_overlap); [lia|reflexivity].
Qed.

End Overlap.

(** *** The loop of [create_chunks] *)

Section Run.

Variables isalnum isdecimal : char -> bool.
Variable count_tokens : str -> nat.
Variables chunk_size chunk_overlap : Z.
Variable SourceInfo : Type.
Variable source_info : SourceInfo.

#[local] Abbreviation step' := (step count_tokens chunk_size chunk_overlap source_info).
#[local] Abbreviation log_step' :=
  (log_step count_tokens chunk_size chunk_overlap source_info).
#[local] Abbreviation inv :=
  (loop_inv count_tokens chunk_size chunk_overlap source_info).
#[local] Abbreviation before := (overlap_before count_tokens chunk_overlap).
#[local] Abbreviation ok :=
  (chunks_ok count_tokens chunk_size chunk_overlap source_info).
#[local] Abbreviation chunks_of :=
  (fun text => create_chunks isalnum isdecimal count_tokens chunk_size
                             chunk_overlap text source_info).
#[local] Abbreviation consumed_of :=
  (fun text => consumed_sentences isalnum isdecimal count_tokens chunk_size
                                  chunk_overlap text source_info).

(** Logging does not change the run. *)
Lemma fold_log_step_fst (l : list str) (st : state SourceInfo)
      (log : list (list str)) :
  fst (fold_left log_step' l (st, log)) = fold_left step' l st.
Proof.
  revert st log; induction l as [|s l IH]; intros st log; [reflexivity|].
  simpl. apply IH.
Qed.

Lemma overlap_before_app (log : list (list str)) (x : list str) (i : nat) :
  i <= length log -> before (log ++ [x]) i = before log i.
Proof.
  destruct i as [|j]; [reflexivity|]; intro H; simpl.
  now rewrite nth_error_app1 by lia.
Qed.

Lemma overlap_before_solid (log : list (list str)) (i : nat) :
  groups_ok log -> before log i = [] \/ trimmed (before log i) = true.
Proof.
  intro Hg. destruct i as [|j]; [now left|]; simpl.
  destruct (nth_error log j) as [g|] eqn:E; [|now left].
  apply nth_error_In in E.
  destruct (proj1 (Forall_forall _ _) Hg g E) as [_ Hs].
  destruct (create_overlap_bound count_tokens chunk_overlap Hs) as [H|[H _]]; auto.
Qed.

Lemma current_chunk_solid (done : list str) (st : state SourceInfo)
      (log : list (list str)) :
  inv done st log -> current_sentences st <> [] ->
  trimmed (current_chunk st) = true.
Proof.
  intros (_ & Hg & Hcur & _ & Hcc & _) Hne. rewrite Hcc.
  destruct (current_sentences st) as [|q cs]; [congruence|].
  apply glue_trimmed; [now apply overlap_before_solid|].
  apply join_trimmed; [discriminate|exact Hcur].
Qed.

(** What [chunks.append] adds is a chunk made of [current_sentences]. *)
Lemma append_ok (done : list str) (st : state SourceInfo)
      (log : list (list str)) :
  inv done st log -> current_sentences st <> [] ->
  ok (append_chunk count_tokens source_info st) (log ++ [current_sentences st])
  /\ groups_ok (log ++ [current_sentences st]).
Proof.
  intros Hinv Hne. pose proof (current_chunk_solid Hinv Hne) as Hsolid.
  destruct Hinv as ((Hlen & Hcs) & Hg & Hcur & Hdone & Hcc & Hbud & Hinit).
  split.
  - split; unfold append_chunk.
    + rewrite !length_app. simpl. lia.
    + intros i c Hi.
      destruct (Nat.lt_ge_cases i (length (chunks st))) as [Hlt|Hge].
      * rewrite nth_error_app1 in Hi by exact Hlt.
        destruct (Hcs i c Hi) as (g & Hg1 & Hg2).
        exists g. split; [now rewrite nth_error_app1 by lia|].
        unfold chunk_made_of in *. now rewrite overlap_before_app by lia.
      * rewrite nth_error_app2 in Hi by exact Hge.
        destruct (i - length (chunks st)) as [|n] eqn:Ei;
          [|destruct n; discriminate].
        simpl in Hi. injection Hi as <-.
        assert (Ei' : i = length log) by lia. subst i.
        exists (current_sentences st). split.
        -- now rewrite nth_error_app2, Nat.sub_diag by lia.
        -- unfold chunk_made_of; simpl.
           rewrite (strip_trimmed _ Hsolid), overlap_before_app by lia.
           split; [|repeat split; [now symmetry|exact Hbud]].
           rewrite Hcc. destruct (current_sentences st); [congruence|reflexivity].
  - apply Forall_app. split; [exact Hg|].
    constructor; [now split|constructor].
Qed.

(** One iteration keeps the invariant. *)
Lemma step_inv (done : list str) (st : state SourceInfo)
      (log : list (list str)) (s : str) :
  inv done st log -> trimmed s = true ->
  inv (done ++ [s]) (fst (log_step' (st, log) s)) (snd (log_step' (st, log) s)).
Proof.
  intros Hinv Hs. unfold log_step, step; simpl.
  destruct (exceeds count_tokens chunk_size st s) eqn:Ex.
  - assert (Hne : current_sentences st <> []).
    { unfold exceeds in Ex. apply andb_prop in Ex as [_ Ht].
      destruct Hinv as (_ & _ & _ & _ & Hcc & _).
      intro E. rewrite E in Hcc. rewrite Hcc in Ht. discriminate. }
    destruct (append_ok Hinv Hne) as [Hok Hg'].
    destruct Hinv as (Hok0 & Hg & Hcur & Hdone & Hcc & Hbud & Hinit).
    split; [exact Hok|]. split; [exact Hg'|].
    split; [constructor; [exact Hs|constructor]|]. simpl.
    split; [rewrite concat_app; simpl; now rewrite app_nil_r, Hdone|].
    split; [|split; [lia|discriminate]].
    rewrite length_app, Nat.add_1_r. simpl.
    now rewrite nth_error_app2, Nat.sub_diag by lia.
  - pose proof (current_chunk_solid Hinv) as Hsolid.
    destruct Hinv as (Hok0 & Hg & Hcur & Hdone & Hcc & Hbud & Hinit).
    split; [exact Hok0|]. split; [exact Hg|]. simpl.
    split; [apply Forall_app; split; [exact Hcur|constructor; [exact Hs|constructor]]|].
    split; [now rewrite app_assoc, Hdone|].
    split; [|split].
    + unfold potential_chunk.
      destruct (current_sentences st) as [|q cs] eqn:Ecs.
      * rewrite Hcc. destruct (Hinit eq_refl) as [-> _]. reflexivity.
      * rewrite glue_truthy
          by (apply trimmed_truthy, Hsolid; discriminate).
        rewrite Hcc. simpl app at 3.
        rewrite glue_app. f_equal. symmetry.
        apply (@join_snoc [SPACE] s (q :: cs)). discriminate.
    + intro H2. rewrite length_app in H2; simpl in H2.
      assert (Hne : current_sentences st <> [])
        by (destruct (current_sentences st); simpl in *; [lia|discriminate]).
      unfold exceeds in Ex.
      rewrite (trimmed_truthy _ (Hsolid Hne)), andb_true_r in Ex.
      unfold potential_chunk in *. rewrite Z.gtb_ltb in Ex.
      now apply Z.ltb_ge in Ex.
    + intro E. destruct (current_sentences st); discriminate.
Qed.

Lemma run_inv (l : list str) :
  Forall solid l ->
  forall done st log, inv done st log ->
    inv (done ++ l) (fst (fold_left log_step' l (st, log)))
        (snd (fold_left log_step' l (st, log))).
Proof.
  induction 1 as [|s l Hs Hl IH]; intros done st log Hinv.
  - now rewrite app_nil_r.
  - change (fold_left log_step' (s :: l) (st, log))
      with (fold_left log_step' l (log_step' (st, log) s)).
    replace (done ++ s :: l) with ((done ++ [s]) ++ l)
      by now rewrite <- app_assoc.
    rewrite (surjective_pairing (log_step' (st, log) s)).
    apply IH. now apply step_inv.
Qed.

Lemma init_inv : inv [] (init SourceInfo) [].
Proof.
  split; [split; [reflexivity|intros [|i] c H; discriminate]|].
  split; [constructor|]. split; [constructor|].
  split; [reflexivity|]. split; [reflexivity|].
  split; [simpl; lia|now split].
Qed.

(** The chunks [create_chunks] returns and the sentences they consumed. *)
Lemma run_spec (text : str) :
  ok (chunks_of text) (consumed_of text)
  /\ groups_ok (consumed_of text)
  /\ concat (consumed_of text)
     = split_into_sentences (clean_text isalnum isdecimal text).
Proof.
  unfold create_chunks, consumed_sentences; cbv zeta.
  set (ss := split_into_sentences (clean_text isalnum isdecimal text)).
  pose proof (run_inv (sentences_trimmed (clean_text isalnum isdecimal text))
                      init_inv) as H.
  fold ss in H. simpl app in H.
  rewrite <- (fold_log_step_fst ss (init SourceInfo) []).
  destruct (fold_left log_step' ss (init SourceInfo, [])) as [st log].
  simpl fst in *; simpl snd in *.
  destruct (truthy (strip (current_chunk st))) eqn:Et.
  - assert (Hne : current_sentences st <> []).
    { destruct H as (_ & _ & _ & _ & Hcc & _).
      intro E. rewrite E in Hcc. rewrite Hcc in Et. discriminate. }
    destruct (append_ok H Hne) as [Hok Hg]. split; [exact Hok|].
    split; [exact Hg|]. rewrite concat_app; simpl. rewrite app_nil_r.
    now destruct H as (_ & _ & _ & Hdone & _).
  - assert (E : current_sentences st = []).
    { destruct (current_sentences st) as [|q cs] eqn:E0; [reflexivity|].
      assert (Hs : trimmed (current_chunk st) = true)
        by (apply (current_chunk_solid H); rewrite E0; discriminate).
      rewrite (strip_trimmed _ Hs), (trimmed_truthy _ Hs) in Et. discriminate. }
    destruct H as (Hok & Hg & _ & Hdone & _).
    rewrite E, app_nil_r in Hdone. auto.
Qed.

Lemma chunk_group (text : str) (i : nat) (c : Chunk SourceInfo) :
  nth_error (chunks_of text) i = Some c ->
  exists g, nth_error (consumed_of text) i = Some g
            /\ g <> [] /\ Forall solid g
            /\ chunk_made_of count_tokens chunk_size chunk_overlap source_info
                             (consumed_of text) i c g.
Proof.
  intro Hc. destruct (run_spec text) as ((_ & Hok) & Hg & _).
  destruct (Hok i c Hc) as (g & Hn & Hm). exists g.
  destruct (proj1 (Forall_forall _ _) Hg g (nth_error_In _ _ Hn)) as [Hne Hs].
  auto.
Qed.

Lemma chunk_text_solid (text : str) (i : nat) (c : Chunk SourceInfo) :
  nth_error (chunks_of text) i = Some c -> trimmed (TextChunker.text c) = true.
Proof.
  intro Hc. destruct (chunk_group _ _ Hc) as (g & _ & Hne & Hs & (Ht & _)).
  rewrite Ht. apply glue_trimmed.
  - apply overlap_before_solid. now destruct (run_spec text) as (_ & Hg & _).
  - now apply join_trimmed.
Qed.

Lemma clean_text_cases (text : str) :
  clean_text isalnum isdecimal text = []
  \/ trimmed (clean_text isalnum isdecimal text) = true.
Proof. unfold clean_text. apply strip_cases. Qed.

Lemma clean_text_blank (text : str) :
  forallb isspace text = true -> clean_text isalnum isdecimal text = [].
Proof.
  intro H. unfold clean_text.
  destruct (sub_ws_runs_blank text H) as [_ [E|E]]; rewrite E; [reflexivity|].
  unfold sub_page_number; simpl take_while; simpl drop_while.
  destruct (isdecimal SPACE); simpl; [reflexivity|].
  unfold kept. rewrite isspace_SPACE, orb_true_r. reflexivity.
Qed.

(** *** The claims *)

(** C1, as amended: every chunk that consumed two or more sentences
    stays within [chunk_size] tokens.  The only chunks outside this bound
    are those that consumed a single sentence: that sentence alone, or the
    overlap text carried over from the previous chunk, a space, and that
    sentence. *)
Theorem chunk_budget_or_single_sentence
        (text : str) (i : nat) (c : Chunk SourceInfo) (g : list str) :
  nth_error (chunks_of text) i = Some c ->
  nth_error (consumed_of text) i = Some g ->
  (Z.of_nat (token_count c) <= chunk_size)%Z
  \/ exists s, g = [s]
       /\ TextChunker.text c = glue (before (consumed_of text) i) s.
Proof.
  intros Hc Hg.
  destruct (chunk_group _ _ Hc) as (g' & Hg' & Hne & _ & (Ht & _ & _ & _ & Hb)).
  rewrite Hg in Hg'. injection Hg' as <-.
  destruct g as [|s [|s' g]]; [congruence| |].
  - right. exists s. now split.
  - left. apply Hb. simpl. lia.
Qed.

(** C2: the sentences the chunks consumed, concatenated in chunk order,
    are the sentences of the normalized input, each exactly once and in
    order; there is one group per chunk, and a chunk's text is its group
    joined by spaces, after the overlap text carried over if any. *)
Theorem consumed_sentences_reconstruct (text : str) :
  length (consumed_of text) = length (chunks_of text)
  /\ concat (consumed_of text)
     = split_into_sentences (clean_text isalnum isdecimal text)
  /\ forall i c, nth_error (chunks_of text) i = Some c ->
       exists g, nth_error (consumed_of text) i = Some g
                 /\ g <> []
                 /\ TextChunker.text c
                    = glue (before (consumed_of text) i) (join [SPACE] g).
Proof.
  destruct (run_spec text) as ((Hlen & _) & _ & Hcat).
  split; [exact Hlen|]. split; [exact Hcat|].
  intros i c Hc.
  destruct (chunk_group _ _ Hc) as (g & Hg & Hne & _ & (Ht & _)).
  exists g. auto.
Qed.

(** C3: chunk [i+1] starts with the overlap text [_create_overlap] makes
    of the sentences chunk [i] consumed; that text is empty or counts at
    most [chunk_overlap] tokens (at most [chunk_overlap] in both cases
    when [chunk_overlap >= 0] and the empty string has no token); it is a
    trailing window of those sentences, in order, cut at the first
    sentence (from the end) that does not fit; and with
    [chunk_overlap = 0] it is empty, the tokenizer giving every sentence
    at least one token. *)
Theorem overlap_within_budget
        (text : str) (i : nat) (g : list str) (c' : Chunk SourceInfo) :
  nth_error (consumed_of text) i = Some g ->
  nth_error (chunks_of text) (S i) = Some c' ->
  let o := _create_overlap count_tokens chunk_overlap g in
  (exists g', nth_error (consumed_of text) (S i) = Some g'
              /\ TextChunker.text c' = glue o (join [SPACE] g'))
  /\ (o = [] \/ (Z.of_nat (count_tokens o) <= chunk_overlap)%Z)
  /\ ((0 <= chunk_overlap)%Z -> count_tokens [] = 0 ->
      (Z.of_nat (count_tokens o) <= chunk_overlap)%Z)
  /\ (exists pre w,
        g = pre ++ w /\ o = join [SPACE] w
        /\ (pre = []
            \/ exists pre' s, pre = pre' ++ [s]
                 /\ (chunk_overlap
                     < Z.of_nat (count_tokens (join [SPACE] (s :: w))))%Z))
  /\ (chunk_overlap = 0%Z ->
      (forall t, trimmed t = true -> 0 < count_tokens t) -> o = []).
Proof.
  intros Hg Hc o.
  assert (Hs : Forall solid g).
  { destruct (run_spec text) as (_ & Hgr & _).
    exact (proj2 (proj1 (Forall_forall _ _) Hgr g (nth_error_In _ _ Hg))). }
  split; [|split; [|split; [|split]]].
  - destruct (chunk_group _ _ Hc) as (g' & Hg' & _ & _ & (Ht & _)).
    exists g'. split; [exact Hg'|].
    rewrite Ht. simpl overlap_before. now rewrite Hg.
  - destruct (create_overlap_bound count_tokens chunk_overlap Hs) as [E|[_ E]]; auto.
  - intros Hz H0.
    destruct (create_overlap_bound count_tokens chunk_overlap Hs) as [E|[_ E]];
      [|exact E].
    fold o in E. rewrite E, H0. exact Hz.
  - exact (create_overlap_window count_tokens chunk_overlap Hs).
  - intros Hz Hpos. apply create_overlap_none; [exact Hs|lia|exact Hpos].
Qed.

(** C4: when the normalized text is one sentence and that sentence alone
    exceeds [chunk_size], the result is exactly one chunk: the sentence,
    whole, with its own token count. *)
Theorem single_oversized_sentence (text s : str) :
  split_into_sentences (clean_text isalnum isdecimal text) = [s] ->
  (chunk_size < Z.of_nat (count_tokens s))%Z ->
  chunks_of text = [mkChunk s (count_tokens s) source_info 0].
Proof.
  intros Hs _. unfold create_chunks; cbv zeta. rewrite Hs.
  pose proof (sentences_trimmed (clean_text isalnum isdecimal text)) as Ht.
  rewrite Hs in Ht. inversion Ht as [|? ? Hsolid _]; subst.
  simpl fold_left. unfold step, exceeds. simpl truthy. rewrite andb_false_r.
  simpl current_chunk. unfold potential_chunk. simpl current_chunk.
  rewrite glue_empty, (strip_trimmed _ Hsolid), (trimmed_truthy _ Hsolid).
  unfold append_chunk; simpl. now rewrite (strip_trimmed _ Hsolid).
Qed.

(** C5: the [token_count] a chunk stores is the token count of the [text]
    it stores, and that text is the accumulated string with nothing left
    to trim. *)
Theorem token_count_matches_text (text : str) :
  Forall (fun c => token_count c = count_tokens (TextChunker.text c)
                   /\ strip (TextChunker.text c) = TextChunker.text c)
         (chunks_of text).
Proof.
  apply Forall_forall. intros c Hin.
  apply In_nth_error in Hin as [i Hc].
  destruct (chunk_group _ _ Hc) as (g & _ & _ & _ & (_ & Htok & _)).
  split; [exact Htok|]. apply strip_trimmed. exact (chunk_text_solid _ _ Hc).
Qed.

(** C6: no chunk comes out exactly when the normalized text has no
    sentence, which is exactly when the normalized text is empty; an
    empty or all-whitespace input is such a text. *)
Theorem empty_iff_no_sentence (text : str) :
  (chunks_of text = []
   <-> split_into_sentences (clean_text isalnum isdecimal text) = [])
  /\ (split_into_sentences (clean_text isalnum isdecimal text) = []
      <-> clean_text isalnum isdecimal text = [])
  /\ (forallb isspace text = true -> chunks_of text = []).
Proof.
  destruct (run_spec text) as ((Hlen & _) & Hg & Hcat).
  assert (H1 : chunks_of text = []
               <-> split_into_sentences (clean_text isalnum isdecimal text) = []).
  { rewrite <- Hcat. split; intro H.
    - rewrite H in Hlen. apply length_zero_iff_nil in Hlen. now rewrite Hlen.
    - apply length_zero_iff_nil. rewrite <- Hlen.
      destruct (consumed_of text) as [|g log]; [reflexivity|].
      inversion Hg as [|? ? [Hne _] _]; subst.
      simpl in H. apply app_eq_nil in H as [H _]. congruence. }
  assert (H2 : split_into_sentences (clean_text isalnum isdecimal text) = []
               <-> clean_text isalnum isdecimal text = []).
  { split; intro H.
    - destruct (clean_text_cases text) as [E|E]; [exact E|].
      apply andb_prop in E as [E _].
      now destruct (sentences_of_solid _ E).
    - now rewrite H. }
  split; [exact H1|]. split; [exact H2|].
  intro Hb. apply H1, H2. now apply clean_text_blank.
Qed.

(** Whitespace is collapsed in the first step only.  When every character
    of the input is one the third step keeps (a word character,
    whitespace, or one of the nine punctuation marks), the output holds
    no two whitespace characters in a row. *)
Lemma no_whitespace_run_when_all_kept (text : str) :
  forallb (kept isalnum) text = true ->
  has_ws_run (clean_text isalnum isdecimal text) = false.
Proof.
  intro Hk. unfold clean_text.
  assert (Hk' : forall b, forallb (kept isalnum) (sub_ws_runs b text) = true).
  { clear -Hk. induction text as [|c t IH]; intro b; [reflexivity|].
    simpl in Hk. apply andb_prop in Hk as [Hc Ht]. simpl.
    destruct (isspace c); [destruct b|]; simpl; rewrite ?Hc, ?IH; auto.
    unfold kept. now rewrite isspace_SPACE, orb_true_r. }
  assert (Hid : forall l, forallb (kept isalnum) l = true ->
                  map (fun c => if kept isalnum c then c else SPACE) l = l).
  { clear. induction l as [|c l IH]; [reflexivity|]. simpl. intro H.
    apply andb_prop in H as [Hc Hl]. now rewrite Hc, IH. }
  apply has_ws_run_strip. rewrite !sub_class_same.
  unfold sub_page_number.
  destruct (truthy _ && forallb _ _); [reflexivity|].
  rewrite Hid by apply Hk'. apply sub_ws_runs_no_run.
Qed.

(** C10: every chunk has a text that is not empty and not made of
    whitespace only. *)
Theorem chunk_text_not_blank (text : str) :
  Forall (fun c => TextChunker.text c <> []
                   /\ forallb isspace (TextChunker.text c) = false)
         (chunks_of text).
Proof.
  apply Forall_forall. intros c Hin.
  apply In_nth_error in Hin as [i Hc].
  pose proof (chunk_text_solid _ _ Hc) as Hs.
  split; [now apply trimmed_nonempty|now apply trimmed_not_blank].
Qed.

End Run.

(** *** The claims on a concrete run

    The text is [Hello world. Hello world.], two sentences of three toy
    tokens each: the two words and the full stop. *)

Section Examples.

#[local] Abbreviation hello := (lit "Hello world.").
#[local] Abbreviation hello2 := (lit "Hello world. Hello world.").
#[local] Abbreviation toy_chunks :=
  (fun size overlap text =>
     create_chunks ascii_isalnum ascii_isdecimal toy_tokens size overlap text tt).
#[local] Abbreviation toy_consumed :=
  (fun size overlap text =>
     consumed_sentences ascii_isalnum ascii_isdecimal toy_tokens size overlap text tt).

Example toy_run :
  toy_chunks 5%Z 3%Z hello2 = [mkChunk hello 3 tt 0; mkChunk hello2 6 tt 1]
  /\ toy_consumed 5%Z 3%Z hello2 = [[hello]; [hello]].
Proof. split; reflexivity. Qed.

Lemma toy_tokens_positive (t : str) : trimmed t = true -> 0 < toy_tokens t.
Proof.
  destruct t as [|c t]; [discriminate|]. unfold trimmed; simpl.
  intro H. apply andb_prop in H as [H _].
  unfold toy_tokens; simpl.
  destruct (ascii_isalnum c); [lia|].
  destruct (isspace c); [discriminate|lia].
Qed.

(** C1 as the specification states it fails: with [chunk_size = 5] and
    [chunk_overlap = 3], the second chunk is the overlap text and one new
    sentence, six tokens in all, although no sentence has more than three
    tokens. *)
Lemma chunk_budget_counterexample :
  ~ (forall c,
        In c (toy_chunks 5%Z 3%Z hello2) ->
        (Z.of_nat (token_count c) <= 5)%Z
        \/ exists s,
             In s (split_into_sentences
                     (clean_text ascii_isalnum ascii_isdecimal hello2))
             /\ TextChunker.text c = s
             /\ (5 < Z.of_nat (toy_tokens s))%Z).
Proof.
  intro H.
  destruct (H (mkChunk hello2 6 tt 1)) as [Hle|(s & Hin & _ & Hgt)].
  - right; left; reflexivity.
  - vm_compute in Hle. now apply Hle.
  - assert (Hs : s = hello).
    { vm_compute in Hin. destruct Hin as [<-|[<-|[]]]; reflexivity. }
    subst s. vm_compute in Hgt. discriminate.
Qed.

Lemma chunk_budget_or_single_sentence_witness :
  nth_error (toy_chunks 5%Z 3%Z hello2) 1 = Some (mkChunk hello2 6 tt 1)
  /\ nth_error (toy_consumed 5%Z 3%Z hello2) 1 = Some [hello]
  /\ ((Z.of_nat 6 <= 5)%Z
      \/ exists s, [hello] = [s]
           /\ hello2 = glue (overlap_before toy_tokens 3%Z
                               (toy_consumed 5%Z 3%Z hello2) 1) s).
Proof.
  split; [reflexivity|]. split; [reflexivity|].
  exact (@chunk_budget_or_single_sentence ascii_isalnum ascii_isdecimal
           toy_tokens 5%Z 3%Z unit tt hello2 1 (mkChunk hello2 6 tt 1) [hello]
           eq_refl eq_refl).
Defined.

Lemma consumed_sentences_reconstruct_witness :
  concat (toy_consumed 5%Z 3%Z hello2) = [hello; hello]
  /\ exists g, nth_error (toy_consumed 5%Z 3%Z hello2) 1 = Some g
               /\ g <> []
               /\ hello2 = glue (overlap_before toy_tokens 3%Z
                                   (toy_consumed 5%Z 3%Z hello2) 1)
                                (join [SPACE] g).
Proof.
  split.
  - exact (proj1 (proj2 (@consumed_sentences_reconstruct ascii_isalnum
             ascii_isdecimal toy_tokens 5%Z 3%Z unit tt hello2))).
  - exact (proj2 (proj2 (@consumed_sentences_reconstruct ascii_isalnum
             ascii_isdecimal toy_tokens 5%Z 3%Z unit tt hello2))
             1 (mkChunk hello2 6 tt 1) eq_refl).
Defined.

Lemma overlap_within_budget_witness :
  (nth_error (toy_consumed 5%Z 3%Z hello2) 0 = Some [hello]
   /\ nth_error (toy_chunks 5%Z 3%Z hello2) 1 = Some (mkChunk hello2 6 tt 1)
   /\ _create_overlap toy_tokens 3%Z [hello] = hello
   /\ (Z.of_nat (toy_tokens hello) <= 3)%Z)
  /\ (nth_error (toy_chunks 5%Z 0%Z hello2) 1 = Some (mkChunk hello 3 tt 1)
      /\ _create_overlap toy_tokens 0%Z [hello] = []).
Proof.
  split.
  - split; [reflexivity|]. split; [reflexivity|]. split; [reflexivity|].
    exact (proj1 (proj2 (proj2 (@overlap_within_budget ascii_isalnum
             ascii_isdecimal toy_tokens 5%Z 3%Z unit tt hello2 0 [hello]
             (mkChunk hello2 6 tt 1) eq_refl eq_refl)))
             ltac:(discriminate) eq_refl).
  - split; [reflexivity|].
    exact (proj2 (proj2 (proj2 (proj2 (@overlap_within_budget ascii_isalnum
             ascii_isdecimal toy_tokens 5%Z 0%Z unit tt hello2 0 [hello]
             (mkChunk hello 3 tt 1) eq_refl eq_refl))))
             eq_refl toy_tokens_positive).
Defined.

Lemma single_oversized_sentence_witness :
  split_into_sentences (clean_text ascii_isalnum ascii_isdecimal hello) = [hello]
  /\ (2 < Z.of_nat (toy_tokens hello))%Z
  /\ toy_chunks 2%Z 0%Z hello = [mkChunk hello 3 tt 0].
Proof.
  split; [reflexivity|]. split; [reflexivity|].
  exact (@single_oversized_sentence ascii_isalnum ascii_isdecimal toy_tokens
           2%Z 0%Z unit tt hello hello eq_refl eq_refl).
Defined.

Lemma empty_iff_no_sentence_witness :
  forallb isspace (lit "   ") = true /\ toy_chunks 5%Z 3%Z (lit "   ") = [].
Proof.
  split; [reflexivity|].
  exact (proj2 (proj2 (@empty_iff_no_sentence ascii_isalnum ascii_isdecimal
           toy_tokens 5%Z 3%Z unit tt (lit "   "))) eq_refl).
Defined.

(** C7 fails on the code: the third substitution has already turned
    every curly quote into a space when the two quote substitutions run,
    and their classes hold the straight quotes only.  Whatever the
    character database, [clean_text] puts no character in its output that
    the input does not hold, the space apart, so a text with curly quotes
    and no straight ones comes out without a straight quote; a
    curly-quoted [it's] comes out as [it s]. *)
Theorem curly_quotes_are_blanked :
  (forall isalnum isdecimal text c,
      In c (clean_text isalnum isdecimal text) -> c = SPACE \/ In c text)
  /\ clean_text ascii_isalnum ascii_isdecimal
                ([8220%N] ++ lit "it" ++ [8217%N] ++ lit "s" ++ [8221%N])
     = lit "it s".
Proof.
  split; [|reflexivity].
  intros isalnum isdecimal text c H. unfold clean_text in H.
  apply In_strip in H. rewrite !sub_class_same in H.
  apply in_map_iff in H as (x & Hx & Hin).
  assert (Hin' : In x (sub_ws_runs false text)).
  { unfold sub_page_number in Hin.
    destruct (truthy _ && forallb _ _); [destruct Hin|exact Hin]. }
  destruct (kept isalnum x); [|now left].
  subst x. exact (In_sub_ws_runs _ _ _ Hin').
Qed.

Lemma curly_quotes_are_blanked_witness :
  ~ In 34%N (clean_text ascii_isalnum ascii_isdecimal
               ([8220%N] ++ lit "it" ++ [8217%N] ++ lit "s" ++ [8221%N])).
Proof.
  intro H.
  destruct (proj1 curly_quotes_are_blanked _ _ _ _ H) as [E|E].
  - discriminate E.
  - simpl in E. repeat (destruct E as [E|E]; [discriminate E|]). exact E.
Defined.

(** A text without whitespace goes through the first substitution
    unchanged. *)
Lemma sub_ws_runs_no_blank (t : str) :
  forallb (fun c => negb (isspace c)) t = true -> sub_ws_runs false t = t.
Proof.
  induction t as [|c t IH]; [reflexivity|]. simpl. intro H.
  apply andb_prop in H as [Hc Ht].
  destruct (isspace c); [discriminate|]. now rewrite IH.
Qed.

Lemma drop_while_keeps (p : char -> bool) (a b : str) (x : char) :
  p x = false -> In x (drop_while p (a ++ x :: b)).
Proof.
  intro Hx. induction a as [|c a IH]; simpl.
  - rewrite Hx. now left.
  - destruct (p c); [exact IH|]. right. apply in_or_app. right. now left.
Qed.

Lemma blank_dropped_kept (isalnum : char -> bool) (t : str) :
  forallb (kept isalnum) t = true ->
  map (fun c => if kept isalnum c then c else SPACE) t = t.
Proof.
  induction t as [|c t IH]; [reflexivity|]. simpl. intro H.
  apply andb_prop in H as [Hc Ht]. now rewrite Hc, IH.
Qed.

Lemma solid_word_trimmed (isalnum : char -> bool) (u : str) :
  u <> [] ->
  forallb (fun c => kept isalnum c && negb (isspace c)) u = true ->
  trimmed u = true
  /\ forallb (kept isalnum) u = true
  /\ forallb (fun c => negb (isspace c)) u = true.
Proof.
  intros Hne H.
  assert (Hall : forall c, In c u -> kept isalnum c = true /\ isspace c = false).
  { intros c Hc. rewrite forallb_forall in H. specialize (H c Hc).
    apply andb_prop in H as [H1 H2]. split; [exact H1|].
    now destruct (isspace c). }
  split; [|split].
  - unfold trimmed. apply andb_true_intro. split.
    + destruct u as [|c u]; [congruence|]. simpl.
      now rewrite (proj2 (Hall c (or_introl eq_refl))).
    + destruct (rev u) as [|c r] eqn:E.
      * apply (f_equal (@rev char)) in E. rewrite rev_involutive in E.
        simpl in E. congruence.
      * simpl. assert (Hc : In c u) by (apply in_rev; rewrite E; now left).
        now rewrite (proj2 (Hall c Hc)).
  - apply forallb_forall. intros c Hc. exact (proj1 (Hall c Hc)).
  - apply forallb_forall. intros c Hc. now rewrite (proj2 (Hall c Hc)).
Qed.

Lemma has_ws_run_middle (a b : str) :
  has_ws_run (a ++ [SPACE; SPACE] ++ b) = true.
Proof.
  destruct (has_ws_run (a ++ [SPACE; SPACE] ++ b)) eqn:E; [reflexivity|].
  apply has_ws_run_app_r in E.
  change (([SPACE; SPACE] ++ b)%list) with (SPACE :: SPACE :: b) in E.
  rewrite has_ws_run_cons in E.
  apply orb_false_elim in E as [E _]. discriminate E.
Qed.

(** C8 fails on the code: whitespace is collapsed by the first
    substitution only, the one under the comment [Remove excessive
    whitespace]; the third substitution then puts a space in place of
    every character outside its class, and nothing collapses whitespace
    after it, [strip] trimming the two ends only.  Whatever the character
    database, two adjacent characters outside the class, standing between
    two words of kept characters, come out as two spaces in a row; [a@@b]
    comes out as [a], two spaces, [b]. *)
Theorem dropped_characters_leave_whitespace_run :
  (forall isalnum isdecimal u v x y,
      u <> [] -> v <> [] ->
      forallb (fun c => kept isalnum c && negb (isspace c)) u = true ->
      forallb (fun c => kept isalnum c && negb (isspace c)) v = true ->
      kept isalnum x = false -> kept isalnum y = false ->
      isdecimal x = false ->
      clean_text isalnum isdecimal (u ++ [x; y] ++ v)
      = u ++ [SPACE; SPACE] ++ v
      /\ has_ws_run (clean_text isalnum isdecimal (u ++ [x; y] ++ v)) = true)
  /\ clean_text ascii_isalnum ascii_isdecimal (lit "a@@b") = lit "a  b"
  /\ has_ws_run (clean_text ascii_isalnum ascii_isdecimal (lit "a@@b")) = true.
Proof.
  split; [|split; reflexivity].
  intros isalnum isdecimal u v x y Hu Hv Ku Kv Kx Ky Dx.
  destruct (solid_word_trimmed isalnum Hu Ku) as (Tu & Au & Su).
  destruct (solid_word_trimmed isalnum Hv Kv) as (Tv & Av & Sv).
  assert (Sx : forall c, kept isalnum c = false -> isspace c = false).
  { intros c Hc. unfold kept in Hc.
    apply orb_false_elim in Hc as [Hc _].
    now apply orb_false_elim in Hc as [_ Hc]. }
  assert (E : clean_text isalnum isdecimal (u ++ [x; y] ++ v)
              = u ++ [SPACE; SPACE] ++ v).
  { unfold clean_text. rewrite !sub_class_same.
    rewrite sub_ws_runs_no_blank.
    2:{ rewrite !forallb_app, Su, Sv. simpl.
        now rewrite (Sx x Kx), (Sx y Ky). }
    unfold sub_page_number.
    assert (Hd : forallb isspace (drop_while isdecimal (u ++ [x; y] ++ v))
                 = false).
    { destruct (forallb isspace _) eqn:F; [|reflexivity].
      rewrite forallb_forall in F.
      specialize (F x (drop_while_keeps isdecimal u (y :: v) x Dx)).
      rewrite (Sx x Kx) in F. discriminate F. }
    rewrite Hd, andb_false_r.
    rewrite !map_app, (blank_dropped_kept isalnum u Au),
            (blank_dropped_kept isalnum v Av).
    simpl. rewrite Kx, Ky.
    apply strip_trimmed.
    exact (trimmed_app u [SPACE; SPACE] v Tu Tv). }
  split; [exact E|]. rewrite E. apply has_ws_run_middle.
Qed.

(** The same on [page#%7]. *)
Lemma dropped_characters_leave_whitespace_run_witness :
  clean_text ascii_isalnum ascii_isdecimal (lit "page" ++ [35; 37]%N ++ lit "7")
  = lit "page" ++ [SPACE; SPACE] ++ lit "7".
Proof.
  exact (proj1 (proj1 dropped_characters_leave_whitespace_run
                  ascii_isalnum ascii_isdecimal (lit "page") (lit "7")
                  35%N 37%N ltac:(discriminate) ltac:(discriminate)
                  eq_refl eq_refl eq_refl eq_refl eq_refl)).
Defined.

End Examples.

End TextChunkerFacts.

(* ================================================================= *)
(** ** Facts about [EmbeddingService] *)

Module EmbeddingServiceFacts.
Import Py EmbeddingService.

Section Batches.

Variable scalar : Type.
Variable create : Z -> list str -> option (list (embedding scalar)).
Variable texts : list str.
Variable b : nat.

#[local] Abbreviation block' := (block create texts (Z.of_nat b)).
#[local] Abbreviation start' := (start (Z.of_nat b)).

Lemma fold_batch_step (idxs : list Z) (acc : list (embedding scalar)) :
  fold_left (batch_step create texts (Z.of_nat b)) idxs acc
  = acc ++ concat (map block' idxs).
Proof.
  revert acc; induction idxs as [|i idxs IH]; intro acc; simpl.
  - now rewrite app_nil_r.
  - rewrite IH. unfold batch_step, block.
    destruct (create i _); now rewrite <- app_assoc.
Qed.

Lemma slice_length (j : nat) :
  length (slice (start' j) (start' j + Z.of_nat b) texts)
  = Nat.min b (length texts - j * b).
Proof.
  unfold slice, start. rewrite length_firstn, length_skipn.
  replace (Z.to_nat (Z.of_nat j * Z.of_nat b + Z.of_nat b - Z.of_nat j * Z.of_nat b))
    with b by lia.
  replace (Z.to_nat (Z.of_nat j * Z.of_nat b)) with (j * b) by lia.
  reflexivity.
Qed.

Hypothesis one_per_text :
  forall i batch es, create i batch = Some es -> length es = length batch.

Lemma block_length (j : nat) :
  length (block' (start' j)) = Nat.min b (length texts - j * b).
Proof.
  unfold block. rewrite <- slice_length.
  destruct (create (start' j) _) as [es|] eqn:E.
  - exact (@one_per_text _ _ _ E).
  - apply length_map.
Qed.

Lemma blocks_length (s n : nat) :
  length (concat (map block' (map start' (seq s n))))
  = Nat.min (n * b) (length texts - s * b).
Proof.
  revert s; induction n as [|n IH]; intro s; [reflexivity|].
  simpl seq. simpl map. simpl concat.
  rewrite length_app, block_length, IH. simpl. nia.
Qed.

(** The embedding at index [k] is the one the block of [k]'s batch holds
    at [k]'s offset in the batch. *)
Lemma blocks_nth (n s k : nat) :
  0 < b -> s * b + k < length texts -> k / b < n ->
  nth_error (concat (map block' (map start' (seq s n)))) k
  = nth_error (block' (start' (s + k / b))) (k mod b).
Proof.
  intro Hb. revert s k; induction n as [|n IH]; intros s k Hk Hn; [lia|].
  simpl seq. simpl map. simpl concat.
  pose proof (block_length s) as Hlen.
  destruct (Nat.lt_ge_cases k b) as [Hlt|Hge].
  - rewrite nth_error_app1 by lia.
    now rewrite Nat.div_small, Nat.mod_small, Nat.add_0_r by exact Hlt.
  - rewrite nth_error_app2 by lia.
    replace (length (block' (start' s))) with b by lia.
    assert (Hd : k / b = S ((k - b) / b)).
    { replace k with (1 * b + (k - b)) at 1 by lia.
      rewrite Nat.div_add_l by lia. reflexivity. }
    assert (Hm : k mod b = (k - b) mod b).
    { replace k with ((k - b) + 1 * b) at 1 by lia.
      now rewrite Nat.Div0.mod_add. }
    rewrite IH by (try lia; simpl; lia).
    rewrite Hd, Hm.
    now replace (S s + (k - b) / b) with (s + S ((k - b) / b)) by lia.
Qed.

End Batches.

Section Claims.

Variable scalar : Type.
Variable create : Z -> list str -> option (list (embedding scalar)).

(** C9, as amended: for a positive [batch_size] and a service that
    answers a batch
    with one embedding per text, [generate_embeddings_batch] returns, and
    what it returns has one entry per input text; entry [k] is the
    service's answer for text [k] when its batch succeeded and the empty
    embedding when its batch failed. *)
Theorem embeddings_align_with_texts (texts : list str) (batch_size : Z) :
  (0 < batch_size)%Z ->
  (forall i batch es, create i batch = Some es -> length es = length batch) ->
  exists embeddings,
    generate_embeddings_batch create texts batch_size = Some embeddings
    /\ length embeddings = length texts
    /\ forall k, k < length texts ->
         let i := start batch_size (k / Z.to_nat batch_size) in
         match create i (slice i (i + batch_size) texts) with
         | Some batch_embeddings =>
             nth_error embeddings k
             = nth_error batch_embeddings (k mod Z.to_nat batch_size)
         | None => nth_error embeddings k = Some []
         end.
Proof.
  intros Hpos Hone.
  set (b := Z.to_nat batch_size).
  assert (Eb : batch_size = Z.of_nat b) by (unfold b; lia).
  assert (Hb : 0 < b) by lia.
  set (n := Z.to_nat (range_length 0 (Z.of_nat (length texts)) batch_size)).
  assert (Hn : length texts <= n * b).
  { unfold n, range_length.
    destruct (Z.geb_spec 0 (Z.of_nat (length texts))) as [|Hlt]; [simpl; lia|].
    rewrite Z.sub_0_r.
    pose proof (Z.div_mod (Z.of_nat (length texts) - 1)
                          batch_size ltac:(lia)) as Hdm.
    pose proof (Z.mod_pos_bound (Z.of_nat (length texts) - 1)
                                batch_size Hpos) as Hmb.
    assert (0 <= (Z.of_nat (length texts) - 1) / batch_size)%Z
      by (apply Z.div_pos; lia).
    nia. }
  assert (Er : range0 (Z.of_nat (length texts)) batch_size
               = map (start batch_size) (seq 0 n)).
  { unfold range0. destruct (Z.ltb_spec 0 batch_size) as [_|]; [|lia].
    reflexivity. }
  unfold generate_embeddings_batch.
  destruct (Z.eqb_spec batch_size 0) as [|_]; [lia|].
  rewrite Er. clearbody b n. subst batch_size.
  rewrite fold_batch_step. simpl app.
  eexists. split; [reflexivity|]. split.
  - rewrite (@blocks_length scalar create texts b Hone 0 n). simpl. lia.
  - intros k Hk. cbv zeta.
    assert (Hq : k / b < n).
    { apply Nat.Div0.div_lt_upper_bound. nia. }
    rewrite (@blocks_nth scalar create texts b Hone n 0 k Hb Hk Hq).
    simpl plus. unfold block.
    destruct (create _ _) as [es|] eqn:E; [reflexivity|].
    pose proof (slice_length texts b (k / b)) as Hlen.
    pose proof (Nat.div_mod_eq k b) as Hdm.
    pose proof (Nat.mod_upper_bound k b ltac:(lia)) as Hmb.
    destruct (nth_error (slice (start (Z.of_nat b) (k / b))
                               (start (Z.of_nat b) (k / b) + Z.of_nat b) texts)
                        (k mod b)) as [x|] eqn:Ex.
    + now rewrite (map_nth_error _ _ _ Ex).
    + apply nth_error_None in Ex. nia.
Qed.

End Claims.

(** The example client answers with one embedding per text. *)
Lemma flaky_create_one_per_text (i : Z) (batch : list str)
      (es : list (list nat)) :
  flaky_create i batch = Some es -> length es = length batch.
Proof.
  unfold flaky_create. destruct (existsb _ batch); [discriminate|].
  intro H. injection H as <-. apply length_map.
Qed.

Example flaky_run :
  generate_embeddings_batch flaky_create [lit "a"; []; lit "b"] 2%Z
  = Some [[]; []; [1]].
Proof. reflexivity. Qed.

(** C9 as the specification states it, for every input, fails.  With a
    negative [batch_size] the loop makes no iteration and the result is
    empty whatever the texts; with [batch_size] 0 the call raises; and a
    client that answers a batch with fewer embeddings than texts leaves
    the result short. *)
Lemma embeddings_misaligned_counterexample :
  generate_embeddings_batch flaky_create [lit "a"] (-1)%Z = Some []
  /\ generate_embeddings_batch flaky_create [lit "a"] 0%Z = None
  /\ generate_embeddings_batch (fun _ _ => Some (@nil (list nat)))
                               [lit "a"] 100%Z = Some [].
Proof. repeat split. Qed.

Lemma embeddings_align_with_texts_witness :
  (0 < 2)%Z
  /\ exists embeddings,
       generate_embeddings_batch flaky_create [lit "a"; []; lit "b"] 2%Z
       = Some embeddings
       /\ length embeddings = 3.
Proof.
  split; [reflexivity|].
  destruct (@embeddings_align_with_texts nat flaky_create
              [lit "a"; []; lit "b"] 2%Z eq_refl flaky_create_one_per_text)
    as (embeddings & Hrun & Hlen & _).
  exists embeddings. split; [exact Hrun|exact Hlen].
Defined.

End EmbeddingServiceFacts.

Unset Implicit Arguments.

(* ================================================================= *)
(** ** Further facts about [TextChunker] *)

Module TextChunkerMore.
Import Py PyFacts TextChunker TextChunkerFacts Shape.

#[local] Abbreviation solid := (fun s : str => trimmed s = true).

Section Lists.

Variable A : Type.

Lemma map_index_seq (f : A -> nat) (l : list A) (s : nat) :
  (forall i c, nth_error l i = Some c -> f c = s + i) ->
  map f l = seq s (length l).
Proof.
  revert s; induction l as [|a l IH]; intros s H; [reflexivity|].
  simpl. f_equal.
  - rewrite (H 0 a eq_refl). lia.
  - apply IH. intros i c Hc. rewrite (H (S i) c Hc). lia.
Qed.

Lemma length_concat_nonempty (log : list (list A)) :
  Forall (fun g => g <> []) log -> length log <= length (concat log).
Proof.
  induction 1 as [|g log Hg _ IH]; [reflexivity|].
  simpl. rewrite length_app. destruct g; [congruence|]. simpl. lia.
Qed.

Lemma all_but_last_nth (P : A -> Prop) (l : list A) :
  all_but_last P l ->
  forall i x, nth_error l i = Some x -> S i < length l -> P x.
Proof.
  induction l as [|a l IH]; intros H i x Hx Hi; [destruct i; discriminate|].
  destruct l as [|b l]; [simpl in Hi; lia|].
  destruct H as [Ha Hl]. destruct i as [|i].
  - injection Hx as <-. exact Ha.
  - apply (IH Hl i x Hx). simpl in *. lia.
Qed.

Lemma all_but_last_cons (P : A -> Prop) (a : A) (l : list A) :
  P a -> all_but_last P l -> all_but_last P (a :: l).
Proof. intros Ha Hl. destruct l; simpl; auto. Qed.

Lemma all_but_last_tail (P : A -> Prop) (a : A) (l : list A) :
  all_but_last P (a :: l) -> all_but_last P l.
Proof. destruct l as [|b l]; [trivial|]. now intros [_ H]. Qed.

Lemma all_but_last_head (P : A -> Prop) (a : A) (l : list A) :
  all_but_last P (a :: l) -> l <> [] -> P a.
Proof. destruct l as [|b l]; [congruence|]. now intros [H _] _. Qed.

Lemma all_but_last_filter (P : A -> Prop) (f : A -> bool) (l : list A) :
  all_but_last P l -> all_but_last P (filter f l).
Proof.
  induction l as [|a l IH]; [trivial|]. intro H.
  pose proof (IH (all_but_last_tail P a l H)) as IH'.
  simpl. destruct (f a); [|exact IH'].
  destruct (filter f l) as [|b l'] eqn:E; [exact I|].
  split; [|exact IH'].
  apply (all_but_last_head P a l H). intro El. subst l. discriminate E.
Qed.

Lemma all_but_last_map (B : Type) (P : A -> Prop) (Q : B -> Prop)
      (f : A -> B) (l : list A) :
  (forall x, P x -> Q (f x)) -> all_but_last P l -> all_but_last Q (map f l).
Proof.
  intro HPQ. induction l as [|a l IH]; [trivial|]. intro H.
  destruct l as [|b l]; [exact I|].
  destruct H as [Ha Hl]. split; [now apply HPQ|now apply IH].
Qed.

End Lists.

(** *** [join] over groups *)

Lemma join_app (sep : str) (a b : list str) :
  a <> [] -> b <> [] -> join sep (a ++ b) = join sep a ++ sep ++ join sep b.
Proof.
  induction a as [|p a IH]; [congruence|]. intros _ Hb.
  destruct a as [|q a].
  - simpl app. now rewrite (@join_cons sep p b Hb).
  - change ((p :: q :: a) ++ b) with (p :: ((q :: a) ++ b)).
    rewrite (@join_cons sep p ((q :: a) ++ b)) by discriminate.
    rewrite IH by (discriminate || exact Hb).
    rewrite (@join_cons sep p (q :: a)) by discriminate.
    now rewrite <- !app_assoc.
Qed.

Lemma join_concat (sep : str) (log : list (list str)) :
  Forall (fun g => g <> []) log ->
  join sep (map (join sep) log) = join sep (concat log).
Proof.
  induction 1 as [|g log Hg Hlog IH]; [reflexivity|].
  destruct log as [|h log].
  - simpl. now rewrite app_nil_r.
  - change (map (join sep) (g :: h :: log))
      with (join sep g :: map (join sep) (h :: log)).
    rewrite (@join_cons sep (join sep g) (map (join sep) (h :: log)))
      by discriminate.
    rewrite IH.
    change (concat (g :: h :: log)) with (g ++ concat (h :: log)).
    rewrite join_app; [reflexivity|exact Hg|].
    inversion Hlog as [|? ? Hh _]; subst. simpl.
    destruct h; [congruence|discriminate].
Qed.

Lemma In_join (sep : str) (l : list str) (x : char) :
  In x (join sep l) -> In x sep \/ exists s, In s l /\ In x s.
Proof.
  induction l as [|p l IH]; [intros []|].
  destruct l as [|q l].
  - intro H. right. exists p. split; [now left|exact H].
  - rewrite (@join_cons sep p (q :: l)) by discriminate. intro H.
    apply in_app_or in H as [H|H]; [right; exists p; split; [now left|exact H]|].
    apply in_app_or in H as [H|H]; [now left|].
    destruct (IH H) as [H'|(s & Hs & Hx)]; [now left|].
    right. exists s. split; [now right|exact Hx].
Qed.

(** *** Characters through [clean_text] and the splitter *)

Lemma sub_ws_runs_space_only (b : bool) (t : str) (x : char) :
  In x (sub_ws_runs b t) -> isspace x = true -> x = SPACE.
Proof.
  revert b; induction t as [|c t IH]; intro b; simpl; [intros []|].
  destruct (isspace c) eqn:E.
  - destruct b; [apply IH|]. intros [H|H]; [now intros _|now apply IH with true].
  - intros [H|H] Hx; [subst; congruence|now apply IH with false].
Qed.

Lemma sub_ws_runs_keeps_solid (b : bool) (t : str) (x : char) :
  In x t -> isspace x = false -> In x (sub_ws_runs b t).
Proof.
  revert b; induction t as [|c t IH]; intros b Hin Hx; [destruct Hin|].
  destruct Hin as [H|H]; simpl.
  - subst c. rewrite Hx. now left.
  - destruct (isspace c); [destruct b|]; simpl; auto.
Qed.

Lemma take_drop_while (p : char -> bool) (t : str) :
  t = take_while p t ++ drop_while p t.
Proof.
  induction t as [|c t IH]; [reflexivity|]. simpl.
  destruct (p c); [simpl; now f_equal|reflexivity].
Qed.

Lemma take_while_all (p : char -> bool) (t : str) (x : char) :
  In x (take_while p t) -> p x = true.
Proof.
  induction t as [|c t IH]; [intros []|]. simpl.
  destruct (p c) eqn:E; [|intros []].
  intros [H|H]; [now subst|now apply IH].
Qed.

Lemma re_split_In (t : str) (a i : bool) (cur : str) (p : str) (x : char) :
  In p (re_split_sentences a i cur t) -> In x p -> In x (rev cur ++ t).
Proof.
  revert a i cur; induction t as [|c t IH]; intros a i cur; simpl.
  - intros [<-|[]] Hx. now rewrite app_nil_r.
  - destruct (isspace c && i).
    + intros Hp Hx. specialize (IH _ _ _ Hp Hx).
      apply in_app_or in IH as [H|H]; apply in_or_app; [now left|right; now right].
    + destruct (isspace c && a).
      * intros [<-|Hp] Hx; [apply in_or_app; now left|].
        specialize (IH _ _ _ Hp Hx). simpl in IH.
        apply in_or_app; right; now right.
      * intros Hp Hx. specialize (IH _ _ _ Hp Hx).
        simpl in IH. rewrite <- app_assoc in IH. exact IH.
Qed.

Lemma sentence_chars (t s : str) (x : char) :
  In s (split_into_sentences t) -> In x s -> In x t.
Proof.
  unfold split_into_sentences. intros Hs Hx.
  apply in_map_iff in Hs as (p & <- & Hp).
  apply filter_In in Hp as [Hp _]. apply In_strip in Hx.
  exact (re_split_In t false false [] p x Hp Hx).
Qed.

(** *** The text normalizer *)

Section Normalizer.

Variables isalnum isdecimal : char -> bool.

Lemma clean_text_chars (text : str) (x : char) :
  In x (clean_text isalnum isdecimal text) ->
  kept isalnum x = true /\ (isspace x = true -> x = SPACE).
Proof.
  intro H. unfold clean_text in H.
  apply In_strip in H. rewrite !sub_class_same in H.
  apply in_map_iff in H as (y & Hy & Hin).
  assert (Hin' : In y (sub_ws_runs false text)).
  { unfold sub_page_number in Hin.
    destruct (truthy _ && forallb _ _); [destruct Hin|exact Hin]. }
  assert (Hsp : kept isalnum SPACE = true).
  { unfold kept. now rewrite isspace_SPACE, orb_true_r. }
  destruct (kept isalnum y) eqn:Ek; subst x.
  - split; [exact Ek|]. exact (sub_ws_runs_space_only false text y Hin').
  - split; [exact Hsp|reflexivity].
Qed.

(** X1: every character of the output of [clean_text] is one the third
    substitution keeps (word character, whitespace or one of the nine
    marks), and the only whitespace character left is the plain space:
    tabs, line feeds and the other Unicode blanks are gone; and the
    output neither starts nor ends with a space. *)
Theorem clean_text_alphabet (text : str) :
  Forall (fun x => kept isalnum x = true /\ (isspace x = true -> x = SPACE))
         (clean_text isalnum isdecimal text)
  /\ strip (clean_text isalnum isdecimal text)
     = clean_text isalnum isdecimal text.
Proof.
  split.
  - apply Forall_forall. intros x H. exact (clean_text_chars text x H).
  - destruct (clean_text_cases isalnum isdecimal text) as [E|E].
    + now rewrite E.
    + now apply strip_trimmed.
Qed.

(** X2: the page-number substitution removes nothing from a text that
    holds at least one character that is neither a decimal digit nor
    whitespace: the result is what the other steps alone give, so a number
    standing alone on a line of such a text is kept. *)
Theorem page_numbers_are_kept (text : str) (c : char) :
  In c text -> isdecimal c = false -> isspace c = false ->
  clean_text isalnum isdecimal text
  = strip (map (fun x => if kept isalnum x then x else SPACE)
               (sub_ws_runs false text)).
Proof.
  intros Hin Hd Hs. unfold clean_text. rewrite !sub_class_same.
  f_equal. f_equal. unfold sub_page_number.
  pose proof (sub_ws_runs_keeps_solid false text c Hin Hs) as Hc.
  set (t := sub_ws_runs false text) in *.
  rewrite (take_drop_while isdecimal t) in Hc.
  apply in_app_or in Hc as [Hc|Hc].
  - apply take_while_all in Hc. congruence.
  - assert (E : forallb isspace (drop_while isdecimal t) = false).
    { destruct (forallb isspace (drop_while isdecimal t)) eqn:E; [|reflexivity].
      rewrite forallb_forall in E. specialize (E c Hc). congruence. }
    now rewrite E, andb_false_r.
Qed.

End Normalizer.

(** *** The sentence splitter *)

Lemma sentence_end_solid (c : char) : sentence_end c = true -> isspace c = false.
Proof.
  unfold sentence_end, mem; simpl. rewrite !orb_false_r.
  intro H. apply orb_prop in H as [H|H]; [|apply orb_prop in H as [H|H]];
    apply N.eqb_eq in H; subst c; reflexivity.
Qed.

Lemma strip_snoc_solid (pre : str) (c : char) :
  isspace c = false -> strip (pre ++ [c]) = lstrip pre ++ [c].
Proof.
  intro Hc. unfold strip, rstrip.
  rewrite (@lstrip_app_solid pre [] c Hc), rev_app_distr. simpl.
  rewrite Hc. simpl. now rewrite rev_involutive.
Qed.

Lemma ends_sentence_strip (p : str) :
  ends_sentence p = true -> ends_sentence (strip p) = true.
Proof.
  unfold ends_sentence. intro H.
  destruct (rev p) as [|c r] eqn:E; [discriminate|].
  assert (Ep : p = rev r ++ [c]).
  { rewrite <- (rev_involutive p), E. reflexivity. }
  rewrite Ep, (strip_snoc_solid _ _ (sentence_end_solid _ H)).
  rewrite rev_app_distr. exact H.
Qed.

Lemma re_split_ends (t : str) (a i : bool) (cur : str) :
  (a = true -> ends_sentence (rev cur) = true) ->
  all_but_last (fun p => ends_sentence p = true) (re_split_sentences a i cur t).
Proof.
  revert a i cur; induction t as [|c t IH]; intros a i cur Ha; [exact I|].
  simpl. destruct (isspace c && i).
  - apply IH. discriminate.
  - destruct (isspace c && a) eqn:E.
    + apply all_but_last_cons.
      * apply Ha. now apply andb_prop in E.
      * apply IH. discriminate.
    + apply IH. intro Hc. unfold ends_sentence.
      now rewrite rev_involutive.
Qed.

(** X3: every sentence [split_into_sentences] returns, except possibly
    the last one, ends with a full stop, an exclamation mark or a question
    mark. *)
Theorem sentences_end_with_punctuation (t : str) (i : nat) (s : str) :
  nth_error (split_into_sentences t) i = Some s ->
  S i < length (split_into_sentences t) ->
  ends_sentence s = true.
Proof.
  apply (all_but_last_nth str (fun p => ends_sentence p = true)).
  unfold split_into_sentences.
  apply all_but_last_map with (P := fun p => ends_sentence p = true);
    [exact ends_sentence_strip|].
  apply all_but_last_filter. apply re_split_ends. discriminate.
Qed.

Lemma solid_chars_app (a b : str) :
  solid_chars (a ++ b) = solid_chars a ++ solid_chars b.
Proof. apply filter_app. Qed.

Lemma solid_chars_lstrip (t : str) : solid_chars (lstrip t) = solid_chars t.
Proof.
  induction t as [|c t IH]; [reflexivity|]. simpl.
  destruct (isspace c) eqn:E; simpl; [exact IH|now rewrite E].
Qed.

Lemma solid_chars_rev (t : str) : solid_chars (rev t) = rev (solid_chars t).
Proof.
  induction t as [|c t IH]; [reflexivity|]. simpl rev.
  rewrite solid_chars_app, IH. simpl.
  destruct (isspace c); simpl; [now rewrite app_nil_r|reflexivity].
Qed.

Lemma solid_chars_strip (t : str) : solid_chars (strip t) = solid_chars t.
Proof.
  unfold strip, rstrip.
  rewrite solid_chars_rev, solid_chars_lstrip, solid_chars_rev, rev_involutive.
  apply solid_chars_lstrip.
Qed.

Lemma re_split_solid (t : str) (a i : bool) (cur : str) :
  solid_chars (concat (re_split_sentences a i cur t)) = solid_chars (rev cur ++ t).
Proof.
  revert a i cur; induction t as [|c t IH]; intros a i cur;
    cbn [re_split_sentences].
  - cbn [concat]. now rewrite app_nil_r.
  - assert (Hc : isspace c = true ->
                 solid_chars (rev cur ++ c :: t) = solid_chars (rev cur ++ t)).
    { intro Hs. rewrite !solid_chars_app. unfold solid_chars at 2.
      cbn [filter]. now rewrite Hs. }
    destruct (isspace c && i) eqn:E1.
    + rewrite IH. symmetry. apply Hc. now apply andb_prop in E1.
    + destruct (isspace c && a) eqn:E2.
      * cbn [concat]. rewrite solid_chars_app, IH.
        rewrite Hc by now apply andb_prop in E2.
        cbn [rev app]. now rewrite solid_chars_app.
      * rewrite IH. cbn [rev]. now rewrite <- app_assoc.
Qed.

(** X4: splitting loses nothing but whitespace: the non-whitespace
    characters of the sentences, taken in order, are exactly those of the
    text. *)
Theorem sentences_keep_every_solid_character (t : str) :
  solid_chars (concat (split_into_sentences t)) = solid_chars t.
Proof.
  unfold split_into_sentences.
  pose proof (re_split_solid t false false []) as H.
  cbn [rev app] in H. rewrite <- H. clear H.
  induction (re_split_sentences false false [] t) as [|p l IH]; [reflexivity|].
  simpl. destruct (truthy (strip p)) eqn:E; simpl.
  - now rewrite !solid_chars_app, IH, solid_chars_strip.
  - rewrite solid_chars_app, IH, <- (solid_chars_strip p).
    destruct (strip p); [reflexivity|discriminate].
Qed.

(** *** The chunk builder *)

Section Builder.

Variables isalnum isdecimal : char -> bool.
Variable count_tokens : str -> nat.
Variables chunk_size chunk_overlap : Z.
Variable SourceInfo : Type.
Variable source_info : SourceInfo.

#[local] Abbreviation step' := (step count_tokens chunk_size chunk_overlap source_info).
#[local] Abbreviation log_step' :=
  (log_step count_tokens chunk_size chunk_overlap source_info).
#[local] Abbreviation inv :=
  (loop_inv count_tokens chunk_size chunk_overlap source_info).
#[local] Abbreviation before := (overlap_before count_tokens chunk_overlap).
#[local] Abbreviation sentences_of :=
  (fun text => split_into_sentences (clean_text isalnum isdecimal text)).
#[local] Abbreviation chunks_of :=
  (fun text => create_chunks isalnum isdecimal count_tokens chunk_size
                             chunk_overlap text source_info).
#[local] Abbreviation consumed_of :=
  (fun text => consumed_sentences isalnum isdecimal count_tokens chunk_size
                                  chunk_overlap text source_info).
#[local] Abbreviation group_of :=
  (fun text i c H =>
     @chunk_group isalnum isdecimal count_tokens chunk_size chunk_overlap
                  SourceInfo source_info text i c H).
#[local] Abbreviation spec_of :=
  (fun text =>
     @run_spec isalnum isdecimal count_tokens chunk_size chunk_overlap
               SourceInfo source_info text).

(** X5: the chunks are numbered 0, 1, 2, ... in the order they are
    returned, and each of them carries the [source_info] it was given. *)
Theorem chunk_ids_count_up (text : str) :
  map (@chunk_id SourceInfo) (chunks_of text) = seq 0 (length (chunks_of text))
  /\ Forall (fun c => source c = source_info) (chunks_of text).
Proof.
  split.
  - apply map_index_seq. intros i c Hc.
    now destruct (group_of text i c Hc) as (g & _ & _ & _ & (_ & _ & _ & Hid & _)).
  - apply Forall_forall. intros c Hin.
    apply In_nth_error in Hin as [i Hc].
    now destruct (group_of text i c Hc) as (g & _ & _ & _ & (_ & _ & Hs & _)).
Qed.

(** X6: there are never more chunks than sentences: every chunk consumes
    at least one sentence of its own. *)
Theorem chunks_at_most_sentences (text : str) :
  length (chunks_of text) <= length (sentences_of text).
Proof.
  destruct (spec_of text) as ((Hlen & _) & Hg & Hcat).
  rewrite <- Hlen, <- Hcat. apply length_concat_nonempty.
  apply Forall_forall. intros g Hin.
  exact (proj1 (proj1 (Forall_forall _ _) Hg g Hin)).
Qed.

(** X7: every character of every chunk text is one [clean_text] keeps,
    and the only whitespace in a chunk text is the plain space: page
    breaks, line feeds and tabs of the input never reach a chunk. *)
Theorem chunk_text_alphabet (text : str) :
  Forall (fun c =>
            Forall (fun x => kept isalnum x = true
                             /\ (isspace x = true -> x = SPACE))
                   (TextChunker.text c))
         (chunks_of text).
Proof.
  apply Forall_forall. intros c Hin. apply Forall_forall. intros x Hx.
  apply In_nth_error in Hin as [i Hc].
  destruct (spec_of text) as (_ & Hgr & Hcat).
  assert (Hsp : kept isalnum SPACE = true /\ (isspace SPACE = true -> SPACE = SPACE)).
  { split; [|reflexivity]. unfold kept. now rewrite isspace_SPACE, orb_true_r. }
  assert (Hsent : forall g s, In g (consumed_of text) -> In s g -> In x s ->
                  kept isalnum x = true /\ (isspace x = true -> x = SPACE)).
  { intros g s Hg Hs Hxs.
    assert (Hss : In s (sentences_of text)).
    { rewrite <- Hcat. apply in_concat. now exists g. }
    pose proof (sentence_chars _ s x Hss Hxs) as Hclean.
    exact (clean_text_chars isalnum isdecimal text x Hclean). }
  assert (Hjoin : forall g l, In g (consumed_of text) -> (forall s, In s l -> In s g) ->
                  In x (join [SPACE] l) ->
                  kept isalnum x = true /\ (isspace x = true -> x = SPACE)).
  { intros g l Hg Hl Hj. apply In_join in Hj as [[<-|[]]|(s & Hs & Hxs)];
      [exact Hsp|]. exact (Hsent g s Hg (Hl s Hs) Hxs). }
  destruct (group_of text i c Hc) as (g & Hg & _ & _ & (Ht & _)).
  rewrite Ht in Hx. unfold glue in Hx.
  assert (Hbody : In x (join [SPACE] g) ->
                  kept isalnum x = true /\ (isspace x = true -> x = SPACE)).
  { apply (Hjoin g g); [exact (nth_error_In _ _ Hg)|auto]. }
  destruct (truthy (before (consumed_of text) i)) eqn:Et; [|now apply Hbody].
  apply in_app_or in Hx as [Hx|Hx];
    [|apply in_app_or in Hx as [[<-|[]]|Hx]; [exact Hsp|now apply Hbody]].
  destruct i as [|j]; [destruct Hx|]. simpl in Hx.
  destruct (nth_error (consumed_of text) j) as [gp|] eqn:Egp; [|destruct Hx].
  assert (Hs : Forall solid gp).
  { exact (proj2 (proj1 (Forall_forall _ _) Hgr gp (nth_error_In _ _ Egp))). }
  destruct (@create_overlap_window count_tokens chunk_overlap gp Hs)
    as (pre & w & Egw & Eo & _).
  rewrite Eo in Hx.
  apply (Hjoin gp w); [exact (nth_error_In _ _ Egp)| |exact Hx].
  intros s Hsw. rewrite Egw. apply in_or_app. now right.
Qed.

Lemma map_ext_nth (A B C : Type) (f : A -> C) (h : B -> C)
      (l1 : list A) (l2 : list B) :
  length l2 = length l1 ->
  (forall i a, nth_error l1 i = Some a ->
               exists b, nth_error l2 i = Some b /\ f a = h b) ->
  map f l1 = map h l2.
Proof.
  revert l2; induction l1 as [|a l1 IH]; intros [|b l2] Hlen H;
    try discriminate; [reflexivity|].
  simpl. f_equal.
  - destruct (H 0 a eq_refl) as (b' & Hb & E). now injection Hb as <-.
  - apply IH; [now injection Hlen|]. intros i a' Ha'. exact (H (S i) a' Ha').
Qed.

(** X8: with [chunk_overlap] at most 0, and a tokenizer that gives every
    sentence at least one token, the chunks partition the sentences: the
    chunk texts joined by single spaces are the sentences joined by single
    spaces, nothing repeated and nothing lost. *)
Theorem chunks_partition_without_overlap (text : str) :
  (chunk_overlap <= 0)%Z ->
  (forall t, trimmed t = true -> 0 < count_tokens t) ->
  join [SPACE] (map (@TextChunker.text SourceInfo) (chunks_of text))
  = join [SPACE] (sentences_of text).
Proof.
  intros Hz Hpos.
  destruct (spec_of text) as ((Hlen & _) & Hgr & Hcat).
  rewrite <- Hcat, <- join_concat.
  - f_equal. apply map_ext_nth; [exact Hlen|]. intros i c Hc.
    destruct (group_of text i c Hc) as (g & Hg & _ & _ & (Ht & _)).
    exists g. split; [exact Hg|]. rewrite Ht.
    destruct i as [|j]; [reflexivity|]. simpl.
    destruct (nth_error (consumed_of text) j) as [gp|] eqn:Egp; [|reflexivity].
    rewrite (@create_overlap_none count_tokens chunk_overlap gp); [reflexivity| |exact Hz|exact Hpos].
    exact (proj2 (proj1 (Forall_forall _ _) Hgr gp (nth_error_In _ _ Egp))).
  - apply Forall_forall. intros g Hin.
    exact (proj1 (proj1 (Forall_forall _ _) Hgr g Hin)).
Qed.

Lemma fold_step_fits (rest p : list str) :
  Forall solid p -> Forall solid rest -> p <> [] ->
  (forall k, 0 < k -> k <= length (p ++ rest) ->
     (Z.of_nat (count_tokens (join [SPACE] (firstn k (p ++ rest)))) <= chunk_size)%Z) ->
  fold_left step' rest (mkState [] (join [SPACE] p) p)
  = mkState (@nil (Chunk SourceInfo)) (join [SPACE] (p ++ rest)) (p ++ rest).
Proof.
  revert p; induction rest as [|s rest IH]; intros p Hp Hrest Hne Hfit.
  - now rewrite app_nil_r.
  - inversion Hrest as [|? ? Hs Hrest']; subst.
    assert (Hglue : glue (join [SPACE] p) s = join [SPACE] (p ++ [s])).
    { rewrite glue_truthy
        by exact (trimmed_truthy _ (@join_trimmed [SPACE] p Hne Hp)).
      symmetry. now apply join_snoc. }
    assert (Hk : (Z.of_nat (count_tokens (join [SPACE] (p ++ [s]))) <= chunk_size)%Z).
    { assert (Ef : firstn (length (p ++ [s])) ((p ++ [s]) ++ rest) = p ++ [s]).
      { rewrite <- (Nat.add_0_r (length (p ++ [s]))), firstn_app_2.
        simpl. apply app_nil_r. }
      specialize (Hfit (length (p ++ [s]))).
      replace (p ++ s :: rest) with ((p ++ [s]) ++ rest) in Hfit
        by now rewrite <- app_assoc.
      rewrite Ef in Hfit. apply Hfit; rewrite !length_app; simpl; lia. }
    cbn [fold_left]. unfold step at 2, exceeds, potential_chunk.
    cbn [current_chunk current_sentences chunks].
    rewrite Hglue.
    replace (Z.of_nat (count_tokens (join [SPACE] (p ++ [s]))) >? chunk_size)%Z
      with false by (symmetry; rewrite Z.gtb_ltb; now apply Z.ltb_ge).
    cbn [andb].
    replace (p ++ s :: rest) with ((p ++ [s]) ++ rest) in *
      by now rewrite <- app_assoc.
    apply IH; [apply Forall_app; split; [exact Hp|now constructor]|exact Hrest'| |exact Hfit].
    intro E. now apply app_eq_nil in E as [_ E].
Qed.

Lemma step_init (s : str) :
  step' (init SourceInfo) s = mkState [] s [s].
Proof.
  unfold step, exceeds. cbn [init current_chunk truthy].
  now rewrite andb_false_r.
Qed.

(** X9: when the sentences fit together, there is exactly one chunk and
    it holds them all: if every leading run of the sentence list, joined
    by single spaces, counts at most [chunk_size] tokens, the result is the
    single chunk whose text is all the sentences joined by single
    spaces. *)
Theorem text_that_fits_is_one_chunk (text : str) :
  sentences_of text <> [] ->
  (forall k, 0 < k -> k <= length (sentences_of text) ->
     (Z.of_nat (count_tokens (join [SPACE] (firstn k (sentences_of text))))
      <= chunk_size)%Z) ->
  chunks_of text
  = [mkChunk (join [SPACE] (sentences_of text))
             (count_tokens (join [SPACE] (sentences_of text)))
             source_info 0].
Proof.
  intros Hne Hfit. unfold create_chunks; cbv zeta.
  pose proof (sentences_trimmed (clean_text isalnum isdecimal text)) as Hs.
  destruct (split_into_sentences (clean_text isalnum isdecimal text))
    as [|s ss] eqn:E; [congruence|].
  inversion Hs as [|? ? Hs1 Hs2]; subst.
  cbn [fold_left]. rewrite step_init.
  change (mkState [] s [s]) with (mkState (@nil (Chunk SourceInfo)) (join [SPACE] [s]) [s]).
  rewrite (fold_step_fits ss [s]); [|now constructor|exact Hs2|discriminate|exact Hfit].
  cbn [current_chunk app].
  assert (Ht : trimmed (join [SPACE] (s :: ss)) = true)
    by (apply join_trimmed; [discriminate|exact Hs]).
  rewrite (strip_trimmed _ Ht), (trimmed_truthy _ Ht).
  unfold append_chunk. cbn [chunks current_chunk app length].
  now rewrite (strip_trimmed _ Ht).
Qed.

(** A chunk is closed only by a sentence that does not fit: the
    sentences consumed next start with one that, added to the chunk,
    exceeds [chunk_size]. *)
#[local] Abbreviation closed_by_overflow :=
  (fun (cs : list (Chunk SourceInfo)) (log : list (list str)) =>
     forall i c g', nth_error cs i = Some c -> nth_error log (S i) = Some g' ->
       exists s rest, g' = s :: rest
         /\ (chunk_size
             < Z.of_nat (count_tokens (TextChunker.text c ++ [SPACE] ++ s)))%Z).

Lemma step_closed_by_overflow (done : list str) (st : state SourceInfo)
      (log : list (list str)) (s : str) :
  inv done st log ->
  closed_by_overflow (chunks st) (log ++ [current_sentences st]) ->
  closed_by_overflow
    (chunks (fst (log_step' (st, log) s)))
    (snd (log_step' (st, log) s)
       ++ [current_sentences (fst (log_step' (st, log) s))]).
Proof.
  intros Hinv Hgreedy.
  pose proof (@current_chunk_solid count_tokens chunk_size chunk_overlap
                SourceInfo source_info done st log Hinv) as Hsolid.
  destruct Hinv as ((Hlen & _) & _ & _ & _ & Hcc & _ & _).
  unfold log_step, step. cbn [fst snd].
  destruct (exceeds count_tokens chunk_size st s) eqn:Ex;
    cbn [chunks current_sentences]; intros i c g' Hc Hg'.
  - unfold append_chunk in Hc.
    destruct (Nat.lt_ge_cases i (length (chunks st))) as [Hlt|Hge].
    + rewrite nth_error_app1 in Hc by exact Hlt.
      rewrite nth_error_app1 in Hg' by (rewrite length_app; simpl; lia).
      exact (Hgreedy i c g' Hc Hg').
    + rewrite nth_error_app2 in Hc by exact Hge.
      destruct (i - length (chunks st)) as [|n] eqn:Ei;
        [|destruct n; discriminate].
      cbn [nth_error] in Hc. injection Hc as <-.
      assert (Ei' : i = length log) by lia. subst i.
      rewrite nth_error_app2 in Hg' by (rewrite length_app; simpl; lia).
      rewrite length_app in Hg'. simpl length in Hg'.
      replace (S (length log) - (length log + 1)) with 0 in Hg' by lia.
      injection Hg' as <-. exists s, []. split; [reflexivity|].
      cbn [TextChunker.text].
      unfold exceeds in Ex. apply andb_prop in Ex as [Ex Ht].
      assert (Hne : current_sentences st <> []).
      { intro E. rewrite E in Hcc. rewrite Hcc in Ht. discriminate. }
      rewrite (strip_trimmed _ (Hsolid Hne)).
      unfold potential_chunk in Ex. rewrite (glue_truthy _ _ Ht) in Ex.
      rewrite Z.gtb_ltb in Ex. now apply Z.ltb_lt in Ex.
  - assert (Hi : i < length log).
    { rewrite Hlen. apply nth_error_Some. congruence. }
    destruct (Nat.lt_ge_cases (S i) (length log)) as [Hlt|Hge].
    + rewrite nth_error_app1 in Hg' by exact Hlt.
      apply (Hgreedy i c g' Hc). now rewrite nth_error_app1.
    + assert (Ei : S i = length log) by lia.
      rewrite nth_error_app2, Ei, Nat.sub_diag in Hg' by lia.
      injection Hg' as <-.
      destruct (Hgreedy i c (current_sentences st) Hc) as (s0 & rest & E & Hb).
      { now rewrite nth_error_app2, Ei, Nat.sub_diag by lia. }
      exists s0, (rest ++ [s]). rewrite E. split; [reflexivity|exact Hb].
Qed.

Lemma run_closed_by_overflow (l : list str) :
  Forall solid l ->
  forall done st log,
    inv done st log ->
    closed_by_overflow (chunks st) (log ++ [current_sentences st]) ->
    closed_by_overflow
      (chunks (fst (fold_left log_step' l (st, log))))
      (snd (fold_left log_step' l (st, log))
         ++ [current_sentences (fst (fold_left log_step' l (st, log)))]).
Proof.
  induction 1 as [|s l Hs Hl IH]; intros done st log Hinv Hg; [exact Hg|].
  change (fold_left log_step' (s :: l) (st, log))
    with (fold_left log_step' l (log_step' (st, log) s)).
  rewrite (surjective_pairing (log_step' (st, log) s)).
  apply (IH (done ++ [s])).
  - now apply step_inv.
  - now apply step_closed_by_overflow with done.
Qed.

(** X10: chunks are packed greedily.  When chunk [i] is followed by
    another chunk, the first sentence that chunk consumed did not fit:
    the text of chunk [i], a space and that sentence count more than
    [chunk_size] tokens. *)
Theorem chunk_closed_only_by_overflow
        (text : str) (i : nat) (c : Chunk SourceInfo) (g' : list str) :
  nth_error (chunks_of text) i = Some c ->
  nth_error (consumed_of text) (S i) = Some g' ->
  exists s rest,
    g' = s :: rest
    /\ (chunk_size
        < Z.of_nat (count_tokens (TextChunker.text c ++ [SPACE] ++ s)))%Z.
Proof.
  unfold create_chunks, consumed_sentences; cbv zeta.
  set (ss := split_into_sentences (clean_text isalnum isdecimal text)).
  pose proof (@run_inv count_tokens chunk_size chunk_overlap SourceInfo
                source_info ss
                (sentences_trimmed (clean_text isalnum isdecimal text))
                [] (init SourceInfo) []
                (@init_inv count_tokens chunk_size chunk_overlap SourceInfo
                           source_info)) as Hinv.
  assert (H0 : closed_by_overflow (chunks (init SourceInfo))
                                  ([] ++ [current_sentences (init SourceInfo)])).
  { intros [|j] c0 g0 Hc0; discriminate. }
  pose proof (run_closed_by_overflow ss
                (sentences_trimmed (clean_text isalnum isdecimal text))
                [] (init SourceInfo) []
                (@init_inv count_tokens chunk_size chunk_overlap SourceInfo
                           source_info) H0) as Hg.
  rewrite <- (@fold_log_step_fst count_tokens chunk_size chunk_overlap
                SourceInfo source_info ss (init SourceInfo) []).
  destruct (fold_left log_step' ss (init SourceInfo, [])) as [st log].
  cbn [fst snd] in *.
  destruct (truthy (strip (current_chunk st))) eqn:Et.
  - intros Hc Hn.
    destruct Hinv as ((Hlen & _) & _).
    assert (Hi : S i < length (log ++ [current_sentences st]))
      by (apply nth_error_Some; congruence).
    rewrite length_app in Hi. simpl in Hi.
    unfold append_chunk in Hc.
    rewrite nth_error_app1 in Hc by lia.
    exact (Hg i c g' Hc Hn).
  - intros Hc Hn. apply (Hg i c g' Hc).
    rewrite nth_error_app1; [exact Hn|]. apply nth_error_Some. congruence.
Qed.

End Builder.

End TextChunkerMore.

(* ================================================================= *)
(** ** Facts about [PDFExtractor] *)

Module PDFExtractorFacts.
Import Py PyFacts Fmt PDFExtractor.

(** Page numbers that go up strictly. *)
#[local] Abbreviation ascending :=
  (fun l : list page_data =>
     forall i j a b, i < j -> nth_error l i = Some a -> nth_error l j = Some b ->
                     page a < page b).

(** A record made from the page numbered [page r] (counting from
    [first]). *)
#[local] Abbreviation from_page :=
  (fun (first : nat) (pages : list extraction) (r : page_data) =>
     first <= page r
     /\ exists t, nth_error pages (page r - first) = Some (Returns (Some t))
                  /\ t <> [] /\ text r = strip t).

Lemma pages_loop_spec (pages : list extraction) (n : nat)
      (acc out : list page_data) :
  pages_loop n pages acc = Some out ->
  exists new,
    out = acc ++ new
    /\ length new <= length pages
    /\ Forall (from_page n pages) new
    /\ ascending new
    /\ ~ In Raises pages.
Proof.
  revert n acc out; induction pages as [|p pages IH]; intros n acc out H.
  - injection H as <-. exists []. rewrite app_nil_r.
    repeat split; auto. intros [|i] j a b _ Ha; discriminate.
  - assert (Hshift : forall new, Forall (from_page (S n) pages) new ->
                                 Forall (from_page n (p :: pages)) new).
    { intros new Hn. apply Forall_forall. intros r Hr.
      destruct (proj1 (Forall_forall _ _) Hn r Hr) as (Hle & t & Ht & Hne & Hs).
      split; [lia|]. exists t. split; [|now split].
      replace (page r - n) with (S (page r - S n)) by lia. exact Ht. }
    simpl in H. destruct p as [|[t|]]; [discriminate| |].
    + destruct (truthy t) eqn:Et.
      * destruct (IH _ _ _ H) as (new & -> & Hlen & Hall & Hasc & Hno).
        exists (mkPageData n (strip t) :: new).
        split; [now rewrite <- app_assoc|].
        split; [simpl; lia|]. split; [|split].
        -- constructor; [|now apply Hshift].
           split; [simpl; lia|]. exists t. simpl. rewrite Nat.sub_diag.
           repeat split. destruct t; [discriminate|discriminate].
        -- intros [|i] [|j] a b Hij Ha Hb; try lia.
           ++ injection Ha as <-. simpl. simpl in Hb.
              destruct (proj1 (Forall_forall _ _) Hall b (nth_error_In _ _ Hb))
                as (Hle & _). lia.
           ++ apply (Hasc i j a b); [lia|exact Ha|exact Hb].
        -- intros [E|E]; [discriminate|contradiction].
      * destruct (IH _ _ _ H) as (new & -> & Hlen & Hall & Hasc & Hno).
        exists new. repeat split; auto; [simpl; lia|].
        intros [E|E]; [discriminate|contradiction].
    + destruct (IH _ _ _ H) as (new & -> & Hlen & Hall & Hasc & Hno).
      exists new. repeat split; auto; [simpl; lia|].
      intros [E|E]; [discriminate|contradiction].
Qed.

(** X11: every record [extract_text_from_pdf] returns is made from a
    page of the document that has text: its [page] is the 1-based number
    of that page and its [text] is the page's text, trimmed.  Records come
    in strictly increasing page order, so there are no more records than
    pages. *)
Theorem extracted_pages_are_the_pdf_pages (pages : list extraction) :
  let text_content := extract_text_from_pdf (Some pages) in
  Forall (fun r =>
            1 <= page r
            /\ exists t, nth_error pages (page r - 1) = Some (Returns (Some t))
                         /\ t <> [] /\ text r = strip t)
         text_content
  /\ (forall i j a b, i < j ->
        nth_error text_content i = Some a -> nth_error text_content j = Some b ->
        page a < page b)
  /\ length text_content <= length pages.
Proof.
  unfold extract_text_from_pdf.
  destruct (pages_loop 1 pages []) as [out|] eqn:E.
  - destruct (pages_loop_spec _ _ _ _ E) as (new & -> & Hlen & Hall & Hasc & _).
    simpl. auto.
  - simpl. repeat split; [constructor| |lia].
    intros [|i] j a b _ Ha; discriminate.
Qed.

Lemma pages_loop_raises (pages : list extraction) (n : nat)
      (acc : list page_data) :
  In Raises pages -> pages_loop n pages acc = None.
Proof.
  revert n acc; induction pages as [|p pages IH]; intros n acc Hin;
    [destruct Hin|].
  destruct Hin as [H|H].
  - subst p. reflexivity.
  - simpl. destruct p as [|[t|]]; [reflexivity| |now apply IH].
    destruct (truthy t); now apply IH.
Qed.

(** The texts of the pages that have one, trimmed, in page order. *)
Lemma pages_loop_total (pages : list extraction) (n : nat)
      (acc : list page_data) :
  ~ In Raises pages ->
  exists new,
    pages_loop n pages acc = Some (acc ++ new)
    /\ map text new
       = flat_map (fun p => match p with
                            | Returns (Some t) => if truthy t then [strip t] else []
                            | _ => []
                            end) pages.
Proof.
  revert n acc; induction pages as [|p pages IH]; intros n acc Hno.
  - exists []. now rewrite app_nil_r.
  - assert (Hno' : ~ In Raises pages) by (intro; apply Hno; now right).
    destruct p as [|[t|]]; [exfalso; apply Hno; now left| |].
    + simpl. destruct (truthy t).
      * destruct (IH (S n) (acc ++ [mkPageData n (strip t)]) Hno')
          as (new & E & Hm).
        exists (mkPageData n (strip t) :: new).
        rewrite E, <- app_assoc. split; [reflexivity|]. simpl. now rewrite Hm.
      * destruct (IH (S n) acc Hno') as (new & E & Hm).
        exists new. now split.
    + simpl. destruct (IH (S n) acc Hno') as (new & E & Hm).
      exists new. now split.
Qed.

(** X12: extraction is all or nothing.  When the document cannot be
    opened, or when one page raises, the result is empty, whatever the
    pages read before had; when no page raises, every page with a
    non-empty text is recorded, trimmed, in page order. *)
Theorem extraction_is_all_or_nothing (pages : list extraction) :
  extract_text_from_pdf None = []
  /\ (In Raises pages -> extract_text_from_pdf (Some pages) = [])
  /\ (~ In Raises pages ->
      map text (extract_text_from_pdf (Some pages))
      = flat_map (fun p => match p with
                           | Returns (Some t) => if truthy t then [strip t] else []
                           | _ => []
                           end) pages).
Proof.
  split; [reflexivity|]. split; intro H; unfold extract_text_from_pdf.
  - now rewrite (pages_loop_raises pages 1 [] H).
  - destruct (pages_loop_total pages 1 [] H) as (new & -> & Hm). exact Hm.
Qed.

Section Files.

Variable FS : Type.
Variable write : str -> file_content -> FS -> option FS.
Variable processed_data_dir : str.

Lemma In_dict_set (V : Type) (d : dict V) (k : str) (v : V) (kv : str * V) :
  In kv (dict_set d k v) -> kv = (k, v) \/ In kv d.
Proof.
  induction d as [|[k' v'] d IH]; simpl.
  - intros [H|[]]. now left.
  - destruct (str_eqb k' k).
    + intros [H|H]; [now left|right; now right].
    + intros [H|H]; [right; now left|].
      destruct (IH H) as [E|E]; [now left|right; now right].
Qed.

Lemma pdf_loop_entries (pdf_files : list pdf_file) (results out : dict info)
      (fs fs' : FS) :
  pdf_loop write processed_data_dir pdf_files results fs = (Ok out, fs') ->
  forall kv, In kv out ->
    In kv results
    \/ exists f, In f pdf_files /\ name f = fst kv
                 /\ info_pages (snd kv) = length (extract_text_from_pdf (pdf f))
                 /\ 1 <= info_pages (snd kv).
Proof.
  revert results fs; induction pdf_files as [|f rest IH]; intros results fs H kv Hkv.
  - injection H as <- _. now left.
  - simpl in H.
    destruct (extract_text_from_pdf (pdf f)) as [|r tc] eqn:E.
    + simpl in H. destruct (IH _ _ H kv Hkv) as [Hin|(g & Hg & Hrest)];
        [now left|]. right. exists g. split; [now right|exact Hrest].
    + cbn [truthy_list] in H.
      destruct (write _ _ fs) as [fs1|]; [|discriminate].
      destruct (write _ _ fs1) as [fs2|]; [|discriminate].
      destruct (IH _ _ H kv Hkv) as [Hin|(g & Hg & Hrest)].
      * apply In_dict_set in Hin as [->|Hin]; [|now left].
        right. exists f. simpl. rewrite E. simpl.
        repeat split; [now left|lia].
      * right. exists g. split; [now right|exact Hrest].
Qed.

(** X13: [process_all_pdfs] returns [None] when there is no PDF at all.
    Otherwise every entry of the dict it returns stands for one of the
    PDFs, under its file name, with as many pages as
    [extract_text_from_pdf] recorded for it, and at least one: a PDF that
    yields no text has no entry. *)
Theorem results_hold_only_extracted_pdfs
        (pdf_files : list pdf_file) (fs fs' : FS)
        (results : option (dict info)) :
  process_all_pdfs write processed_data_dir pdf_files fs = (Ok results, fs') ->
  (results = None <-> pdf_files = [])
  /\ forall d k v, results = Some d -> In (k, v) d ->
       exists f, In f pdf_files /\ name f = k
                 /\ info_pages v = length (extract_text_from_pdf (pdf f))
                 /\ 1 <= info_pages v.
Proof.
  unfold process_all_pdfs. destruct pdf_files as [|f rest].
  - intro H. injection H as <- _. split; [tauto|]. discriminate.
  - destruct (pdf_loop write processed_data_dir (f :: rest) [] fs)
      as [[out|] fs1] eqn:E; [|discriminate].
    intro H. injection H as <- _. split; [split; discriminate|].
    intros d k v Hd Hin. injection Hd as <-.
    destruct (pdf_loop_entries _ _ _ _ _ E (k, v) Hin) as [[]|H]. exact H.
Qed.

End Files.

End PDFExtractorFacts.

(* ================================================================= *)
(** ** Facts about the file-level functions of [TextChunker] *)

Module ChunkerFilesFacts.
Import Py PyFacts Fmt TextChunker TextChunkerFacts ChunkerFiles.

Section Chunker.

Variables isalnum isdecimal : char -> bool.
Variable count_tokens : str -> nat.
Variables chunk_size chunk_overlap : Z.

Lemma fold_full_text (pages : list PDFExtractor.page_data) (acc : str) :
  fold_left (fun full_text page_data =>
               full_text ++ PDFExtractor.text page_data ++ [LF; LF])
            pages acc
  = acc ++ concat (map (fun p => PDFExtractor.text p ++ [LF; LF]) pages).
Proof.
  revert acc; induction pages as [|p pages IH]; intro acc; simpl.
  - now rewrite app_nil_r.
  - rewrite IH. now rewrite <- !app_assoc.
Qed.

Lemma full_text_blank (pages : list PDFExtractor.page_data) :
  Forall (fun p => forallb isspace (PDFExtractor.text p) = true) pages ->
  forallb isspace (full_text pages) = true.
Proof.
  unfold full_text. rewrite fold_full_text. simpl.
  induction 1 as [|p pages Hp _ IH]; [reflexivity|].
  simpl. rewrite forallb_app, forallb_app, Hp, IH. reflexivity.
Qed.

Lemma create_chunks_of_empty (text : str) (S : Type) (source_info : S) :
  clean_text isalnum isdecimal text = [] ->
  create_chunks isalnum isdecimal count_tokens chunk_size chunk_overlap
                text source_info = [].
Proof. intro E. unfold create_chunks. now rewrite E. Qed.

(** X14: a document whose pages hold nothing but whitespace, or that has
    no page, gives no chunk. *)
Theorem blank_document_gives_no_chunk
        (json_file_path : str) (data : PDFExtractor.extracted) :
  Forall (fun p => forallb isspace (PDFExtractor.text p) = true)
         (PDFExtractor.pages data) ->
  process_extracted_json isalnum isdecimal count_tokens chunk_size
                         chunk_overlap json_file_path data = [].
Proof.
  intro H. unfold process_extracted_json. cbv zeta. simpl app.
  apply create_chunks_of_empty, clean_text_blank, full_text_blank, H.
Qed.

End Chunker.

End ChunkerFilesFacts.

(* ================================================================= *)
(** ** Facts about batches *)

Module BatchFacts.
Import Py Fmt EmbeddingService.

Section Slices.

Variable A : Type.

Lemma firstn_plus (a c : nat) (l : list A) :
  firstn (a + c) l = firstn a l ++ firstn c (skipn a l).
Proof.
  revert l; induction a as [|a IH]; intro l; [reflexivity|].
  destruct l as [|x l]; simpl; [now rewrite firstn_nil|].
  now rewrite IH.
Qed.

Lemma concat_chunks (l : list A) (b s n : nat) :
  concat (map (fun k => firstn b (skipn (k * b) l)) (seq s n))
  = firstn (n * b) (skipn (s * b) l).
Proof.
  revert s; induction n as [|n IH]; intro s; [reflexivity|].
  simpl seq. simpl map. simpl concat. rewrite IH.
  simpl Nat.mul. rewrite firstn_plus, skipn_skipn. reflexivity.
Qed.

Lemma slice_nat (l : list A) (b k : nat) :
  slice (start (Z.of_nat b) k) (start (Z.of_nat b) k + Z.of_nat b) l
  = firstn b (skipn (k * b) l).
Proof.
  unfold slice, start.
  replace (Z.to_nat (Z.of_nat k * Z.of_nat b + Z.of_nat b - Z.of_nat k * Z.of_nat b))
    with b by lia.
  now replace (Z.to_nat (Z.of_nat k * Z.of_nat b)) with (k * b) by lia.
Qed.

End Slices.

(** The number of iterations of [for i in range(0, len, b)]. *)
#[local] Abbreviation batches len b :=
  (Z.to_nat (range_length 0 (Z.of_nat len) (Z.of_nat b))).

Lemma range0_batches (len b : nat) :
  0 < b ->
  range0 (Z.of_nat len) (Z.of_nat b)
  = map (start (Z.of_nat b)) (seq 0 (batches len b)).
Proof.
  intro Hb. unfold range0.
  destruct (Z.ltb_spec 0 (Z.of_nat b)) as [_|]; [reflexivity|lia].
Qed.

Lemma batches_cover (len b : nat) : 0 < b -> len <= batches len b * b.
Proof.
  intro Hb. unfold range_length.
  destruct (Z.geb_spec 0 (Z.of_nat len)) as [|Hlt]; [simpl; lia|].
  rewrite Z.sub_0_r.
  pose proof (Z.div_mod (Z.of_nat len - 1) (Z.of_nat b) ltac:(lia)) as Hdm.
  pose proof (Z.mod_pos_bound (Z.of_nat len - 1) (Z.of_nat b) ltac:(lia)) as Hmb.
  assert (0 <= (Z.of_nat len - 1) / Z.of_nat b)%Z by (apply Z.div_pos; lia).
  nia.
Qed.

Lemma batches_tight (len b k : nat) :
  0 < b -> k < batches len b -> k * b < len.
Proof.
  intros Hb Hk. unfold range_length in Hk.
  destruct (Z.geb_spec 0 (Z.of_nat len)) as [|Hlt]; [simpl in Hk; lia|].
  rewrite Z.sub_0_r in Hk.
  pose proof (Z.mul_div_le (Z.of_nat len - 1) (Z.of_nat b) ltac:(lia)) as Hle.
  assert (0 <= (Z.of_nat len - 1) / Z.of_nat b)%Z by (apply Z.div_pos; lia).
  nia.
Qed.

(** The slices the loop takes, put end to end, are the list. *)
Lemma concat_slices (A : Type) (l : list A) (b : nat) :
  0 < b ->
  concat (map (fun i => slice i (i + Z.of_nat b) l)
              (range0 (Z.of_nat (length l)) (Z.of_nat b)))
  = l.
Proof.
  intro Hb. rewrite (range0_batches (length l) b Hb), map_map.
  rewrite (map_ext _ (fun k => firstn b (skipn (k * b) l)))
    by (intro k; apply slice_nat).
  rewrite concat_chunks. simpl skipn.
  apply firstn_all2. now apply batches_cover.
Qed.

(** Each slice holds between 1 and [b] elements. *)
Lemma slices_sizes (A : Type) (l : list A) (b : nat) (i : Z) :
  0 < b ->
  In i (range0 (Z.of_nat (length l)) (Z.of_nat b)) ->
  length (slice i (i + Z.of_nat b) l) = Nat.min b (length l - Z.to_nat i)
  /\ 1 <= length (slice i (i + Z.of_nat b) l) <= b.
Proof.
  intros Hb Hi. rewrite (range0_batches (length l) b Hb) in Hi.
  apply in_map_iff in Hi as (k & <- & Hk). apply in_seq in Hk.
  destruct Hk as [_ Hk]. simpl in Hk.
  pose proof (batches_tight (length l) b k Hb Hk) as Ht.
  rewrite slice_nat, length_firstn, length_skipn.
  unfold start. replace (Z.to_nat (Z.of_nat k * Z.of_nat b)) with (k * b) by lia.
  lia.
Qed.

End BatchFacts.

(* ================================================================= *)
(** ** Facts about [process_chunks_file] and [VectorStore] *)

Module StoreFacts.
Import Py PyFacts Fmt TextChunker EmbeddingService EmbeddingServiceFacts.
Import BatchFacts EmbeddingFiles.

Section Lists.

Variables A B : Type.

Lemma filter_map_length (p : B -> bool) (f : A -> B) (l : list A) :
  length (filter p (map f l)) = length (filter (fun x => p (f x)) l).
Proof.
  induction l as [|x l IH]; [reflexivity|]. simpl.
  destruct (p (f x)); simpl; now rewrite IH.
Qed.

Lemma distinct_keys_filter (keep : A -> bool) (key : A -> B) (xs : list A) :
  NoDup (map key xs) -> NoDup (map key (filter keep xs)).
Proof.
  induction xs as [|x xs IH]; simpl; intro H; [exact H|].
  apply NoDup_cons_iff in H as [Hx Hxs].
  destruct (keep x); [|exact (IH Hxs)].
  simpl. apply NoDup_cons_iff. split; [|exact (IH Hxs)].
  intro Hin. apply Hx. apply in_map_iff in Hin as (y & E & Hy).
  apply in_map_iff. exists y. split; [exact E|].
  now apply filter_In in Hy.
Qed.

Lemma NoDup_map_injective (g : B -> A) (l : list B) :
  (forall x y, g x = g y -> x = y) -> NoDup l -> NoDup (map g l).
Proof.
  intros Hg. induction 1 as [|x l Hx _ IH]; simpl; constructor; [|exact IH].
  intro Hin. apply in_map_iff in Hin as (y & E & Hy).
  apply Hg in E. now subst.
Qed.

Lemma map_fst_combine (l1 : list A) (l2 : list B) :
  length l1 <= length l2 -> map fst (combine l1 l2) = l1.
Proof.
  revert l2; induction l1 as [|a l1 IH]; intros [|b l2] H; simpl in *;
    try reflexivity; [lia|]. f_equal. apply IH. lia.
Qed.

Lemma map_snd_combine (l1 : list A) (l2 : list B) :
  length l2 <= length l1 -> map snd (combine l1 l2) = l2.
Proof.
  revert l2; induction l1 as [|a l1 IH]; intros [|b l2] H; simpl in *;
    try reflexivity; [lia|]. f_equal. apply IH. lia.
Qed.

End Lists.

(** *** Decimal ids *)

Lemma lit_injective (a b : string) : lit a = lit b -> a = b.
Proof.
  unfold lit. intro H.
  rewrite <- (string_of_list_ascii_of_string a),
          <- (string_of_list_ascii_of_string b).
  f_equal. revert H.
  generalize (list_ascii_of_string a) (list_ascii_of_string b).
  induction l as [|x l IH]; intros [|y l'] H; try discriminate; [reflexivity|].
  simpl in H. injection H as Hxy Hl. f_equal; [|now apply IH].
  rewrite <- (ascii_N_embedding x), <- (ascii_N_embedding y). now rewrite Hxy.
Qed.

Lemma str_of_nat_injective (n m : nat) : str_of_nat n = str_of_nat m -> n = m.
Proof.
  unfold str_of_nat. intro H. apply lit_injective in H.
  assert (E : Some (Nat.to_uint n) = Some (Nat.to_uint m)).
  { rewrite <- !DecimalString.NilEmpty.usu. now rewrite H. }
  injection E as E.
  rewrite <- (DecimalNat.Unsigned.of_to n), <- (DecimalNat.Unsigned.of_to m).
  now rewrite E.
Qed.

(** *** [process_chunks_file] *)

Section Service.

Variable scalar : Type.
Variable model : str.
Variable create : Z -> list str -> option (list (list scalar)).

#[local] Abbreviation chunk_t := (Chunk ChunkerFiles.source_info).
#[local] Abbreviation attach' := (@attach scalar model).
#[local] Abbreviation process := (@process_chunks_file scalar model create).
#[local] Abbreviation valid := (fun c : embedded_chunk scalar =>
                                  truthy_list (embedding c)).

Lemma generate_unfold (texts : list str) :
  generate_embeddings_batch create texts 100
  = Some (concat (map (block create texts 100)
                      (range0 (Z.of_nat (length texts)) 100))).
Proof.
  unfold generate_embeddings_batch.
  change (100 =? 0)%Z with false. cbv iota.
  change 100%Z with (Z.of_nat 100).
  now rewrite fold_batch_step.
Qed.

Lemma generate_length (texts : list str) :
  (forall i batch es, create i batch = Some es -> length es = length batch) ->
  length (concat (map (block create texts 100)
                      (range0 (Z.of_nat (length texts)) 100)))
  = length texts.
Proof.
  intro Hone. change 100%Z with (Z.of_nat 100).
  rewrite (range0_batches (length texts) 100) by lia.
  rewrite (@blocks_length scalar create texts 100 Hone 0).
  pose proof (batches_cover (length texts) 100 ltac:(lia)). lia.
Qed.

Lemma attach_exact (chunks : list chunk_t) (embeddings : list (list scalar))
      (i : nat) :
  i + length chunks <= length embeddings ->
  attach' i chunks embeddings
  = Some (map (fun ce => mkEmbeddedChunk (fst ce) (snd ce) model)
              (combine chunks (skipn i embeddings))).
Proof.
  revert i; induction chunks as [|c chunks IH]; intros i H; [reflexivity|].
  simpl in H. cbn [attach].
  destruct (nth_error embeddings i) as [e|] eqn:E;
    [|apply nth_error_None in E; lia].
  rewrite (IH (S i)) by lia.
  now rewrite (@TextChunkerFacts.skipn_nth_error _ embeddings i e E).
Qed.

Lemma attach_short (chunks : list chunk_t) (embeddings : list (list scalar))
      (i : nat) :
  chunks <> [] ->
  length embeddings < i + length chunks ->
  attach' i chunks embeddings = None.
Proof.
  revert i; induction chunks as [|c chunks IH]; intros i Hne H; [congruence|].
  simpl in H. cbn [attach].
  destruct (nth_error embeddings i) as [e|] eqn:E; [|reflexivity].
  assert (Hi : i < length embeddings) by (apply nth_error_Some; congruence).
  rewrite (IH (S i)); [reflexivity| |lia].
  intro E0. subst chunks. simpl in H. lia.
Qed.

(** What [process_chunks_file] returns when the list of embeddings is
    as long as the list of chunks. *)
Lemma process_spec (data : ChunkerFiles.chunk_data)
      (embeddings : list (list scalar)) :
  generate_embeddings_batch create
    (map (@TextChunker.text _) (ChunkerFiles.chunks data)) 100 = Some embeddings ->
  length embeddings = length (ChunkerFiles.chunks data) ->
  exists out,
    process data = Some out
    /\ map (@chunk scalar) (chunks out) = ChunkerFiles.chunks data
    /\ map (@embedding scalar) (chunks out) = embeddings
    /\ Forall (fun c => embedding_model c = model) (chunks out)
    /\ total_embeddings (info out) = count_truthy embeddings
    /\ failed_embeddings (info out) = count_falsy embeddings
    /\ total_chunks out = ChunkerFiles.total_chunks data
    /\ chunking_config out = ChunkerFiles.chunking_config data.
Proof.
  intros Hgen Hlen. unfold process_chunks_file. cbv zeta. rewrite Hgen.
  rewrite attach_exact by (simpl; lia). simpl skipn.
  eexists. split; [reflexivity|]. cbn [chunks info total_embeddings
    failed_embeddings total_chunks chunking_config].
  rewrite !map_map. cbn [chunk embedding].
  split; [|split; [|split]].
  - rewrite <- map_map with (f := fst) (g := fun x => x), map_id.
    apply map_fst_combine. lia.
  - rewrite <- map_map with (f := snd) (g := fun x => x), map_id.
    apply map_snd_combine. lia.
  - apply Forall_forall. intros c Hc.
    apply in_map_iff in Hc as (ce & <- & _). reflexivity.
  - auto.
Qed.

(** X15: when the service answers every successful batch with one
    embedding per text, [process_chunks_file] returns; the chunks come back
    unchanged and in order, each with the model name; and
    [total_embeddings] and [failed_embeddings] count the chunks whose
    stored embedding is non-empty and empty, so they add up to the number
    of chunks. *)
Theorem embedding_info_counts_the_chunks (data : ChunkerFiles.chunk_data) :
  (forall i batch es, create i batch = Some es -> length es = length batch) ->
  exists out,
    process data = Some out
    /\ map (@chunk scalar) (chunks out) = ChunkerFiles.chunks data
    /\ Forall (fun c => embedding_model c = model) (chunks out)
    /\ total_embeddings (info out) = length (filter valid (chunks out))
    /\ failed_embeddings (info out)
       = length (filter (fun c => negb (valid c)) (chunks out))
    /\ total_embeddings (info out) + failed_embeddings (info out)
       = length (ChunkerFiles.chunks data).
Proof.
  intro Hone.
  pose proof (generate_unfold (map (@TextChunker.text _) (ChunkerFiles.chunks data)))
    as Hgen.
  pose proof (generate_length
                (map (@TextChunker.text _) (ChunkerFiles.chunks data)) Hone) as Hlen.
  destruct (process_spec data _ Hgen (eq_trans Hlen (length_map _ _)))
    as (out & Hp & Hc & He & Hm & Ht & Hf & _).
  exists out. split; [exact Hp|]. split; [exact Hc|]. split; [exact Hm|].
  rewrite Ht, Hf. unfold count_truthy, count_falsy. rewrite <- He.
  rewrite !filter_map_length. split; [reflexivity|]. split; [reflexivity|].
  rewrite <- Hc, length_map. apply filter_length.
Qed.

(** X16: when the service hands back fewer embeddings than there are
    chunks, [process_chunks_file] raises (the [IndexError] of
    [embeddings[i]]) and returns no data. *)
Theorem too_few_embeddings_raise (data : ChunkerFiles.chunk_data)
        (embeddings : list (list scalar)) :
  generate_embeddings_batch create
    (map (@TextChunker.text _) (ChunkerFiles.chunks data)) 100 = Some embeddings ->
  length embeddings < length (ChunkerFiles.chunks data) ->
  process data = None.
Proof.
  intros Hgen Hlen. unfold process_chunks_file. cbv zeta. rewrite Hgen.
  rewrite attach_short; [reflexivity| |simpl; lia].
  intro E. rewrite E in Hlen. simpl in Hlen. lia.
Qed.

End Service.

End StoreFacts.

Module VectorStoreFacts.
Import Py PyFacts Fmt EmbeddingService EmbeddingServiceFacts.
Import BatchFacts StoreFacts VectorStore.

Section Store.

Variable scalar : Type.

#[local] Abbreviation echunk := (EmbeddingFiles.embedded_chunk scalar).
#[local] Abbreviation edata := (EmbeddingFiles.embedded_data scalar).
#[local] Abbreviation add_file :=
  (@add_embeddings_from_file scalar (recorder scalar) (@record_add scalar)).
#[local] Abbreviation slices l :=
  (map (fun i => slice i (i + 100) l) (range0 (Z.of_nat (length l)) 100)).

Lemma add_loop_record (idxs : list Z) (ids : list str)
      (embeddings : list (list scalar)) (documents : list str)
      (metadatas : list (metadata)) (total : nat) (c : recorder scalar) :
  exists total',
    add_loop (@record_add scalar) idxs 100 ids embeddings documents metadatas
             total c
    = (Ok total',
       c ++ map (fun i => mkBatch (slice i (i + 100) ids)
                                  (slice i (i + 100) embeddings)
                                  (slice i (i + 100) documents)
                                  (slice i (i + 100) metadatas)) idxs).
Proof.
  revert total c; induction idxs as [|i idxs IH]; intros total c.
  - exists total. simpl. now rewrite app_nil_r.
  - cbn [add_loop record_add].
    destruct (IH (total + length (slice i (i + 100) ids))
                 (c ++ [mkBatch (slice i (i + 100) ids)
                                (slice i (i + 100) embeddings)
                                (slice i (i + 100) documents)
                                (slice i (i + 100) metadatas)]))
      as (total' & E).
    exists total'. cbn [batch_ids]. rewrite E. simpl. now rewrite <- app_assoc.
Qed.

Lemma concat_slices_100 (A : Type) (l : list A) : concat (slices l) = l.
Proof. change 100%Z with (Z.of_nat 100). apply concat_slices. lia. Qed.

Lemma store_batches_ids (stem : str) (data : edata) (c : recorder scalar) :
  exists calls,
    add_file stem data c = (Ok tt, c ++ calls)
    /\ concat (map (@batch_ids scalar) calls)
       = map (make_id stem) (valid_chunks data).
Proof.
  unfold add_embeddings_from_file. cbv zeta.
  destruct (valid_chunks data) as [|v vs] eqn:Ev.
  - exists []. cbn. rewrite app_nil_r. now split.
  - cbn [truthy_list negb].
    destruct (add_loop_record
                (range0 (Z.of_nat (length (map (make_id stem) (v :: vs)))) 100)
                (map (make_id stem) (v :: vs))
                (map (@EmbeddingFiles.embedding scalar) (v :: vs))
                (map (fun chunk => TextChunker.text (EmbeddingFiles.chunk chunk))
                     (v :: vs))
                (map (@make_metadata scalar) (v :: vs)) 0 c) as (total' & E).
    rewrite E. eexists. split; [reflexivity|].
    rewrite map_map. cbn [batch_ids]. apply concat_slices_100.
Qed.

(** X17: [add_embeddings_from_file] hands the collection every chunk
    that has a non-empty embedding, once and in order, and nothing else:
    put end to end, the ids, embeddings, documents and metadata of the
    successive [collection.add] calls are those of these chunks.  A file
    without any such chunk causes no call. *)
Theorem store_receives_the_valid_chunks
        (stem : str) (data : edata) (c : recorder scalar) :
  exists calls,
    add_file stem data c = (Ok tt, c ++ calls)
    /\ concat (map (@batch_ids scalar) calls)
       = map (make_id stem) (valid_chunks data)
    /\ concat (map (@batch_embeddings scalar) calls)
       = map (@EmbeddingFiles.embedding scalar) (valid_chunks data)
    /\ concat (map (@batch_documents scalar) calls)
       = map (fun chunk => TextChunker.text (EmbeddingFiles.chunk chunk))
             (valid_chunks data)
    /\ concat (map (@batch_metadatas scalar) calls)
       = map (@make_metadata scalar) (valid_chunks data)
    /\ (valid_chunks data = [] -> calls = []).
Proof.
  unfold add_embeddings_from_file. cbv zeta.
  destruct (valid_chunks data) as [|v vs] eqn:Ev.
  - exists []. cbn. rewrite app_nil_r. repeat split.
  - cbn [truthy_list negb]. rewrite <- Ev.
    set (ids := map (make_id stem) (valid_chunks data)).
    set (es := map (@EmbeddingFiles.embedding scalar) (valid_chunks data)).
    set (ds := map (fun chunk => TextChunker.text (EmbeddingFiles.chunk chunk))
                   (valid_chunks data)).
    set (ms := map (@make_metadata scalar) (valid_chunks data)).
    destruct (add_loop_record (range0 (Z.of_nat (length ids)) 100)
                              ids es ds ms 0 c) as (total' & E).
    rewrite E. eexists. split; [reflexivity|].
    assert (Hl : forall A (l : list A), length l = length ids ->
                   range0 (Z.of_nat (length ids)) 100
                   = range0 (Z.of_nat (length l)) 100)
      by (intros A l ->; reflexivity).
    rewrite !map_map. cbn [batch_ids batch_embeddings batch_documents batch_metadatas].
    split; [apply concat_slices_100|].
    split; [rewrite (Hl _ es) by (unfold es, ids; now rewrite !length_map);
            apply concat_slices_100|].
    split; [rewrite (Hl _ ds) by (unfold ds, ids; now rewrite !length_map);
            apply concat_slices_100|].
    split; [rewrite (Hl _ ms) by (unfold ms, ids; now rewrite !length_map);
            apply concat_slices_100|].
    rewrite Ev. discriminate.
Qed.

(** X18: no [collection.add] is empty or holds more than 100 items, and
    the four lists of a call have the same length. *)
Theorem store_batches_are_well_formed
        (stem : str) (data : edata) (c : recorder scalar) :
  exists calls,
    add_file stem data c = (Ok tt, c ++ calls)
    /\ Forall (fun b =>
                 1 <= length (batch_ids b) <= 100
                 /\ length (batch_embeddings b) = length (batch_ids b)
                 /\ length (batch_documents b) = length (batch_ids b)
                 /\ length (batch_metadatas b) = length (batch_ids b))
              calls.
Proof.
  unfold add_embeddings_from_file. cbv zeta.
  destruct (valid_chunks data) as [|v vs] eqn:Ev.
  - exists []. cbn. rewrite app_nil_r. split; [reflexivity|constructor].
  - cbn [truthy_list negb]. rewrite <- Ev.
    set (ids := map (make_id stem) (valid_chunks data)).
    set (es := map (@EmbeddingFiles.embedding scalar) (valid_chunks data)).
    set (ds := map (fun chunk => TextChunker.text (EmbeddingFiles.chunk chunk))
                   (valid_chunks data)).
    set (ms := map (@make_metadata scalar) (valid_chunks data)).
    destruct (add_loop_record (range0 (Z.of_nat (length ids)) 100)
                              ids es ds ms 0 c) as (total' & E).
    rewrite E. eexists. split; [reflexivity|].
    apply Forall_forall. intros b Hb.
    apply in_map_iff in Hb as (i & <- & Hi). cbn.
    assert (Hs : forall A (l : list A), length l = length ids ->
              length (slice i (i + 100) l) = length (slice i (i + 100) ids)
              /\ 1 <= length (slice i (i + 100) ids) <= 100).
    { intros A l Hl. change 100%Z with (Z.of_nat 100) in *.
      destruct (slices_sizes _ ids 100 i ltac:(lia) Hi) as [E1 Hb1].
      rewrite <- Hl in Hi.
      destruct (slices_sizes _ l 100 i ltac:(lia) Hi) as [E2 _].
      split; [rewrite E1, E2, Hl; reflexivity|exact Hb1]. }
    destruct (Hs _ es ltac:(unfold es, ids; now rewrite !length_map)) as [He Hb1].
    destruct (Hs _ ds ltac:(unfold ds, ids; now rewrite !length_map)) as [Hd _].
    destruct (Hs _ ms ltac:(unfold ms, ids; now rewrite !length_map)) as [Hm _].
    auto.
Qed.

Lemma make_id_injective (stem : str) (n m : nat) :
  stem ++ lit "_" ++ str_of_nat n = stem ++ lit "_" ++ str_of_nat m -> n = m.
Proof.
  intro H. apply app_inv_head in H. apply app_inv_head in H.
  now apply str_of_nat_injective.
Qed.

(** X19: the ids sent to the collection are pairwise distinct whenever
    the chunks of the file have pairwise distinct [chunk_id]s, as the
    chunks of one document have. *)
Theorem store_ids_are_distinct
        (stem : str) (data : edata) (c : recorder scalar) :
  NoDup (map (fun ch => TextChunker.chunk_id (EmbeddingFiles.chunk ch))
             (EmbeddingFiles.chunks data)) ->
  exists calls,
    add_file stem data c = (Ok tt, c ++ calls)
    /\ NoDup (concat (map (@batch_ids scalar) calls)).
Proof.
  intro Hnd.
  destruct (store_batches_ids stem data c) as (calls & E & Hids).
  exists calls. split; [exact E|]. rewrite Hids.
  unfold make_id.
  rewrite <- (map_map (fun ch => TextChunker.chunk_id (EmbeddingFiles.chunk ch))
                      (fun n => stem ++ lit "_" ++ str_of_nat n)).
  apply NoDup_map_injective; [apply make_id_injective|].
  unfold valid_chunks. now apply distinct_keys_filter.
Qed.

(** *** From the chunks file to the collection *)

Variable model : str.
Variable create : Z -> list str -> option (list (list scalar)).

#[local] Abbreviation process :=
  (@EmbeddingFiles.process_chunks_file scalar model create).

Lemma blocks_all_empty (texts : list str) (idxs : list Z) :
  (forall i batch, create i batch = None) ->
  Forall (fun e => e = []) (concat (map (block create texts 100) idxs)).
Proof.
  intro Hdown. induction idxs as [|i idxs IH]; [constructor|].
  simpl. apply Forall_app. split; [|exact IH].
  unfold block. cbv zeta. rewrite Hdown.
  apply Forall_forall. intros e He.
  now apply in_map_iff in He as (t & <- & _).
Qed.

Lemma filter_all_false (A : Type) (p : A -> bool) (l : list A) :
  Forall (fun x => p x = false) l -> filter p l = [].
Proof.
  induction 1 as [|x l Hx _ IH]; [reflexivity|]. simpl. now rewrite Hx.
Qed.

Lemma filter_all_true (A : Type) (p : A -> bool) (l : list A) :
  Forall (fun x => p x = true) l -> filter p l = l.
Proof.
  induction 1 as [|x l Hx _ IH]; [reflexivity|]. simpl. rewrite Hx.
  now f_equal.
Qed.

(** X20: the number of documents [add_embeddings_from_file] sends to the
    collection is the [total_embeddings] that [process_chunks_file]
    reported for the same file, when the client answers each batch with
    one embedding per text. *)
Theorem stored_documents_match_embedding_info
        (stem : str) (data : ChunkerFiles.chunk_data) (c : recorder scalar) :
  (forall i batch es, create i batch = Some es -> length es = length batch) ->
  exists out calls,
    process data = Some out
    /\ add_file stem out c = (Ok tt, c ++ calls)
    /\ length (concat (map (@batch_ids scalar) calls))
       = EmbeddingFiles.total_embeddings (EmbeddingFiles.info out)
    /\ length (concat (map (@batch_ids scalar) calls))
       + EmbeddingFiles.failed_embeddings (EmbeddingFiles.info out)
       = length (ChunkerFiles.chunks data).
Proof.
  intro Hone.
  pose proof (generate_unfold scalar create
                (map (@TextChunker.text _) (ChunkerFiles.chunks data))) as Hgen.
  pose proof (generate_length scalar create
                (map (@TextChunker.text _) (ChunkerFiles.chunks data)) Hone)
    as Hlen.
  pose proof (eq_trans Hlen (length_map _ _)) as Hlen'.
  destruct (process_spec scalar model create data _ Hgen Hlen')
    as (out & Ho & _ & He & _ & Ht & Hf & _).
  clear Hlen. rename Hlen' into Hlen.
  destruct (store_batches_ids stem out c) as (calls & Ec & Hids).
  exists out, calls. split; [exact Ho|]. split; [exact Ec|].
  rewrite Hids, length_map, Ht, Hf. unfold valid_chunks.
  unfold EmbeddingFiles.count_truthy, EmbeddingFiles.count_falsy.
  rewrite <- Hlen. clear Hlen Hgen Ht Hf Hids Ec Ho.
  rewrite <- He. clear He.
  rewrite !filter_map_length, length_map.
  split; [reflexivity|].
  generalize (EmbeddingFiles.chunks out). intro l.
  induction l as [|x l IH]; [reflexivity|]. simpl.
  destruct (truthy_list (EmbeddingFiles.embedding x)); simpl; lia.
Qed.

(** X21: when every call to the embeddings client raises,
    [process_chunks_file] still returns: each chunk gets the empty
    embedding, [total_embeddings] is 0 and [failed_embeddings] is the
    number of chunks; [add_embeddings_from_file] on that result never
    calls [collection.add], whatever the collection is. *)
Theorem client_down_stores_nothing
        (stem : str) (data : ChunkerFiles.chunk_data)
        (Collection : Type)
        (collection_add : batch scalar -> Collection -> option Collection)
        (collection : Collection) :
  (forall i batch, create i batch = None) ->
  exists out,
    process data = Some out
    /\ map (@EmbeddingFiles.chunk scalar) (EmbeddingFiles.chunks out)
       = ChunkerFiles.chunks data
    /\ Forall (fun ch => EmbeddingFiles.embedding ch = [])
              (EmbeddingFiles.chunks out)
    /\ EmbeddingFiles.total_embeddings (EmbeddingFiles.info out) = 0
    /\ EmbeddingFiles.failed_embeddings (EmbeddingFiles.info out)
       = length (ChunkerFiles.chunks data)
    /\ add_embeddings_from_file collection_add stem out collection
       = (Ok tt, collection).
Proof.
  intro Hdown.
  assert (Hone : forall i batch es,
             create i batch = Some es -> length es = length batch)
    by (intros i b es H; rewrite Hdown in H; discriminate).
  pose proof (generate_unfold scalar create
                (map (@TextChunker.text _) (ChunkerFiles.chunks data))) as Hgen.
  pose proof (generate_length scalar create
                (map (@TextChunker.text _) (ChunkerFiles.chunks data)) Hone)
    as Hlen.
  pose proof (eq_trans Hlen (length_map _ _)) as Hlen'.
  clear Hlen. rename Hlen' into Hlen.
  pose proof (blocks_all_empty
                (map (@TextChunker.text _) (ChunkerFiles.chunks data))
                (range0 (Z.of_nat (length (map (@TextChunker.text _)
                                               (ChunkerFiles.chunks data)))) 100)
                Hdown) as Hall.
  destruct (process_spec scalar model create data _ Hgen Hlen)
    as (out & Ho & Hc & He & _ & Ht & Hf & _).
  rewrite <- He in Hall.
  assert (Hall' : Forall (fun ch => EmbeddingFiles.embedding ch = [])
                         (EmbeddingFiles.chunks out)).
  { apply Forall_forall. intros ch Hch.
    rewrite Forall_forall in Hall. apply Hall. now apply in_map. }
  exists out. split; [exact Ho|]. split; [exact Hc|]. split; [exact Hall'|].
  unfold EmbeddingFiles.count_truthy in Ht.
  unfold EmbeddingFiles.count_falsy in Hf.
  rewrite <- He in Ht, Hf.
  rewrite filter_all_false in Ht
    by (apply Forall_forall; intros e Hin; rewrite Forall_forall in Hall;
        now rewrite (Hall e Hin)).
  rewrite filter_all_true in Hf
    by (apply Forall_forall; intros e Hin; rewrite Forall_forall in Hall;
        now rewrite (Hall e Hin)).
  split; [exact Ht|].
  split; [rewrite Hf, <- Hc, !length_map; reflexivity|].
  unfold add_embeddings_from_file. cbv zeta. unfold valid_chunks.
  rewrite filter_all_false; [reflexivity|].
  apply Forall_forall. intros ch Hch. rewrite Forall_forall in Hall'.
  now rewrite (Hall' ch Hch).
Qed.

End Store.

End VectorStoreFacts.

(* ================================================================= *)
(** ** Facts about [process_all.main] *)

Module ProcessAllFacts.
Import Py Fmt ProcessAll.

Section Flow.

Variables World File : Type.

#[local] Abbreviation run A := (flow A * World * list (call File))%type.

Lemma bind_inv (A B : Type) (m : M World File A) (k : A -> M World File B)
      (w w' : World) (r : flow B) (t : list (call File)) :
  bind m k w = (r, w', t) ->
  (exists a w1 t1 t2,
      m w = (Value a, w1, t1) /\ k a w1 = (r, w', t2) /\ t = t1 ++ t2)
  \/ (exists code, m w = (Return code, w', t) /\ r = Return code)
  \/ (m w = (Raise, w', t) /\ r = Raise).
Proof.
  unfold bind. destruct (m w) as [[[a|code|] w1] t1].
  - destruct (k a w1) as [[r2 w2] t2] eqn:Ek. intro H. injection H as <- <- <-.
    left. exists a, w1, t1, t2. repeat split. exact Ek.
  - intro H. injection H as <- <- <-. right. left. exists code.
    split; reflexivity.
  - intro H. injection H as <- <- <-. right. right. split; reflexivity.
Qed.

Lemma lift_inv (A : Type) (log : list (call File)) (f : ext World A)
      (w w' : World) (r : flow A) (t : list (call File)) :
  lift log f w = (r, w', t) ->
  t = log /\ (r = Raise \/ exists a, r = Value a).
Proof.
  unfold lift. destruct (f w) as [[a|] w1]; intro H; injection H as <- <- <-;
    (split; [reflexivity|]); [right; now exists a|now left].
Qed.

(** *** Rules for [only] and [returns_only_1] *)

Section Rules.

Variable P : call File -> Prop.

Lemma only_ret (A : Type) (a : A) : only P (ret File a : M World File A).
Proof. intro w. constructor. Qed.

Lemma only_return (A : Type) (code : Z) :
  only P (return_ File code : M World File A).
Proof. intro w. constructor. Qed.

Lemma only_raise (A : Type) : only P (raise_ File : M World File A).
Proof. intro w. constructor. Qed.

Lemma only_lift (A : Type) (log : list (call File)) (f : ext World A) :
  Forall P log -> only P (lift log f).
Proof.
  intros H w. unfold trace, lift. now destruct (f w) as [[a|] w1].
Qed.

Lemma only_bind (A B : Type) (m : M World File A) (k : A -> M World File B) :
  only P m -> (forall a, only P (k a)) -> only P (bind m k).
Proof.
  intros Hm Hk w. specialize (Hm w). unfold trace, bind in *.
  destruct (m w) as [[[a|code|] w1] t1]; simpl in *; try exact Hm.
  specialize (Hk a w1). unfold trace in Hk.
  destruct (k a w1) as [[r2 w2] t2]. simpl in *. apply Forall_app. now split.
Qed.

Lemma only_try (A : Type) (m h : M World File A) :
  only P m -> only P h -> only P (try_ m h).
Proof.
  intros Hm Hh w. specialize (Hm w). unfold trace, try_ in *.
  destruct (m w) as [[[a|code|] w1] t1]; simpl in *; try exact Hm.
  specialize (Hh w1). unfold trace in Hh.
  destruct (h w1) as [[r2 w2] t2]. simpl in *. apply Forall_app. now split.
Qed.

Lemma only_for_each (A : Type) (l : list A) (body : A -> M World File unit) :
  (forall x, only P (body x)) -> only P (for_each l body).
Proof.
  intro Hb. induction l as [|x l IH]; simpl.
  - apply only_ret.
  - apply only_bind; [apply Hb|intros _; exact IH].
Qed.

End Rules.

Lemma r1_ret (A : Type) (a : A) : returns_only_1 (ret File a : M World File A).
Proof. intros w code H. discriminate. Qed.

Lemma r1_return (A : Type) :
  returns_only_1 (return_ File 1%Z : M World File A).
Proof. intros w code H. now injection H as <-. Qed.

Lemma r1_raise (A : Type) : returns_only_1 (raise_ File : M World File A).
Proof. intros w code H. discriminate. Qed.

Lemma r1_lift (A : Type) (log : list (call File)) (f : ext World A) :
  returns_only_1 (lift log f).
Proof.
  intros w code. unfold outcome, lift.
  destruct (f w) as [[a|] w1]; discriminate.
Qed.

Lemma r1_bind (A B : Type) (m : M World File A) (k : A -> M World File B) :
  returns_only_1 m -> (forall a, returns_only_1 (k a)) ->
  returns_only_1 (bind m k).
Proof.
  intros Hm Hk w code. specialize (Hm w). unfold outcome, bind in *.
  destruct (m w) as [[[a|c|] w1] t1]; simpl in *.
  - specialize (Hk a w1 code). unfold outcome in Hk.
    destruct (k a w1) as [[r2 w2] t2]. exact Hk.
  - intro H. injection H as <-. now apply Hm.
  - discriminate.
Qed.

Lemma r1_try (A : Type) (m h : M World File A) :
  returns_only_1 m -> returns_only_1 h -> returns_only_1 (try_ m h).
Proof.
  intros Hm Hh w code. specialize (Hm w). unfold outcome, try_ in *.
  destruct (m w) as [[[a|c|] w1] t1]; simpl in *.
  - discriminate.
  - exact (Hm code).
  - specialize (Hh w1 code). unfold outcome in Hh.
    destruct (h w1) as [[r2 w2] t2]. exact Hh.
Qed.

Lemma r1_for_each (A : Type) (l : list A) (body : A -> M World File unit) :
  (forall x, returns_only_1 (body x)) -> returns_only_1 (for_each l body).
Proof.
  intro Hb. induction l as [|x l IH]; simpl.
  - apply r1_ret.
  - apply r1_bind; [apply Hb|intros _; exact IH].
Qed.

End Flow.

#[local] Ltac flow_rules :=
  repeat first
    [ apply only_ret | apply only_return | apply only_raise
    | apply only_lift; repeat constructor
    | apply only_bind; [|intro]
    | apply only_try
    | apply only_for_each; intro
    | apply r1_ret | apply r1_return | apply r1_raise | apply r1_lift
    | apply r1_bind; [|intro]
    | apply r1_try
    | apply r1_for_each; intro
    | match goal with
      | |- only _ (if ?b then _ else _) => destruct b
      | |- only _ (match ?x with _ => _ end) => destruct x
      | |- returns_only_1 (if ?b then _ else _) => destruct b
      | |- returns_only_1 (match ?x with _ => _ end) => destruct x
      end ].

Section Main.

Variables World File Chunks Data : Type.
Variable has_api_key : World -> bool.
Variable make_dirs : ext World unit.
Variable new_extractor new_chunker new_embedding_service new_vector_store
  : ext World unit.
Variable process_all_pdfs : ext World bool.
Variable glob_extracted glob_chunks glob_embeddings : ext World (list File).
Variable process_extracted_json : File -> ext World Chunks.
Variable save_chunks : Chunks -> File -> ext World unit.
Variable process_chunks_file : File -> ext World Data.
Variable save_embeddings : Data -> File -> ext World unit.
Variable embedding_info : Data -> option (nat * nat).
Variable reset_collection : ext World unit.
Variable get_collection_stats : ext World nat.
Variable add_embeddings_from_file : File -> ext World unit.

#[local] Abbreviation step1' :=
  (@step1 World File new_extractor process_all_pdfs).
#[local] Abbreviation step2' :=
  (@step2 World File Chunks new_chunker glob_extracted
          process_extracted_json save_chunks).
#[local] Abbreviation step3' :=
  (@step3 World File Data new_embedding_service glob_chunks
          process_chunks_file save_embeddings embedding_info).
#[local] Abbreviation step4' :=
  (@step4 World File new_vector_store glob_embeddings reset_collection
          get_collection_stats add_embeddings_from_file).
#[local] Abbreviation main' :=
  (@main World File Chunks Data has_api_key make_dirs new_extractor
         new_chunker new_embedding_service new_vector_store
         process_all_pdfs glob_extracted glob_chunks glob_embeddings
         process_extracted_json save_chunks process_chunks_file
         save_embeddings embedding_info reset_collection
         get_collection_stats add_embeddings_from_file).
#[local] Abbreviation in_stage n := (fun c : call File => stage c = n).

Lemma step1_only (a : args) : only (in_stage 1) (step1' a).
Proof. unfold step1. flow_rules. Qed.

Lemma step2_only (a : args) : only (in_stage 2) (step2' a).
Proof. unfold step2. flow_rules. Qed.

Lemma step3_only (a : args) : only (in_stage 3) (step3' a).
Proof. unfold step3. flow_rules. Qed.

Lemma step1_r1 (a : args) : returns_only_1 (step1' a).
Proof. unfold step1. flow_rules. Qed.

Lemma step2_r1 (a : args) : returns_only_1 (step2' a).
Proof. unfold step2. flow_rules. Qed.

Lemma step3_r1 (a : args) : returns_only_1 (step3' a).
Proof. unfold step3. flow_rules. Qed.

Lemma for_each_lift_outcome (A : Type) (l : list A)
      (log : A -> list (call File)) (f : A -> ext World unit) (w : World) :
  outcome (for_each l (fun x => lift (log x) (f x)) w) = Value tt
  \/ outcome (for_each l (fun x => lift (log x) (f x)) w) = Raise.
Proof.
  revert w; induction l as [|x l IH]; intro w; [now left|].
  cbn [for_each]. unfold bind.
  destruct (lift (log x) (f x) w) as [[[u|c|] w1] t1] eqn:E.
  - specialize (IH w1). unfold outcome in IH |- *.
    destruct (for_each l _ w1) as [[r2 w2] t2]. exact IH.
  - apply lift_inv in E as [_ [E|[u E]]]; discriminate.
  - now right.
Qed.

Lemma step4_cases (a : args) (w : World) :
  outcome (step4' a w) = Return 1%Z
  \/ (outcome (step4' a w) = Return 0%Z
      /\ reset_vector_store a = false
      /\ trace (step4' a w) = [GetCollectionStats File; GetCollectionStats File]).
Proof.
  unfold step4, try_, bind, lift, ret, return_, outcome, trace.
  destruct (new_vector_store w) as [[[]|] w1]; [|left; reflexivity].
  assert (Hloop : forall efs w5,
             match for_each efs
                     (fun embedding_file =>
                        lift [AddEmbeddingsFromFile embedding_file]
                             (add_embeddings_from_file embedding_file)) w5
             with
             | (Return code, _, _) => False
             | _ => True
             end).
  { intros efs w5.
    destruct (for_each_lift_outcome File efs
                (fun f => [AddEmbeddingsFromFile f])
                add_embeddings_from_file w5) as [E|E];
      unfold outcome in E;
      destruct (for_each efs _ w5) as [[r5 w6] t6]; simpl in E; now subst. }
  unfold lift in Hloop.
  destruct (reset_vector_store a) eqn:Er.
  - destruct (reset_collection w1) as [[[]|] w2]; [|left; reflexivity].
    destruct (glob_embeddings w2) as [[efs|] w3]; [|left; reflexivity].
    destruct efs as [|f efs]; [left; reflexivity|]. cbn [null].
    destruct (get_collection_stats w3) as [[n|] w4]; [|left; reflexivity].
    rewrite andb_false_r. specialize (Hloop (f :: efs) w4).
    destruct (for_each (f :: efs) _ w4) as [[[[]|code|] w5] t5];
      [|destruct Hloop|left; reflexivity].
    destruct (get_collection_stats w5) as [[n'|] w6]; left; reflexivity.
  - destruct (glob_embeddings w1) as [[efs|] w3]; [|left; reflexivity].
    destruct efs as [|f efs]; [left; reflexivity|]. cbn [null].
    destruct (get_collection_stats w3) as [[n|] w4]; [|left; reflexivity].
    rewrite andb_true_r. destruct (0 <? n).
    + destruct (get_collection_stats w4) as [[n'|] w5]; [|left; reflexivity].
      right. repeat split.
    + specialize (Hloop (f :: efs) w4).
      destruct (for_each (f :: efs) _ w4) as [[[[]|code|] w5] t5];
        [|destruct Hloop|left; reflexivity].
      destruct (get_collection_stats w5) as [[n'|] w6]; left; reflexivity.
Qed.

(** The one way [step4] has to return 0. *)
Lemma step4_success (a : args) (w3 w' : World) (t4 : list (call File)) :
  step4' a w3 = (Return 0%Z, w', t4) ->
  reset_vector_store a = false
  /\ t4 = [GetCollectionStats File; GetCollectionStats File]
  /\ exists w4 w5 w6 efs n n',
      new_vector_store w3 = (Some tt, w4)
      /\ glob_embeddings w4 = (Some efs, w5) /\ efs <> []
      /\ get_collection_stats w5 = (Some n, w6) /\ 0 < n
      /\ get_collection_stats w6 = (Some n', w').
Proof.
  unfold step4, try_, bind, lift, ret, return_.
  destruct (new_vector_store w3) as [[[]|] w4] eqn:Ev; [|discriminate].
  assert (Hloop : forall efs w5,
             match for_each efs
                     (fun embedding_file =>
                        lift [AddEmbeddingsFromFile embedding_file]
                             (add_embeddings_from_file embedding_file)) w5
             with
             | (Return code, _, _) => False
             | _ => True
             end).
  { intros efs w5.
    destruct (for_each_lift_outcome File efs
                (fun f => [AddEmbeddingsFromFile f])
                add_embeddings_from_file w5) as [E|E];
      unfold outcome in E;
      destruct (for_each efs _ w5) as [[r5 w6] t6]; simpl in E; now subst. }
  unfold lift in Hloop.
  destruct (reset_vector_store a) eqn:Er.
  - destruct (reset_collection w4) as [[[]|] w2]; [|discriminate].
    destruct (glob_embeddings w2) as [[efs|] w5]; [|discriminate].
    destruct efs as [|f efs]; [discriminate|]. cbn [null].
    destruct (get_collection_stats w5) as [[n|] w6]; [|discriminate].
    rewrite andb_false_r. specialize (Hloop (f :: efs) w6).
    destruct (for_each (f :: efs) _ w6) as [[[[]|code|] w7] t7];
      [|destruct Hloop|discriminate].
    destruct (get_collection_stats w7) as [[n'|] w8]; discriminate.
  - destruct (glob_embeddings w4) as [[efs|] w5] eqn:Eg; [|discriminate].
    destruct efs as [|f efs]; [discriminate|]. cbn [null].
    destruct (get_collection_stats w5) as [[n|] w6] eqn:En; [|discriminate].
    rewrite andb_true_r. destruct (0 <? n) eqn:Hn.
    + destruct (get_collection_stats w6) as [[n'|] w7] eqn:En';
        [|discriminate].
      intro H. injection H as <- <-.
      split; [reflexivity|]. split; [reflexivity|].
      exists w4, w5, w6, (f :: efs), n, n'.
      repeat split; try assumption; try discriminate.
      now apply Nat.ltb_lt.
    + specialize (Hloop (f :: efs) w6).
      destruct (for_each (f :: efs) _ w6) as [[[[]|code|] w7] t7];
        [|destruct Hloop|discriminate].
      destruct (get_collection_stats w7) as [[n'|] w8]; discriminate.
Qed.

Lemma step4_only (a : args) : only (in_stage 4) (step4' a).
Proof. unfold step4. flow_rules. Qed.

Lemma stage_run (n : nat) (m : M World File unit) (w w' : World)
      (r : flow unit) (t : list (call File)) :
  only (in_stage n) m -> returns_only_1 m -> m w = (r, w', t) ->
  Forall (in_stage n) t /\ (r = Return 1%Z \/ r = Raise \/ r = Value tt).
Proof.
  intros Ho Hr E. specialize (Ho w). specialize (Hr w).
  rewrite E in Ho, Hr. unfold trace, outcome in *. simpl in *.
  split; [exact Ho|]. destruct r as [[]|code|]; auto.
  left. now rewrite (Hr code eq_refl).
Qed.

Lemma step1_skipped (a : args) (w : World) :
  skip_extraction a = true -> step1' a w = (Value tt, w, []).
Proof. intro H. unfold step1. now rewrite H. Qed.

Lemma step2_skipped (a : args) (w : World) :
  skip_chunking a = true -> step2' a w = (Value tt, w, []).
Proof. intro H. unfold step2. now rewrite H. Qed.

Lemma step3_skipped (a : args) (w : World) :
  skip_embeddings a = true -> step3' a w = (Value tt, w, []).
Proof. intro H. unfold step3. now rewrite H. Qed.

Lemma seq_inv (n : nat) (m k : M World File unit) (w w' : World)
      (r : flow unit) (t : list (call File)) :
  only (in_stage n) m -> returns_only_1 m ->
  bind m (fun _ => k) w = (r, w', t) ->
  exists mr wm tm tk,
    m w = (mr, wm, tm) /\ t = tm ++ tk /\ Forall (in_stage n) tm
    /\ (((r = Return 1%Z \/ r = Raise) /\ tk = [])
        \/ (mr = Value tt /\ k wm = (r, w', tk))).
Proof.
  intros Ho Hr H.
  apply bind_inv in H as [(u & w1 & t1 & t2 & H1 & H & ->)
                         |[(c & H1 & ->)|(H1 & ->)]];
    destruct (stage_run n m _ _ _ _ Ho Hr H1) as [F R].
  - destruct u. exists (Value tt), w1, t1, t2. repeat split; auto.
  - exists (Return c), w', t, []. rewrite app_nil_r. repeat split; auto.
    left. split; [|reflexivity].
    destruct R as [R|[R|R]]; try discriminate. now left.
  - exists Raise, w', t, []. rewrite app_nil_r. repeat split; auto.
Qed.

Lemma lift_only_nothing (n : nat) (f : ext World unit) :
  only (in_stage n) (lift (File:=File) [] f).
Proof. apply only_lift. constructor. Qed.

(** How a run of [main] decomposes: the calls of the four steps in
    order, and how it ended. *)
Lemma main_inv (a : args) (w w' : World) (r : flow unit)
      (t : list (call File)) :
  main' a w = (r, w', t) ->
  exists t1 t2 t3 t4,
    t = t1 ++ t2 ++ t3 ++ t4
    /\ (Forall (in_stage 1) t1 /\ Forall (in_stage 2) t2
        /\ Forall (in_stage 3) t3 /\ Forall (in_stage 4) t4)
    /\ ((skip_extraction a = true -> t1 = [])
        /\ (skip_chunking a = true -> t2 = [])
        /\ (skip_embeddings a = true -> t3 = []))
    /\ (((r = Return 1%Z \/ r = Raise) /\ t4 = [])
        \/ ((exists w3 w3', step3' a w3 = (Value tt, w3', t3))
            /\ (r = Return 1%Z
                \/ (r = Return 0%Z /\ reset_vector_store a = false
                    /\ t4 = [GetCollectionStats File;
                             GetCollectionStats File])))).
Proof.
  unfold main.
  destruct (negb (has_api_key w) && negb (skip_embeddings a)).
  { intro H. injection H as <- <- <-. exists [], [], [], [].
    repeat split; auto. }
  intro H.
  apply (seq_inv 0) in H
      as (r0 & w0 & t0 & k0 & E0 & -> & _ & H);
    [|apply lift_only_nothing|apply r1_lift].
  apply lift_inv in E0 as [-> _]. cbn [app].
  destruct H as [[R ->]|[-> H]].
  { exists [], [], [], []. repeat split; auto. }
  apply (seq_inv 1) in H
      as (r1 & w1 & t1 & k1 & E1 & -> & F1 & H);
    [|apply step1_only|apply step1_r1].
  assert (S1 : skip_extraction a = true -> t1 = []).
  { intro Hs. rewrite (step1_skipped a w0 Hs) in E1.
    now injection E1 as <- <- <-. }
  destruct H as [[R ->]|[-> H]].
  { exists t1, [], [], []. repeat split; auto. }
  apply (seq_inv 2) in H
      as (r2 & w2 & t2 & k2 & E2 & -> & F2 & H);
    [|apply step2_only|apply step2_r1].
  assert (S2 : skip_chunking a = true -> t2 = []).
  { intro Hs. rewrite (step2_skipped a w1 Hs) in E2.
    now injection E2 as <- <- <-. }
  destruct H as [[R ->]|[-> H]].
  { exists t1, t2, [], []. repeat split; auto. }
  apply (seq_inv 3) in H
      as (r3 & w3 & t3 & k3 & E3 & -> & F3 & H);
    [|apply step3_only|apply step3_r1].
  assert (S3 : skip_embeddings a = true -> t3 = []).
  { intro Hs. rewrite (step3_skipped a w2 Hs) in E3.
    now injection E3 as <- <- <-. }
  destruct H as [[R ->]|[-> H]].
  { exists t1, t2, t3, []. repeat split; auto. }
  exists t1, t2, t3, k3. split; [reflexivity|].
  pose proof (step4_cases a w3) as C. pose proof (step4_only a w3) as F4.
  unfold outcome, trace in C, F4.
  apply bind_inv in H as [(u & w4 & t4 & t5 & H4 & _ & ->)
                         |[(c & H4 & ->)|(H4 & ->)]];
    rewrite H4 in C, F4; simpl in C, F4.
  - destruct C as [C|[C _]]; discriminate.
  - repeat split; auto. right. split; [now exists w2, w3|].
    destruct C as [C|(C & Hr & Ht)]; [left|right]; auto.
  - destruct C as [C|[C _]]; discriminate.
Qed.

Lemma stage_4_at_end (c : call File) (t1 t2 t3 t4 : list (call File)) :
  Forall (in_stage 1) t1 -> Forall (in_stage 2) t2 ->
  Forall (in_stage 3) t3 -> stage c = 4 ->
  In c (t1 ++ t2 ++ t3 ++ t4) -> In c t4.
Proof.
  intros F1 F2 F3 Hc Hin. rewrite Forall_forall in F1, F2, F3.
  repeat (apply in_app_or in Hin as [Hin|Hin]); try exact Hin;
    [apply F1 in Hin|apply F2 in Hin|apply F3 in Hin]; congruence.
Qed.

Lemma step3_stuck (a : args) (w w' : World) (t : list (call File)) :
  (forall f w, fst (process_chunks_file f w) = None) ->
  skip_embeddings a = false ->
  step3' a w <> (Value tt, w', t).
Proof.
  intros Hdown Hs. unfold step3. rewrite Hs. cbn [negb].
  unfold bind at 1. unfold lift at 1.
  destruct (new_embedding_service w) as [[[]|] w1]; [|discriminate].
  unfold bind at 1. unfold lift at 1.
  destruct (glob_chunks w1) as [[fs|] w2]; [|discriminate].
  destruct fs as [|f fs]; [discriminate|]. cbn [null for_each].
  unfold bind at 1. unfold try_ at 1. unfold bind at 1. unfold lift at 1.
  specialize (Hdown f w2).
  destruct (process_chunks_file f w2) as [[d|] w3]; [discriminate|].
  discriminate.
Qed.

(** X22: whenever [main] resets the collection, adds an embeddings file
    to it or runs the search test, it returns 1: the search test that
    follows every update of the store calls
    [VectorStore.similarity_search], which raises. *)
Theorem store_update_ends_with_exit_code_1
        (a : args) (w w' : World) (r : flow unit) (t : list (call File)) :
  main' a w = (r, w', t) ->
  In (ResetCollection File) t
  \/ (exists f, In (AddEmbeddingsFromFile f) t)
  \/ In (SimilaritySearch File) t ->
  r = Return 1%Z.
Proof.
  intros H Hin.
  destruct (main_inv a w w' r t H)
    as (t1 & t2 & t3 & t4 & -> & (F1 & F2 & F3 & _) & _ & C).
  assert (Hc : exists c, In c t4 /\ stage c = 4
                         /\ c <> GetCollectionStats File).
  { destruct Hin as [Hin|[[f Hin]|Hin]];
      eexists; (split; [eapply stage_4_at_end; eauto; reflexivity|]);
      split; [reflexivity|discriminate| reflexivity|discriminate
             | reflexivity|discriminate]. }
  destruct Hc as (c & Hc & _ & Hne).
  destruct C as [[_ ->]|[_ [C|(_ & _ & ->)]]].
  - destruct Hc.
  - exact C.
  - destruct Hc as [E|[E|[]]]; now elim Hne.
Qed.

(** X23: [main] returns 0 only on the path that leaves a populated
    collection alone.  On such a run the key guard let it pass,
    [--reset-vector-store] was not given and the statements before step 4
    ran to their end; in the world they left, the vector store was
    opened, the glob found at least one embeddings file, the first
    [get_collection_stats] of the run reported at least one document,
    and the second one left the final world.  Those two are the only
    calls to the vector store, and the last calls of the run. *)
Theorem success_only_on_populated_store
        (a : args) (w w' : World) (t : list (call File)) :
  main' a w = (Return 0%Z, w', t) ->
  reset_vector_store a = false
  /\ (has_api_key w = true \/ skip_embeddings a = true)
  /\ exists t0 w3 w4 w5 w6 efs n n',
      bind (lift [] make_dirs)
           (fun _ => bind (step1' a)
                       (fun _ => bind (step2' a) (fun _ => step3' a))) w
      = (Value tt, w3, t0)
      /\ new_vector_store w3 = (Some tt, w4)
      /\ glob_embeddings w4 = (Some efs, w5) /\ efs <> []
      /\ get_collection_stats w5 = (Some n, w6) /\ 0 < n
      /\ get_collection_stats w6 = (Some n', w')
      /\ t = t0 ++ [GetCollectionStats File; GetCollectionStats File]
      /\ Forall (fun c => stage c < 4) t0.
Proof.
  unfold main.
  destruct (negb (has_api_key w) && negb (skip_embeddings a)) eqn:G;
    [discriminate|].
  intro H.
  assert (Hstop : forall P : Prop,
             (@Return unit 0%Z = Return 1%Z \/ @Return unit 0%Z = Raise) -> P).
  { intros P [E|E]; discriminate E. }
  apply (seq_inv 0) in H
      as (r0 & w0 & t0 & k0 & E0 & -> & _ & [[R _]|[-> H]]);
    [now apply Hstop| |apply lift_only_nothing|apply r1_lift].
  apply lift_inv in E0 as E0'. destruct E0' as [-> _].
  apply (seq_inv 1) in H
      as (r1 & w1 & t1 & k1 & E1 & -> & F1 & [[R _]|[-> H]]);
    [now apply Hstop| |apply step1_only|apply step1_r1].
  apply (seq_inv 2) in H
      as (r2 & w2 & t2 & k2 & E2 & -> & F2 & [[R _]|[-> H]]);
    [now apply Hstop| |apply step2_only|apply step2_r1].
  apply (seq_inv 3) in H
      as (r3 & w3 & t3 & k3 & E3 & -> & F3 & [[R _]|[-> H]]);
    [now apply Hstop| |apply step3_only|apply step3_r1].
  assert (H4 : step4' a w3 = (Return 0%Z, w', k3)).
  { pose proof (step4_cases a w3) as C. unfold outcome in C.
    apply bind_inv in H as [(u & w4 & t4 & t5 & H4 & _ & _)
                           |[(c & H4 & Hc)|(_ & Hc)]].
    - rewrite H4 in C. simpl in C. destruct C as [C|[C _]]; discriminate.
    - injection Hc as <-. exact H4.
    - discriminate Hc. }
  destruct (step4_success a w3 w' k3 H4)
    as (Hr & -> & w4 & w5 & w6 & efs & n & n' & Ev & Eg & Hefs & En & Hn & En').
  split; [exact Hr|]. split.
  { apply andb_false_iff in G as [G|G]; apply negb_false_iff in G; auto. }
  exists ([] ++ t1 ++ t2 ++ t3), w3, w4, w5, w6, efs, n, n'.
  split.
  { unfold bind. rewrite E0, E1, E2, E3. reflexivity. }
  repeat (split; [assumption|]).
  split; [now rewrite <- !app_assoc|].
  cbn [app]. repeat (apply Forall_app; split);
    [eapply Forall_impl; [|exact F1]|eapply Forall_impl; [|exact F2]
    |eapply Forall_impl; [|exact F3]];
    intros c Hc; cbv beta in Hc; rewrite Hc; lia.
Qed.

(** X24: the calls of [main] come in the order of the pipeline: those of
    the extraction, then those of the chunking, then those of the
    embeddings, then those of the vector store; a skipped step makes no
    call. *)
Theorem stages_run_in_order (a : args) (w : World) :
  exists t1 t2 t3 t4,
    trace (main' a w) = t1 ++ t2 ++ t3 ++ t4
    /\ Forall (fun c => stage c = 1) t1
    /\ Forall (fun c => stage c = 2) t2
    /\ Forall (fun c => stage c = 3) t3
    /\ Forall (fun c => stage c = 4) t4
    /\ (skip_extraction a = true -> t1 = [])
    /\ (skip_chunking a = true -> t2 = [])
    /\ (skip_embeddings a = true -> t3 = []).
Proof.
  destruct (main' a w) as [[r w'] t] eqn:H.
  destruct (main_inv a w w' r t H)
    as (t1 & t2 & t3 & t4 & -> & (F1 & F2 & F3 & F4) & (S1 & S2 & S3) & _).
  exists t1, t2, t3, t4. repeat split; assumption.
Qed.

(** X25: when [process_chunks_file] raises on every file and the
    embeddings step is not skipped, [main] stops with 1 or with an
    exception of an earlier statement, and makes no call to the vector
    store. *)
Theorem embedding_failure_leaves_store_untouched
        (a : args) (w w' : World) (r : flow unit) (t : list (call File)) :
  (forall f w, fst (process_chunks_file f w) = None) ->
  skip_embeddings a = false ->
  main' a w = (r, w', t) ->
  (r = Return 1%Z \/ r = Raise) /\ Forall (fun c => stage c < 4) t.
Proof.
  intros Hdown Hs H.
  destruct (main_inv a w w' r t H)
    as (t1 & t2 & t3 & t4 & -> & (F1 & F2 & F3 & _) & _ & C).
  destruct C as [[C ->]|[(w3 & w3' & E) _]].
  - split; [exact C|]. rewrite app_nil_r.
    repeat (apply Forall_app; split);
      [eapply Forall_impl; [|exact F1]|eapply Forall_impl; [|exact F2]
      |eapply Forall_impl; [|exact F3]];
      intros c Hc; cbv beta in Hc; rewrite Hc; lia.
  - now apply step3_stuck in E.
Qed.

End Main.

End ProcessAllFacts.

(* ================================================================= *)
(** ** Examples *)

Module Examples.
Import Py Fmt TextChunker EmbeddingService.

#[local] Abbreviation hello := (lit "Hello world.").
#[local] Abbreviation hello2 := (lit "Hello world. Hello world.").
#[local] Abbreviation numbered :=
  (lit "Chapter one" ++ [LF] ++ lit "12" ++ [LF] ++ lit "It began.").
#[local] Abbreviation toy_chunks size overlap text :=
  (create_chunks ascii_isalnum ascii_isdecimal toy_tokens size overlap text tt).
#[local] Abbreviation toy_consumed size overlap text :=
  (consumed_sentences ascii_isalnum ascii_isdecimal toy_tokens size overlap
                      text tt).

(** A page number on a line of its own, between two lines of text, is
    still there after [clean_text]. *)
Lemma page_numbers_are_kept_witness :
  In 67%N numbered
  /\ clean_text ascii_isalnum ascii_isdecimal numbered
     = lit "Chapter one 12 It began."
  /\ clean_text ascii_isalnum ascii_isdecimal numbered
     = strip (map (fun x => if kept ascii_isalnum x then x else SPACE)
                  (sub_ws_runs false numbered)).
Proof.
  split; [left; reflexivity|]. split; [reflexivity|].
  exact (TextChunkerMore.page_numbers_are_kept ascii_isalnum ascii_isdecimal
           numbered 67%N (or_introl eq_refl) eq_refl eq_refl).
Defined.

Lemma sentences_end_with_punctuation_witness :
  split_into_sentences (lit "Hi there.  Yo") = [lit "Hi there."; lit "Yo"]
  /\ Shape.ends_sentence (lit "Hi there.") = true.
Proof.
  split; [reflexivity|].
  exact (TextChunkerMore.sentences_end_with_punctuation
           (lit "Hi there.  Yo") 0 (lit "Hi there.") eq_refl
           ltac:(simpl; lia)).
Defined.

Lemma chunks_partition_without_overlap_witness :
  toy_chunks 5%Z 0%Z hello2 = [mkChunk hello 3 tt 0; mkChunk hello 3 tt 1]
  /\ join [SPACE] (map (@TextChunker.text unit) (toy_chunks 5%Z 0%Z hello2))
     = join [SPACE]
            (split_into_sentences
               (clean_text ascii_isalnum ascii_isdecimal hello2)).
Proof.
  split; [reflexivity|].
  exact (TextChunkerMore.chunks_partition_without_overlap
           ascii_isalnum ascii_isdecimal toy_tokens 5%Z 0%Z unit tt hello2
           ltac:(lia) TextChunkerFacts.toy_tokens_positive).
Defined.

Lemma text_that_fits_is_one_chunk_witness :
  split_into_sentences (clean_text ascii_isalnum ascii_isdecimal hello2)
  = [hello; hello]
  /\ toy_chunks 6%Z 3%Z hello2 = [mkChunk hello2 6 tt 0].
Proof.
  split; [reflexivity|].
  refine (TextChunkerMore.text_that_fits_is_one_chunk
            ascii_isalnum ascii_isdecimal toy_tokens 6%Z 3%Z unit tt hello2
            ltac:(discriminate) _).
  intros k Hk Hle.
  destruct k as [|[|[|k]]]; [lia|vm_compute; discriminate
                            |vm_compute; discriminate|].
  exfalso. revert Hle. vm_compute. lia.
Defined.

Lemma chunk_closed_only_by_overflow_witness :
  nth_error (toy_chunks 5%Z 3%Z hello2) 0 = Some (mkChunk hello 3 tt 0)
  /\ nth_error (toy_consumed 5%Z 3%Z hello2) 1 = Some [hello]
  /\ exists s rest,
       [hello] = s :: rest
       /\ (5 < Z.of_nat (toy_tokens (hello ++ [SPACE] ++ s)))%Z.
Proof.
  split; [reflexivity|]. split; [reflexivity|].
  exact (TextChunkerMore.chunk_closed_only_by_overflow
           ascii_isalnum ascii_isdecimal toy_tokens 5%Z 3%Z unit tt hello2 0
           (mkChunk hello 3 tt 0) [hello] eq_refl eq_refl).
Defined.

(** *** The file-level functions *)

#[local] Abbreviation a_pdf :=
  (PDFExtractor.mkPdfFile (lit "a.pdf") (lit "a")
     (Some [PDFExtractor.Returns (Some (lit " One. "));
            PDFExtractor.Returns None])).
#[local] Abbreviation broken_pdf :=
  (PDFExtractor.mkPdfFile (lit "b.pdf") (lit "b")
     (Some [PDFExtractor.Returns (Some (lit "Two.")); PDFExtractor.Raises])).
#[local] Abbreviation a_info :=
  (PDFExtractor.mkInfo 1 (lit "out/a_extracted.json") (lit "out/a_text.txt")).

Lemma results_hold_only_extracted_pdfs_witness :
  fst (PDFExtractor.process_all_pdfs PDFExtractor.toy_write (lit "out")
         [a_pdf; broken_pdf] [])
  = Ok (Some [(lit "a.pdf", a_info)])
  /\ exists f, In f [a_pdf; broken_pdf] /\ PDFExtractor.name f = lit "a.pdf"
               /\ PDFExtractor.info_pages a_info
                  = length (PDFExtractor.extract_text_from_pdf
                              (PDFExtractor.pdf f))
               /\ 1 <= PDFExtractor.info_pages a_info.
Proof.
  split; [reflexivity|].
  exact (proj2 (PDFExtractorFacts.results_hold_only_extracted_pdfs
                  PDFExtractor.toy_fs PDFExtractor.toy_write (lit "out")
                  [a_pdf; broken_pdf] [] _ _ eq_refl)
               _ (lit "a.pdf") a_info eq_refl (or_introl eq_refl)).
Defined.

Lemma blank_document_gives_no_chunk_witness :
  ChunkerFiles.process_extracted_json
    ascii_isalnum ascii_isdecimal toy_tokens 5%Z 3%Z
    (lit "out/a_extracted.json")
    (PDFExtractor.mkExtracted (lit "a.pdf") 2
       [PDFExtractor.mkPageData 1 []; PDFExtractor.mkPageData 2 [9%N; SPACE]])
  = [].
Proof.
  apply ChunkerFilesFacts.blank_document_gives_no_chunk.
  repeat constructor.
Defined.

#[local] Abbreviation a_source :=
  (ChunkerFiles.mkSourceInfo (lit "a.pdf") 1 (lit "out/a_extracted.json")).
#[local] Abbreviation two_chunks :=
  (ChunkerFiles.mkChunkData 2 (5%Z, 3%Z)
     [mkChunk hello 3 a_source 0; mkChunk hello2 6 a_source 1]).
#[local] Abbreviation model := (lit "text-embedding-ada-002").

Lemma embedding_info_counts_the_chunks_witness :
  exists out,
    EmbeddingFiles.process_chunks_file model flaky_create two_chunks = Some out
    /\ map (@EmbeddingFiles.chunk nat) (EmbeddingFiles.chunks out)
       = ChunkerFiles.chunks two_chunks
    /\ EmbeddingFiles.total_embeddings (EmbeddingFiles.info out)
       + EmbeddingFiles.failed_embeddings (EmbeddingFiles.info out)
       = 2.
Proof.
  destruct (StoreFacts.embedding_info_counts_the_chunks
              nat model flaky_create two_chunks
              EmbeddingServiceFacts.flaky_create_one_per_text)
    as (out & Ho & Hc & _ & _ & _ & Hsum).
  exists out. split; [exact Ho|]. split; [exact Hc|exact Hsum].
Defined.

(** A client that answers every batch with no embedding at all. *)
Lemma too_few_embeddings_raise_witness :
  generate_embeddings_batch (fun _ _ => Some (@nil (list nat)))
    (map (@TextChunker.text _) (ChunkerFiles.chunks two_chunks)) 100 = Some []
  /\ EmbeddingFiles.process_chunks_file model (fun _ _ => Some (@nil (list nat)))
                                        two_chunks = None.
Proof.
  split; [reflexivity|].
  exact (StoreFacts.too_few_embeddings_raise
           nat model (fun _ _ => Some []) two_chunks [] eq_refl
           ltac:(simpl; lia)).
Defined.

#[local] Abbreviation two_embedded :=
  (EmbeddingFiles.mkEmbeddedData 2 (5%Z, 3%Z)
     [EmbeddingFiles.mkEmbeddedChunk (mkChunk hello 3 a_source 0) [12] model;
      EmbeddingFiles.mkEmbeddedChunk (mkChunk hello2 6 a_source 1) [] model]
     (EmbeddingFiles.mkEmbeddingInfo model 1 1)).

Lemma store_ids_are_distinct_witness :
  exists calls,
    VectorStore.add_embeddings_from_file (@VectorStore.record_add nat)
      (lit "a_chunks_embeddings") two_embedded []
    = (Ok tt, [] ++ calls)
    /\ NoDup (concat (map (@VectorStore.batch_ids nat) calls)).
Proof.
  apply VectorStoreFacts.store_ids_are_distinct.
  simpl. repeat constructor; simpl; intuition discriminate.
Defined.

Lemma stored_documents_match_embedding_info_witness :
  exists out calls,
    EmbeddingFiles.process_chunks_file model flaky_create two_chunks = Some out
    /\ VectorStore.add_embeddings_from_file (@VectorStore.record_add nat)
         (lit "a_chunks_embeddings") out []
       = (Ok tt, [] ++ calls)
    /\ length (concat (map (@VectorStore.batch_ids nat) calls))
       = EmbeddingFiles.total_embeddings (EmbeddingFiles.info out)
    /\ length (concat (map (@VectorStore.batch_ids nat) calls))
       + EmbeddingFiles.failed_embeddings (EmbeddingFiles.info out)
       = 2.
Proof.
  exact (VectorStoreFacts.stored_documents_match_embedding_info
           nat model flaky_create (lit "a_chunks_embeddings") two_chunks []
           EmbeddingServiceFacts.flaky_create_one_per_text).
Defined.

(** The client is down and the collection refuses every [add]: nothing is
    asked of it. *)
Lemma client_down_stores_nothing_witness :
  exists out,
    EmbeddingFiles.process_chunks_file model (fun _ _ => @None (list (list nat)))
                                       two_chunks = Some out
    /\ EmbeddingFiles.total_embeddings (EmbeddingFiles.info out) = 0
    /\ EmbeddingFiles.failed_embeddings (EmbeddingFiles.info out) = 2
    /\ VectorStore.add_embeddings_from_file
         (fun (_ : VectorStore.batch nat) (_ : unit) => @None unit)
         (lit "a_chunks_embeddings") out tt
       = (Ok tt, tt).
Proof.
  destruct (VectorStoreFacts.client_down_stores_nothing
              nat model (fun _ _ => None) (lit "a_chunks_embeddings")
              two_chunks unit (fun _ _ => None) tt (fun _ _ => eq_refl))
    as (out & Ho & _ & _ & Ht & Hf & Ha).
  exists out. repeat split; assumption.
Defined.

(** *** The pipeline *)

Import ProcessAll.

#[local] Abbreviation only_store reset := (mkArgs true true true reset).

Lemma store_update_ends_with_exit_code_1_witness :
  Toy.toy_main (fun _ => Toy.ok tt) (only_store false) (Toy.mkWorld true 0)
  = (Return 1%Z, Toy.mkWorld true 1,
     [GetCollectionStats nat; AddEmbeddingsFromFile 0;
      GetCollectionStats nat; SimilaritySearch nat])
  /\ @Return unit 1%Z = Return 1%Z.
Proof.
  split; [reflexivity|].
  refine (ProcessAllFacts.store_update_ends_with_exit_code_1
            _ _ _ _ _ _ _ _ _ _ _ _ _ _ _ _ _ _ _ _ _ _
            (only_store false) (Toy.mkWorld true 0) (Toy.mkWorld true 1)
            (Return 1%Z)
            [GetCollectionStats nat; AddEmbeddingsFromFile 0;
             GetCollectionStats nat; SimilaritySearch nat]
            (eq_refl : Toy.toy_main (fun _ => Toy.ok tt) (only_store false)
                                    (Toy.mkWorld true 0) = _)
            _).
  right. left. exists 0. right. left. reflexivity.
Defined.

(** A run on a collection of seven documents. *)
Lemma success_only_on_populated_store_witness :
  Toy.toy_main (fun _ => Toy.ok tt) (only_store false) (Toy.mkWorld true 7)
  = (Return 0%Z, Toy.mkWorld true 7,
     [GetCollectionStats nat; GetCollectionStats nat])
  /\ reset_vector_store (only_store false) = false
  /\ (Toy.api_key (Toy.mkWorld true 7) = true
      \/ skip_embeddings (only_store false) = true)
  /\ exists t0 w3 w4 w5 w6 efs n n',
      bind (lift [] (Toy.ok tt))
           (fun _ => bind (step1 nat (Toy.ok tt) (Toy.ok true) (only_store false))
              (fun _ => bind (step2 (Toy.ok tt) (Toy.ok [0])
                                    (fun _ => Toy.ok tt) (fun _ _ => Toy.ok tt)
                                    (only_store false))
                 (fun _ => step3 (Toy.ok tt) (Toy.ok [0])
                                 (fun _ => Toy.ok tt) (fun _ _ => Toy.ok tt)
                                 (fun _ : unit => Some (1, 0))
                                 (only_store false))))
           (Toy.mkWorld true 7)
      = (Value tt, w3, t0)
      /\ Toy.ok tt w3 = (Some tt, w4)
      /\ Toy.ok [0] w4 = (Some efs, w5) /\ efs <> []
      /\ Toy.toy_get_collection_stats w5 = (Some n, w6) /\ 0 < n
      /\ Toy.toy_get_collection_stats w6 = (Some n', Toy.mkWorld true 7)
      /\ [GetCollectionStats nat; GetCollectionStats nat]
         = t0 ++ [GetCollectionStats nat; GetCollectionStats nat]
      /\ Forall (fun c : call nat => stage c < 4) t0.
Proof.
  split; [reflexivity|].
  exact (ProcessAllFacts.success_only_on_populated_store
           Toy.world nat unit unit Toy.api_key (Toy.ok tt) (Toy.ok tt)
           (Toy.ok tt) (Toy.ok tt) (Toy.ok tt) (Toy.ok true)
           (Toy.ok [0]) (Toy.ok [0]) (Toy.ok [0])
           (fun _ => Toy.ok tt) (fun _ _ => Toy.ok tt)
           (fun _ => Toy.ok tt) (fun _ _ => Toy.ok tt)
           (fun _ => Some (1, 0))
           Toy.toy_reset_collection Toy.toy_get_collection_stats
           Toy.toy_add_embeddings_from_file
           (only_store false) (Toy.mkWorld true 7) (Toy.mkWorld true 7)
           [GetCollectionStats nat; GetCollectionStats nat] eq_refl).
Defined.

Lemma embedding_failure_leaves_store_untouched_witness :
  Toy.toy_main (fun _ => Toy.fails unit) (mkArgs true true false false)
               (Toy.mkWorld true 0)
  = (Return 1%Z, Toy.mkWorld true 0, [ProcessChunksFile 0])
  /\ Forall (fun c : call nat => stage c < 4) [ProcessChunksFile 0].
Proof.
  split; [reflexivity|].
  exact (proj2 (ProcessAllFacts.embedding_failure_leaves_store_untouched
                  _ _ _ _ _ _ _ _ _ _ _ _ _ _ _ _
                  (fun _ => Toy.fails unit) _ _ _ _ _
                  (mkArgs true true false false) (Toy.mkWorld true 0)
                  (Toy.mkWorld true 0) (Return 1%Z) [ProcessChunksFile 0]
                  (fun _ _ => eq_refl) eq_refl
                  (eq_refl : Toy.toy_main (fun _ => Toy.fails unit)
                                          (mkArgs true true false false)
                                          (Toy.mkWorld true 0) = _))).
Defined.

End Examples.
